(** * SproutCore: property observing (SC.Observable) and statechart nodes
      (SC.Substate)

    A shallow embedding of [frameworks/costello/mixins/observable.js]:
    the key-value-observing mixin (get/set, change batching, the
    notification flush) and the statechart node (substate lookup, transition
    requests, event routing), with the properties of both that are
    established below. *)

From stdpp Require Import gmap strings list fin_maps.
From Stdlib Require Import ZArith Lia Ascii.

Local Open Scope Z_scope.

(** ** Engine A: SC.Observable *)

Module Observable.

(** A JavaScript function object together with the flags that
    [.property()], [.cacheable()] and [.volatile()] attach to it.  Two
    function values are strictly equal when they are the same descriptor. *)
Record FnDesc := mkFn {
  fn_id : nat;
  isProperty : bool;
  isCacheable : bool;
  isVolatile : bool;
  cacheKey : string;
  lastSetValueKey : string
}.

Global Instance FnDesc_eq_dec : EqDecision FnDesc.
Proof. solve_decision. Defined.

(** The values a slot of the object can hold. *)
Inductive Val :=
  | VUndef
  | VNull
  | VBool (b : bool)
  | VNum (n : Z)
  | VStr (s : string)
  | VFun (f : FnDesc).

Global Instance Val_eq_dec : EqDecision Val.
Proof. solve_decision. Defined.

(** JavaScript truthiness. *)
Definition truthy (v : Val) : bool :=
  match v with
  | VUndef | VNull => false
  | VBool b => b
  | VNum n => negb (n =? 0)
  | VStr s => negb (bool_decide (s = ""))
  | VFun _ => true
  end.

(** Modelled from the spec: the members of [SC._ObserverSet], which is
    required from [private/observer_set].  One registration is
    [[target, method, stamp]]: the target is [None] for the object itself
    ([member[0] || this]), and the third component is the revision of the
    flush that last invoked it. *)
Record Member := mkMember {
  m_target : option nat;
  m_method : nat;
  m_stamp : option Z
}.

Global Instance Member_eq_dec : EqDecision Member.
Proof. solve_decision. Defined.

(** What the object does to its collaborators and to user functions. *)
Inductive Event :=
  | EWillChange (key : string)
  | EDidChange (key : string)
  | ECall (fn : nat) (key : string) (value : Val)
  | EObserver (key : string) (target : option nat) (method : nat) (rev : Z)
  | ELocalObserver (key : string) (name : string) (rev : Z)
  | EStarObserver (key : string) (target : option nat) (method : nat) (rev : Z)
  | EPropertyObserver (key : string) (rev : Z)
  | EObjectHasPendingChanges.

Global Instance Event_eq_dec : EqDecision Event.
Proof. solve_decision. Defined.

(** The observable object.  [slots] is the property table [this[key]]
    (cache and last-set-value slots of computed properties live in it too,
    under the keys their descriptor names); the [kvo_] fields are the
    private bookkeeping of the mixin.  [trace] and [suspended] are not part
    of the object: the first logs the calls made while an operation runs,
    the second is [SC.Observers.isObserveringSuspended]. *)
Record St := mkSt {
  slots : gmap string Val;
  kvo_changeLevel : option Z;
  kvo_revision : option Z;
  propertyRevision : Z;
  kvo_changes : option (list string);
  kvo_altChanges : option (list string);
  kvo_dependents : option (gmap string (list string));
  kvo_cachedDependents : option (gmap string (list FnDesc));
  kvo_observers : gmap string (list Member);
  kvo_local : gmap string (list string);
  kvo_observed_keys : list string;
  suspended : bool;
  trace : list Event
}.

Definition with_slots (x : gmap string Val) (o : St) : St :=
  mkSt x (kvo_changeLevel o) (kvo_revision o) (propertyRevision o)
       (kvo_changes o) (kvo_altChanges o) (kvo_dependents o)
       (kvo_cachedDependents o) (kvo_observers o) (kvo_local o)
       (kvo_observed_keys o) (suspended o) (trace o).

Definition with_changeLevel (x : option Z) (o : St) : St :=
  mkSt (slots o) x (kvo_revision o) (propertyRevision o)
       (kvo_changes o) (kvo_altChanges o) (kvo_dependents o)
       (kvo_cachedDependents o) (kvo_observers o) (kvo_local o)
       (kvo_observed_keys o) (suspended o) (trace o).

Definition with_revision (x : option Z) (o : St) : St :=
  mkSt (slots o) (kvo_changeLevel o) x (propertyRevision o)
       (kvo_changes o) (kvo_altChanges o) (kvo_dependents o)
       (kvo_cachedDependents o) (kvo_observers o) (kvo_local o)
       (kvo_observed_keys o) (suspended o) (trace o).

Definition with_propertyRevision (x : Z) (o : St) : St :=
  mkSt (slots o) (kvo_changeLevel o) (kvo_revision o) x
       (kvo_changes o) (kvo_altChanges o) (kvo_dependents o)
       (kvo_cachedDependents o) (kvo_observers o) (kvo_local o)
       (kvo_observed_keys o) (suspended o) (trace o).

Definition with_changes (x : option (list string)) (o : St) : St :=
  mkSt (slots o) (kvo_changeLevel o) (kvo_revision o) (propertyRevision o)
       x (kvo_altChanges o) (kvo_dependents o)
       (kvo_cachedDependents o) (kvo_observers o) (kvo_local o)
       (kvo_observed_keys o) (suspended o) (trace o).

Definition with_altChanges (x : option (list string)) (o : St) : St :=
  mkSt (slots o) (kvo_changeLevel o) (kvo_revision o) (propertyRevision o)
       (kvo_changes o) x (kvo_dependents o)
       (kvo_cachedDependents o) (kvo_observers o) (kvo_local o)
       (kvo_observed_keys o) (suspended o) (trace o).

Definition with_dependents (x : option (gmap string (list string)))
    (o : St) : St :=
  mkSt (slots o) (kvo_changeLevel o) (kvo_revision o) (propertyRevision o)
       (kvo_changes o) (kvo_altChanges o) x
       (kvo_cachedDependents o) (kvo_observers o) (kvo_local o)
       (kvo_observed_keys o) (suspended o) (trace o).

Definition with_cachedDependents (x : option (gmap string (list FnDesc)))
    (o : St) : St :=
  mkSt (slots o) (kvo_changeLevel o) (kvo_revision o) (propertyRevision o)
       (kvo_changes o) (kvo_altChanges o) (kvo_dependents o)
       x (kvo_observers o) (kvo_local o)
       (kvo_observed_keys o) (suspended o) (trace o).

Definition with_observers (x : gmap string (list Member)) (o : St) : St :=
  mkSt (slots o) (kvo_changeLevel o) (kvo_revision o) (propertyRevision o)
       (kvo_changes o) (kvo_altChanges o) (kvo_dependents o)
       (kvo_cachedDependents o) x (kvo_local o)
       (kvo_observed_keys o) (suspended o) (trace o).

Definition with_observed_keys (x : list string) (o : St) : St :=
  mkSt (slots o) (kvo_changeLevel o) (kvo_revision o) (propertyRevision o)
       (kvo_changes o) (kvo_altChanges o) (kvo_dependents o)
       (kvo_cachedDependents o) (kvo_observers o) (kvo_local o)
       x (suspended o) (trace o).

Definition with_trace (x : list Event) (o : St) : St :=
  mkSt (slots o) (kvo_changeLevel o) (kvo_revision o) (propertyRevision o)
       (kvo_changes o) (kvo_altChanges o) (kvo_dependents o)
       (kvo_cachedDependents o) (kvo_observers o) (kvo_local o)
       (kvo_observed_keys o) (suspended o) x.

(** [this[key]]: a missing property reads as [undefined]. *)
Definition slot (o : St) (key : string) : Val :=
  default VUndef (slots o !! key).

(** [this[key] = v]. *)
Definition write (key : string) (v : Val) (o : St) : St :=
  with_slots (<[key := v]> (slots o)) o.

Definition log (es : list Event) (o : St) : St :=
  with_trace (trace o ++ es) o.

(** [x || d] on a counter that may be unset: [undefined] and [0] are
    falsy. *)
Definition js_or (x : option Z) (d : Z) : Z :=
  match x with
  | Some n => if n =? 0 then d else n
  | None => d
  end.

(** Modelled from the spec: [SC.Set] (it is required from another file of
    the framework).  An ordered collection that coalesces duplicates:
    [add] appends an absent element, [pop] removes the last one, and
    [changes[idx]] reads by position. *)
Definition set_add (k : string) (s : list string) : list string :=
  if bool_decide (k ∈ s) then s else s ++ [k].

Definition set_addEach (ks : list string) (s : list string) : list string :=
  foldl (fun acc k => set_add k acc) s ks.

(** A fresh object: nothing defined, [propertyRevision] at its prototype
    value 1. *)
Definition fresh : St :=
  mkSt ∅ None None 1 None None None None ∅ ∅ [] false [].

Section Operations.

(** User functions are opaque.  [call_fn id o key value] is what the
    function [id] returns when invoked on the object in state [o] as
    [fn.call(this, key, value)]; it reads the object and does not write it.
    Observers are invoked for effect only and do not write the object
    either: such calls appear in [trace] and nowhere else. *)
Variable call_fn : nat -> St -> string -> Val -> Val.

(** [automaticallyNotifiesObserversFor(key)]: [YES] unless the object
    overrides it. *)
Variable automaticallyNotifiesObserversFor : string -> bool.

Definition invoke (f : FnDesc) (key : string) (value : Val) (o : St)
    : St * Val :=
  (log [ECall (fn_id f) key value] o, call_fn (fn_id f) o key value).

(** *** The notification flush *)

(** [(func = this[key]) && func.isCacheable]: clear the cache slot of a
    cacheable function held under [key]. *)
Definition clear_cache (key : string) (o : St) : St :=
  match slot o key with
  | VFun f => if isCacheable f then write (cacheKey f) VUndef o else o
  | _ => o
  end.

(** [while(--loc >= 0) { changes.add(key = keys[loc]); ... }]: the
    dependents of one key, taken from the last to the first. *)
Definition add_keys (keys : list string) (acc : list string * St)
    : list string * St :=
  foldr (fun k '(cs, o) => (set_add k cs, clear_cache k o)) acc keys.

(** [for(idx=0; idx<changes.length; idx++)] over a set that grows while it
    is walked.  [fuel] bounds the number of rounds; [dependents_fuel] below
    is always enough (lemma [add_dependents_closed]). *)
Fixpoint add_dependents (fuel : nat) (deps : gmap string (list string))
    (idx : nat) (changes : list string) (o : St) : list string * St :=
  match fuel with
  | O => (changes, o)
  | S fuel' =>
      match changes !! idx with
      | None => (changes, o)
      | Some key =>
          let '(changes', o') :=
            add_keys (default [] (deps !! key)) (changes, o) in
          add_dependents fuel' deps (S idx) changes' o'
      end
  end.

Definition deps_range (deps : gmap string (list string)) : list string :=
  concat (snd <$> map_to_list deps).

Definition dependents_fuel (deps : gmap string (list string))
    (changes : list string) : nat :=
  S (length changes + length (deps_range deps)).

(** The registered observers of one key: a member already stamped with
    this flush's revision is skipped, any other is stamped and invoked. *)
Fixpoint notify_members (rev : Z) (key : string) (ms : list Member)
    : list Member * list Event :=
  match ms with
  | [] => ([], [])
  | m :: rest =>
      let '(rest', es) := notify_members rev key rest in
      if bool_decide (m_stamp m = Some rev) then (m :: rest', es)
      else (mkMember (m_target m) (m_method m) (Some rev) :: rest',
            EObserver key (m_target m) (m_method m) rev :: es)
  end.

Definition notify_local (rev : Z) (key : string) (names : list string)
    (o : St) : list Event :=
  omap (fun name =>
          if truthy (slot o name) then Some (ELocalObserver key name rev)
          else None) names.

(** The body of [while(changes.length > 0)] for the popped [key]. *)
Definition notify_key (rev : Z) (key : string) (o : St) : St :=
  let o1 :=
    match kvo_observers o !! key with
    | Some ms =>
        let '(ms', es) := notify_members rev key ms in
        log es (with_observers (<[key := ms']> (kvo_observers o)) o)
    | None => o
    end in
  let o2 :=
    match kvo_local o1 !! key with
    | Some names => log (notify_local rev key names o1) o1
    | None => o1
    end in
  let o3 :=
    match kvo_observers o2 !! "*" with
    | Some stars =>
        if bool_decide (key = "*") then o2
        else log ((fun m => EStarObserver key (m_target m) (m_method m) rev)
                    <$> stars) o2
    | None => o2
    end in
  if truthy (slot o3 "propertyObserver")
  then log [EPropertyObserver key rev] o3 else o3.

(** [pop] takes the keys from the last to the first. *)
Definition notify_all (rev : Z) (changes : list string) (o : St) : St :=
  foldl (fun acc k => notify_key rev k acc) o (reverse changes).

Definition pending (o : St) : bool :=
  match kvo_changes o with
  | Some (_ :: _) => true
  | _ => false
  end.

Definition key_truthy (key : option string) : bool :=
  match key with
  | Some k => negb (bool_decide (k = ""))
  | None => false
  end.

(** One round of [while(((changes = this._kvo_changes) && ...) || key)]. *)
Definition flush_round (key : option string) (o : St) : St :=
  let rev := propertyRevision o in
  let o := with_propertyRevision (rev + 1) o in
  let changes := default [] (kvo_changes o) in
  let o := with_altChanges None (with_changes (kvo_altChanges o) o) in
  let changes :=
    match key with
    | Some k =>
        if bool_decide (k = "*")
        then set_addEach (kvo_observed_keys o) (set_add "*" changes)
        else if bool_decide (k = "") then changes
        else set_add k changes
    | None => changes
    end in
  let '(changes, o) :=
    match kvo_dependents o with
    | Some deps =>
        add_dependents (dependents_fuel deps changes) deps 0 changes o
    | None => (changes, o)
    end in
  let o := notify_all rev changes o in
  with_altChanges (Some []) o.

(** The outer loop.  Observers do not write the object, so after a round
    the pending set can only be what [_kvo_altChanges] held: the body runs
    at most twice (lemma [flush_loop_quiescent]). *)
Fixpoint flush_loop (fuel : nat) (key : option string) (o : St) : St :=
  match fuel with
  | O => o
  | S fuel' =>
      if pending o || key_truthy key
      then flush_loop fuel' None (flush_round key o)
      else o
  end.

(** [_notifyPropertyObservers(key)], on an object whose [initObservable]
    has run and with nothing for [SC.Observers.flush()] to hook up. *)
Definition _notifyPropertyObservers (key : option string) (o : St) : St :=
  let o := with_changeLevel (Some (js_or (kvo_changeLevel o) 0 + 1)) o in
  let o := flush_loop 3 key o in
  with_changeLevel (Some (js_or (kvo_changeLevel o) 1 - 1)) o.

(** *** Change batching *)

Definition beginPropertyChanges (o : St) : St :=
  with_changeLevel (Some (js_or (kvo_changeLevel o) 0 + 1)) o.

Definition endPropertyChanges (o : St) : St :=
  let o := with_changeLevel (Some (js_or (kvo_changeLevel o) 1 - 1)) o in
  let level := default 0 (kvo_changeLevel o) in
  if (level <=? 0) && pending o then _notifyPropertyObservers None o else o.

Definition propertyWillChange (key : string) (o : St) : St := o.

Definition propertyDidChange (key : string) (o : St) : St :=
  let o := with_revision (Some (js_or (kvo_revision o) 0 + 1)) o in
  let level := js_or (kvo_changeLevel o) 0 in
  let o :=
    match slot o key with
    | VFun f =>
        if isCacheable f
        then write (cacheKey f) VUndef (write (lastSetValueKey f) VUndef o)
        else o
    | _ => o
    end in
  if 0 <? level then
    with_changes (Some (set_add key (default [] (kvo_changes o)))) o
  else if suspended o then
    log [EObjectHasPendingChanges]
        (with_changes (Some (set_add key (default [] (kvo_changes o)))) o)
  else _notifyPropertyObservers (Some key) o.

(** *** get and set *)

Definition unknownProperty (key : string) (value : Val) (o : St)
    : St * Val :=
  (if bool_decide (value = VUndef) then o else write key value o, value).

Definition get (key : string) (o : St) : St * Val :=
  match slot o key with
  | VUndef => unknownProperty key VUndef o
  | VFun f =>
      if isProperty f then
        if isCacheable f then
          match slot o (cacheKey f) with
          | VUndef =>
              let '(o', r) := invoke f key VUndef o in
              (write (cacheKey f) r o', r)
          | cached => (o, cached)
          end
        else invoke f key VUndef o
      else (o, VFun f)
  | v => (o, v)
  end.

(** The last statement of [set]: every cached dependent of [key] loses its
    cache slot and its last-set-value slot. *)
Definition clear_cached_dependents (key : string) (o : St) : St :=
  match kvo_cachedDependents o with
  | Some cached =>
      foldr (fun f acc =>
               write (cacheKey f) VUndef
                     (write (lastSetValueKey f) VUndef acc))
            o (default [] (cached !! key))
  | None => o
  end.

Definition set_plain (notify : bool) (key : string) (value : Val)
    (o : St) : St :=
  if bool_decide (slot o key = value) then o
  else
    let o := if notify then log [EWillChange key] (propertyWillChange key o)
             else o in
    let o := write key value o in
    if notify then propertyDidChange key (log [EDidChange key] o) else o.

Definition set_computed (notify : bool) (f : FnDesc) (key : string)
    (value : Val) (o : St) : St :=
  if isVolatile f || negb (bool_decide (slot o (lastSetValueKey f) = value))
  then
    let o := write (lastSetValueKey f) value o in
    let o := if notify then log [EWillChange key] (propertyWillChange key o)
             else o in
    let '(o, ret) := invoke f key value o in
    let o := if isCacheable f then write (cacheKey f) ret o else o in
    if notify then propertyDidChange key (log [EDidChange key] o) else o
  else o.

Definition set_unknown (notify : bool) (key : string) (value : Val)
    (o : St) : St :=
  let o := if notify then log [EWillChange key] (propertyWillChange key o)
           else o in
  let o := fst (unknownProperty key value o) in
  if notify then propertyDidChange key (log [EDidChange key] o) else o.

(** [// set the value.]: the three branches of [set]. *)
Definition set_value (notify : bool) (key : string) (value : Val)
    (o : St) : St :=
  match slot o key with
  | VFun f =>
      if isProperty f then set_computed notify f key value o
      else set_plain notify key value o
  | VUndef => set_unknown notify key value o
  | _ => set_plain notify key value o
  end.

Definition set (key : string) (value : Val) (o : St) : St :=
  let notify := automaticallyNotifiesObserversFor key in
  let o := set_value notify key value o in
  clear_cached_dependents key o.

(** [n] consecutive calls of [get(key)], with their results. *)
Fixpoint gets (key : string) (n : nat) (o : St) : St * list Val :=
  match n with
  | O => (o, [])
  | S n' =>
      let '(o1, r) := get key o in
      let '(o2, rs) := gets key n' o1 in
      (o2, r :: rs)
  end.

(** *** Dependent keys *)

(** An argument of [registerDependentKey] after the key: a key or an array
    of keys. *)
Inductive DepArg :=
  | DepKey (k : string)
  | DepKeys (ks : list string).

(** What the loop body does for one base key [dep]: push [key] on the
    dependents of [dep] and, when [this[key]] is a cacheable function, push
    that function on the cached dependents of [dep]. *)
Definition register_one (key dep : string) (o : St) : St :=
  let deps := default ∅ (kvo_dependents o) in
  let o :=
    with_dependents
      (Some (<[dep := default [] (deps !! dep) ++ [key]]> deps)) o in
  match slot o key with
  | VFun f =>
      if isCacheable f then
        let cached := default ∅ (kvo_cachedDependents o) in
        with_cachedDependents
          (Some (<[dep := default [] (cached !! dep) ++ [f]]> cached)) o
      else o
  | _ => o
  end.

(** [registerDependentKey(key, ...)]: the arguments are walked from the
    last to the first, and so is each array among them. *)
Definition registerDependentKey (key : string) (args : list DepArg)
    (o : St) : St :=
  let o := with_dependents (Some (default ∅ (kvo_dependents o))) o in
  foldr (fun arg acc =>
           match arg with
           | DepKey d => register_one key d acc
           | DepKeys ds => foldr (register_one key) acc ds
           end) o args.

(** The base keys named by the arguments, arrays flattened. *)
Definition dep_keys (args : list DepArg) : list string :=
  concat ((fun arg => match arg with
                      | DepKey d => [d]
                      | DepKeys ds => ds
                      end) <$> args).

(** The cached dependents of a base key. *)
Definition cached_dependents (o : St) (base : string) : list FnDesc :=
  match kvo_cachedDependents o with
  | Some cached => default [] (cached !! base)
  | None => []
  end.

(** *** A small object

    [P] is a cacheable computed property that depends on the plain key
    [B]. *)
Definition fP : FnDesc :=
  mkFn 1%nat true true false "__cache__P" "__lastValue__P".

Definition example_obj : St :=
  registerDependentKey "P" [DepKey "B"]
    (write "B" (VNum 1) (write "P" (VFun fP) fresh)).

(** A user function that returns [v] whatever it is given. *)
Definition returns (v : Val) : nat -> St -> string -> Val -> Val :=
  fun _ _ _ _ => v.

Definition always_notify : string -> bool := fun _ => true.

(** An override of [automaticallyNotifiesObserversFor] that answers [NO]
    for the key [k0] alone. *)
Definition notify_except (k0 : string) : string -> bool :=
  fun k => negb (bool_decide (k = k0)).

(** An object with the plain property [x] and two observers on it: a
    method of the object itself and a method of another object. *)
Definition observed_obj : St :=
  with_observed_keys ["x"]
    (with_observers {[ "x" := [mkMember None 10%nat None;
                               mkMember (Some 2%nat) 11%nat None] ]}
       (write "x" (VNum 0) fresh)).

(** *** Sequences of batching calls *)

Inductive Op :=
  | OpBegin
  | OpEnd
  | OpFlush (key : option string)
  | OpDidChange (key : string).

Definition step (op : Op) (o : St) : St :=
  match op with
  | OpBegin => beginPropertyChanges o
  | OpEnd => endPropertyChanges o
  | OpFlush key => _notifyPropertyObservers key o
  | OpDidChange key => propertyDidChange key o
  end.

Definition run (ops : list Op) (o : St) : St :=
  foldl (fun acc op => step op acc) o ops.

(** The value of the two counters, an unset counter counting as 0. *)
Definition level (o : St) : Z := default 0 (kvo_changeLevel o).
Definition revision (o : St) : Z := default 0 (kvo_revision o).

(** Whether [propertyDidChange] queues the key rather than flushing. *)
Definition queues (o : St) : bool :=
  (0 <? js_or (kvo_changeLevel o) 0) || suspended o.

(** Name collisions.  Cache and last-set-value slots share the property
    table with ordinary keys; [avoids key g] says that the descriptor [g]
    does not use [key] for either. *)
Definition avoids (key : string) (g : FnDesc) : Prop :=
  cacheKey g <> key /\ lastSetValueKey g <> key.

Definition val_avoids (key : string) (x : Val) : Prop :=
  match x with
  | VFun g => avoids key g
  | _ => True
  end.

Definition slots_avoid (key : string) (o : St) : Prop :=
  forall k g, slots o !! k = Some (VFun g) -> avoids key g.

Global Instance avoids_dec key g : Decision (avoids key g).
Proof. unfold avoids. apply _. Defined.

Global Instance val_avoids_dec key x : Decision (val_avoids key x).
Proof. destruct x; simpl; apply _. Defined.

(** [o'] still avoids [key] and holds under [key] what [o] held. *)
Definition stable (key : string) (o o' : St) : Prop :=
  slots_avoid key o -> slots_avoid key o' /\ slot o' key = slot o key.

(** *** Observer registrations *)

(** The [(target, method)] pairs of an observer set. *)
Definition pairs (ms : list Member) : list (option nat * nat) :=
  (fun x => (m_target x, m_method x)) <$> ms.

(** Modelled from the spec: [SC._ObserverSet.add], which registers a
    [(target, method)] pair at most once; a new registration has no
    stamp. *)
Definition observerSet_add (target : option nat) (method : nat)
    (ms : list Member) : list Member :=
  if bool_decide ((target, method) ∈ pairs ms) then ms
  else ms ++ [mkMember target method None].

Fixpoint has_dot (s : string) : bool :=
  match s with
  | EmptyString => false
  | String c rest => Ascii.eqb c "."%char || has_dot rest
  end.

Definition starts_with_at (s : string) : bool :=
  match s with
  | String c _ => Ascii.eqb c "@"%char
  | EmptyString => false
  end.

(** [addObserver(key, target, method)] with the method given as a
    function; [target] is [None] for the object itself.  A key with a dot
    in it asks for a chain observer, which is not modelled: the answer is
    then [None]. *)
Definition addObserver (key : string) (target : option nat) (method : nat)
    (o : St) : option St :=
  if has_dot key then None
  else
    let o :=
      if bool_decide (slot o key = VUndef) && starts_with_at key
      then (get key o).1 else o in
    let ms := default [] (kvo_observers o !! key) in
    Some (with_observed_keys (set_add key (kvo_observed_keys o))
            (with_observers
               (<[key := observerSet_add target method ms]> (kvo_observers o))
               o)).

(** A registration last invoked, if ever, by a flush before revision
    [rev]. *)
Definition stamp_before (rev : Z) (x : Member) : Prop :=
  match m_stamp x with
  | Some s => s < rev
  | None => True
  end.

Global Instance stamp_before_dec rev x : Decision (stamp_before rev x).
Proof. unfold stamp_before. destruct (m_stamp x); apply _. Defined.

(** The state of the registry between flushes: a pair is registered at
    most once per key, every stamp is older than [propertyRevision], and
    the spare change set is empty. *)
Definition wf_observers (o : St) : Prop :=
  map_Forall (fun _ ms => NoDup (pairs ms) /\
                          Forall (stamp_before (propertyRevision o)) ms)
             (kvo_observers o).

Definition wf (o : St) : Prop :=
  wf_observers o /\
  (kvo_altChanges o = None \/ kvo_altChanges o = Some []).

(** The number of times the registration [(t, m)] of [key] is invoked in a
    log. *)
Definition is_invocation (key : string) (t : option nat) (m : nat)
    (e : Event) : bool :=
  match e with
  | EObserver k' t' m' _ => bool_decide (k' = key /\ t' = t /\ m' = m)
  | _ => false
  end.

Definition invocations (key : string) (t : option nat) (m : nat)
    (es : list Event) : nat :=
  length (filter (fun e => is_invocation key t m e = true) es).

(** The batch [beginPropertyChanges(); set(key, v1); ...; set(key, vn)],
    up to but not including the matching [endPropertyChanges()]. *)
Definition batch (key : string) (vs : list Val) (o : St) : St :=
  foldl (fun acc v => set key v acc) (beginPropertyChanges o) vs.

(** What a batched [set(key, ...)] may do to the registry: nothing but
    log calls that are not observer invocations and mark [key] changed. *)
Definition is_observer (e : Event) : bool :=
  match e with
  | EObserver _ _ _ _ => true
  | _ => false
  end.

Definition batched (key : string) (o o' : St) : Prop :=
  kvo_changeLevel o' = kvo_changeLevel o /\
  kvo_observers o' = kvo_observers o /\
  propertyRevision o' = propertyRevision o /\
  kvo_altChanges o' = kvo_altChanges o /\
  (exists es, trace o' = trace o ++ es /\
              Forall (fun e => is_observer e = false) es) /\
  (forall x, x ∈ default [] (kvo_changes o') ->
             x = key \/ x ∈ default [] (kvo_changes o)) /\
  (NoDup (default [] (kvo_changes o)) -> NoDup (default [] (kvo_changes o'))).

(** [o'] has logged what [o] had, and possibly more. *)
Definition extends (o o' : St) : Prop :=
  exists es, trace o' = trace o ++ es.

(** *** Convenience operations *)

(** [notifyPropertyChange(key, value)]; [propertyDidChange] makes no use of
    the value. *)
Definition notifyPropertyChange (key : string) (value : Val) (o : St) : St :=
  propertyDidChange key (propertyWillChange key o).

(** [allPropertiesDidChange()]. *)
Definition allPropertiesDidChange (o : St) : St :=
  _notifyPropertyObservers (Some "*") o.

(** [setIfChanged(key, value)]. *)
Definition setIfChanged (key : string) (value : Val) (o : St) : St :=
  let '(o1, current) := get key o in
  if bool_decide (current = value) then o1 else set key value o1.

(** The integers a JavaScript number holds exactly, with room for one
    step up or down. *)
Definition safe_integer (n : Z) : bool := Z.abs n <? 2 ^ 53.

(** [(x || 0) + 1]: a falsy value counts as 0, [true] as 1, and a string
    gets ["1"] appended.  The text of a function and numbers beyond the
    exact range are not modelled: the answer is then [None]. *)
Definition plus_one (v : Val) : option Val :=
  match (if truthy v then v else VNum 0) with
  | VNum n => if safe_integer n then Some (VNum (n + 1)) else None
  | VBool b => Some (VNum (Z.b2z b + 1))
  | VStr s => Some (VStr (s ++ "1"))
  | VNull => Some (VNum 1)
  | VUndef | VFun _ => None
  end.

(** [(x || 0) - 1]; the conversion of a string to a number is not
    modelled either. *)
Definition minus_one (v : Val) : option Val :=
  match (if truthy v then v else VNum 0) with
  | VNum n => if safe_integer n then Some (VNum (n - 1)) else None
  | VBool b => Some (VNum (Z.b2z b - 1))
  | VNull => Some (VNum (-1))
  | VStr _ | VUndef | VFun _ => None
  end.

(** [incrementProperty(key)] and [decrementProperty(key)], with the value
    they return. *)
Definition incrementProperty (key : string) (o : St) : option (St * Val) :=
  let '(o1, current) := get key o in
  match plus_one current with
  | Some v => Some (get key (set key v o1))
  | None => None
  end.

Definition decrementProperty (key : string) (o : St) : option (St * Val) :=
  let '(o1, current) := get key o in
  match minus_one current with
  | Some v => Some (get key (set key v o1))
  | None => None
  end.

(** What a slot counts as for the two: the number it holds, or 0 when it
    holds a falsy value. *)
Definition counts_as (v : Val) (n : Z) : Prop :=
  v = VNum n \/ (n = 0 /\ truthy v = false).

(** [x == y] where it needs no conversion of a string or of a function to
    a primitive value: [null] and [undefined] equal each other and nothing
    else, a boolean is compared as the number 0 or 1, values of one type
    are compared strictly.  The other cases are not modelled. *)
Definition loose_eq (x y : Val) : option bool :=
  match x, y with
  | (VUndef | VNull), (VUndef | VNull) => Some true
  | (VUndef | VNull), _ | _, (VUndef | VNull) => Some false
  | VBool a, VBool b => Some (bool_decide (a = b))
  | VNum a, VNum b => Some (a =? b)
  | VBool a, VNum n | VNum n, VBool a => Some (Z.b2z a =? n)
  | VStr a, VStr b => Some (bool_decide (a = b))
  | VFun f, VFun g => Some (bool_decide (f = g))
  | _, _ => None
  end.

(** [toggleProperty(key, value, alt)], with the value it returns; an
    argument left out is [undefined]. *)
Definition toggleProperty (key : string) (value alt : Val) (o : St)
    : option (St * Val) :=
  let value := if bool_decide (value = VUndef) then VBool true else value in
  let alt := if bool_decide (alt = VUndef) then VBool false else alt in
  let '(o1, current) := get key o in
  match loose_eq current value with
  | Some same =>
      let value := if same then alt else value in
      Some (get key (set key value o1))
  | None => None
  end.

(** [beginPropertyChanges(); beginPropertyChanges(); set(key, v1); ...;
    set(key, vn)]: a batch inside a batch, before either is ended. *)
Definition nested_batch (key : string) (vs : list Val) (o : St) : St :=
  foldl (fun acc v => set key v acc)
        (beginPropertyChanges (beginPropertyChanges o)) vs.

(** *** didChangeFor *)

(** [_kvo_didChange_valueCache] and [_kvo_didChange_revisionCache]: for
    the hash of each context, what was seen under each key. *)
Record Seen := mkSeen {
  valueCache : gmap string (gmap string Val);
  revisionCache : gmap string (gmap string Z)
}.

Definition no_seen : Seen := mkSeen ∅ ∅.

(** The body of [while(--idx >= 1)] for one key. *)
Definition didChange_key (currentRevision : Z) (seenValues : gmap string Val)
    (key : string) (acc : bool * gmap string Z * St)
    : bool * gmap string Z * St :=
  let '(ret, seenRevisions, o) := acc in
  let '(ret, o) :=
    if bool_decide (seenRevisions !! key = Some currentRevision)
    then (ret, o)
    else
      let '(o', value) := get key o in
      (if bool_decide (default VUndef (seenValues !! key) = value)
       then ret else true, o') in
  (ret, <[key := currentRevision]> seenRevisions, o).

(** [didChangeFor(context, key1, ..., keyn)]; [context] is the hash of the
    first argument.  The keys are walked from the last to the first. *)
Definition didChangeFor (context : string) (keys : list string) (c : Seen)
    (o : St) : bool * Seen * St :=
  let seenValues := default ∅ (valueCache c !! context) in
  let seenRevisions := default ∅ (revisionCache c !! context) in
  let currentRevision := js_or (kvo_revision o) 0 in
  let '(ret, seenRevisions, o) :=
    foldr (didChange_key currentRevision seenValues)
          (false, seenRevisions, o) keys in
  (ret,
   mkSeen (<[context := seenValues]> (valueCache c))
          (<[context := seenRevisions]> (revisionCache c)),
   o).

(** No value has been recorded for any context. *)
Definition values_empty (c : Seen) : Prop :=
  map_Forall (fun _ seen => seen = ∅) (valueCache c).

(** *** The keys a flush notifies *)

(** [d] is [k], or is reached from [k] through the table of dependents. *)
Inductive depends (deps : gmap string (list string))
    : string -> string -> Prop :=
  | depends_refl k : depends deps k k
  | depends_step k d d' :
      d ∈ default [] (deps !! k) -> depends deps d d' -> depends deps k d'.

(** The change set a flush starts from: the pending keys and what the key
    passed in adds to them. *)
Definition round_changes (key : option string) (o : St) : list string :=
  let changes := default [] (kvo_changes o) in
  match key with
  | Some k =>
      if bool_decide (k = "*")
      then set_addEach (kvo_observed_keys o) (set_add "*" changes)
      else if bool_decide (k = "") then changes
      else set_add k changes
  | None => changes
  end.

Definition notified (key : option string) (o : St) (d : string) : Prop :=
  exists k, k ∈ round_changes key o /\
            depends (default ∅ (kvo_dependents o)) k d.

(** The number of times the registration [(t, m)] of ['*'] is invoked for
    [key] in a log. *)
Definition is_star_invocation (key : string) (t : option nat) (m : nat)
    (e : Event) : bool :=
  match e with
  | EStarObserver k' t' m' _ => bool_decide (k' = key /\ t' = t /\ m' = m)
  | _ => false
  end.

Definition star_invocations (key : string) (t : option nat) (m : nat)
    (es : list Event) : nat :=
  length (filter (fun e => is_star_invocation key t m e = true) es).

(** The names of the members in which the mixin keeps its own state on
    the object, and which [St] holds in fields of their own rather than
    among the slots: [propertyRevision] and every name that begins with
    [_kvo_] ([_kvo_revision], [_kvo_changeLevel], [_kvo_changes], the
    observer sets [_kvo_observers_...] and the like). *)
Definition bookkeeping (k : string) : bool :=
  bool_decide (k = "propertyRevision") || String.prefix "_kvo_" k.

(** The state of the object between two calls: the registry is as [wf]
    says, no key is pending twice, and every key that has an observer is
    among the observed keys. *)
Definition settled (o : St) : Prop :=
  wf o /\
  NoDup (default [] (kvo_changes o)) /\
  map_Forall (fun k ms => ms <> [] -> k ∈ kvo_observed_keys o)
             (kvo_observers o).

(** What [get] and the first half of [set] do to the object: they write
    slots and log calls. *)
Definition same_registry (o o' : St) : Prop :=
  o' = with_trace (trace o') (with_slots (slots o') o).

(** *** Sequences of calls *)

Inductive Call :=
  | CallGet (key : string)
  | CallSet (key : string) (value : Val)
  | CallSetIfChanged (key : string) (value : Val)
  | CallBegin
  | CallEnd
  | CallNotifyPropertyChange (key : string)
  | CallAllPropertiesDidChange
  | CallAddObserver (key : string) (target : option nat) (method : nat)
  | CallRegisterDependentKey (key : string) (args : list DepArg).

(** One call; [None] when it asks for a chain observer. *)
Definition perform (c : Call) (o : St) : option St :=
  match c with
  | CallGet key => Some (get key o).1
  | CallSet key value => Some (set key value o)
  | CallSetIfChanged key value => Some (setIfChanged key value o)
  | CallBegin => Some (beginPropertyChanges o)
  | CallEnd => Some (endPropertyChanges o)
  | CallNotifyPropertyChange key => Some (notifyPropertyChange key VNull o)
  | CallAllPropertiesDidChange => Some (allPropertiesDidChange o)
  | CallAddObserver key target method => addObserver key target method o
  | CallRegisterDependentKey key args =>
      Some (registerDependentKey key args o)
  end.

Definition perform_all (cs : list Call) (o : St) : option St :=
  foldl (fun acc c => acc ≫= perform c) (Some o) cs.

(** [example_obj] with an observer on the computed property [P]. *)
Definition watched_obj : St :=
  with_observed_keys ["P"]
    (with_observers {[ "P" := [mkMember None 10%nat None] ]} example_obj).

(** [observed_obj] with an observer of every key. *)
Definition starred_obj : St :=
  with_observed_keys ["x"; "*"]
    (with_observers
       (<["*" := [mkMember (Some 4%nat) 12%nat None]]>
          (kvo_observers observed_obj))
       observed_obj).


(** ** Properties of the flush *)

(** The fields no part of the flush writes. *)
Definition kvo_frame (o o' : St) : Prop :=
  kvo_changeLevel o' = kvo_changeLevel o /\
  kvo_revision o' = kvo_revision o /\
  kvo_dependents o' = kvo_dependents o /\
  kvo_cachedDependents o' = kvo_cachedDependents o /\
  kvo_local o' = kvo_local o /\
  kvo_observed_keys o' = kvo_observed_keys o /\
  suspended o' = suspended o.

(** *** The change set and its dependents *)

Lemma set_add_spec k s :
  exists ext, set_add k s = s ++ ext /\ NoDup ext /\
              (forall x, x ∈ ext -> x = k /\ x ∉ s) /\ k ∈ set_add k s.
Proof.
  unfold set_add. case_bool_decide as E.
  - exists []. rewrite app_nil_r.
    split; [done|]. split; [apply NoDup_nil_2|]. split; [|done].
    by intros x ?%elem_of_nil.
  - exists [k]. split; [done|]. split; [apply NoDup_singleton|].
    split.
    + by intros x ->%list_elem_of_singleton.
    + apply elem_of_app. right. by apply list_elem_of_singleton.
Qed.

Lemma add_keys_fst keys cs o :
  (add_keys keys (cs, o)).1 = foldr set_add cs keys.
Proof.
  induction keys as [|k keys IH]; simpl; [done|].
  destruct (add_keys keys (cs, o)) as [cs' o']. simpl in *. by rewrite IH.
Qed.

Lemma foldr_set_add_spec keys s :
  exists ext, foldr set_add s keys = s ++ ext /\ NoDup ext /\
              (forall x, x ∈ ext -> x ∈ keys /\ x ∉ s) /\
              (forall x, x ∈ keys -> x ∈ foldr set_add s keys).
Proof.
  induction keys as [|k keys IH]; simpl.
  - exists []. rewrite app_nil_r.
    split; [done|]. split; [apply NoDup_nil_2|].
    split; by intros x ?%elem_of_nil.
  - destruct IH as (ext & E & Hnd & Hext & Hin).
    destruct (set_add_spec k (foldr set_add s keys))
      as (ext' & E' & Hnd' & Hext' & Hk).
    exists (ext ++ ext'). rewrite E', E, <- app_assoc.
    split; [done|]. split; [|split].
    + apply NoDup_app. split; [done|]. split; [|done].
      intros x Hx Hx'. destruct (Hext' x Hx') as [_ Hn].
      apply Hn. rewrite E. apply elem_of_app. by right.
    + intros x [Hx|Hx]%elem_of_app.
      * destruct (Hext x Hx). split; [by right|done].
      * destruct (Hext' x Hx) as [-> Hn]. split; [by left|].
        intros Hs. apply Hn. rewrite E. apply elem_of_app. by left.
    + intros x [->|Hx]%elem_of_cons.
      * rewrite app_assoc, <- E, <- E'. exact Hk.
      * rewrite app_assoc, <- E. apply elem_of_app. left. by apply Hin.
Qed.

Lemma add_dependents_only_slots fuel deps idx cs o :
  (add_dependents fuel deps idx cs o).2
  = with_slots (slots (add_dependents fuel deps idx cs o).2) o.
Proof.
  assert (forall k o0, clear_cache k o0
                       = with_slots (slots (clear_cache k o0)) o0) as Hc.
  { intros k o0. unfold clear_cache. destruct (slot o0 k);
      try by destruct o0. destruct (isCacheable f); by destruct o0. }
  assert (forall keys cs0 o0,
            (add_keys keys (cs0, o0)).2
            = with_slots (slots (add_keys keys (cs0, o0)).2) o0) as Hk.
  { intros keys cs0 o0. induction keys as [|k keys IH]; simpl.
    { by destruct o0. }
    destruct (add_keys keys (cs0, o0)) as [cs' o']. simpl in *.
    rewrite (Hc k o'). rewrite IH at 2. done. }
  revert idx cs o. induction fuel as [|fuel IH]; intros idx cs o; simpl.
  { by destruct o. }
  destruct (cs !! idx) as [key|]; [|by destruct o].
  specialize (Hk (default [] (deps !! key)) cs o).
  destruct (add_keys (default [] (deps !! key)) (cs, o)) as [cs' o'].
  simpl in Hk. rewrite (IH (S idx) cs' o'). rewrite Hk at 2. done.
Qed.

Lemma add_dependents_grows fuel deps idx cs o :
  exists ext, (add_dependents fuel deps idx cs o).1 = cs ++ ext /\
              (NoDup cs -> NoDup (cs ++ ext)).
Proof.
  revert idx cs o. induction fuel as [|fuel IH]; intros idx cs o; simpl.
  { exists []. by rewrite app_nil_r. }
  destruct (cs !! idx) as [key|]; [|exists []; by rewrite app_nil_r].
  pose proof (add_keys_fst (default [] (deps !! key)) cs o) as Hf.
  destruct (add_keys (default [] (deps !! key)) (cs, o)) as [cs' o'].
  simpl in Hf.
  destruct (foldr_set_add_spec (default [] (deps !! key)) cs)
    as (e1 & E1 & Hnd1 & Hext1 & _).
  destruct (IH (S idx) cs' o') as (e2 & E2 & Hnd2).
  exists (e1 ++ e2). rewrite E2, Hf, E1, <- app_assoc. split; [done|].
  intros Hnd. rewrite app_assoc, <- E1, <- Hf. apply Hnd2.
  rewrite Hf, E1. apply NoDup_app. split; [done|]. split; [|done].
  intros x Hx Hx'. by destruct (Hext1 x Hx').
Qed.

(** The fuel given to [add_dependents] is enough: the set it returns
    holds the dependents of every key it holds. *)
Lemma add_dependents_closed deps cs o key d :
  key ∈ (add_dependents (dependents_fuel deps cs) deps 0 cs o).1 ->
  d ∈ default [] (deps !! key) ->
  d ∈ (add_dependents (dependents_fuel deps cs) deps 0 cs o).1.
Proof.
  set (U := deps_range deps).
  assert (forall k ks x, deps !! k = Some ks -> x ∈ ks -> x ∈ U) as HU.
  { intros k ks x Hk Hx. unfold U, deps_range.
    apply list_elem_of_In, in_concat. exists ks.
    split; [|by apply list_elem_of_In].
    apply list_elem_of_In, list_elem_of_fmap. exists (k, ks).
    split; [done|]. by apply elem_of_map_to_list. }
  set (inv := fun c : list string =>
         exists ext, c = cs ++ ext /\ NoDup ext /\ forall x, x ∈ ext -> x ∈ U).
  set (done_upto := fun (n : nat) (c : list string) =>
         forall i k x, (i < n)%nat -> c !! i = Some k ->
                       x ∈ default [] (deps !! k) -> x ∈ c).
  assert (forall c, inv c -> (length c <= length cs + length U)%nat) as Hlen.
  { intros c (ext & -> & Hnd & Hsub). rewrite length_app.
    assert (length ext <= length U)%nat; [|lia].
    apply submseteq_length. by apply NoDup_submseteq. }
  assert (forall fuel idx c o0,
            inv c -> done_upto idx c -> (idx <= length c)%nat ->
            (length cs + length U < fuel + idx)%nat ->
            inv (add_dependents fuel deps idx c o0).1 /\
            done_upto (length (add_dependents fuel deps idx c o0).1)
                      (add_dependents fuel deps idx c o0).1) as Hmain.
  { induction fuel as [|fuel IH]; intros idx c o0 Hinv Hdone Hidx Hfuel.
    { specialize (Hlen c Hinv). simpl in *. lia. }
    simpl. destruct (c !! idx) as [k|] eqn:Ek.
    2:{ simpl. split; [done|]. apply lookup_ge_None in Ek.
        by replace (length c) with idx by lia. }
    pose proof (add_keys_fst (default [] (deps !! k)) c o0) as Hf.
    destruct (add_keys (default [] (deps !! k)) (c, o0)) as [c' o'].
    simpl in Hf.
    destruct (foldr_set_add_spec (default [] (deps !! k)) c)
      as (e1 & E1 & Hnd1 & Hext1 & Hin1).
    rewrite <- Hf in E1, Hin1.
    apply lookup_lt_Some in Ek as Hlt.
    apply IH.
    - destruct Hinv as (ext & -> & Hnd & Hsub).
      exists (ext ++ e1). rewrite E1, <- app_assoc. split; [done|].
      split.
      + apply NoDup_app. split; [done|]. split; [|done].
        intros x Hx Hx'. destruct (Hext1 x Hx') as [_ Hn].
        apply Hn. apply elem_of_app. by right.
      + intros x [Hx|Hx]%elem_of_app; [by apply Hsub|].
        destruct (Hext1 x Hx) as [Hx' _].
        destruct (deps !! k) as [ks|] eqn:Ed; simpl in Hx'.
        * by eapply HU.
        * by apply elem_of_nil in Hx'.
    - intros i k' x Hi Hk' Hx.
      destruct (decide (i = idx)) as [->|Hne].
      + rewrite E1, lookup_app_l in Hk' by done.
        rewrite Ek in Hk'. injection Hk' as <-. by apply Hin1.
      + rewrite E1, lookup_app_l in Hk' by lia.
        rewrite E1. apply elem_of_app. left.
        apply (Hdone i k' x); [lia|done|done].
    - rewrite E1, length_app. lia.
    - lia. }
  destruct (Hmain (dependents_fuel deps cs) 0%nat cs o) as [_ Hd].
  - exists []. rewrite app_nil_r. split; [done|]. split; [apply NoDup_nil_2|].
    by intros x ?%elem_of_nil.
  - intros i k x Hi. lia.
  - lia.
  - unfold dependents_fuel. fold U. lia.
  - intros [i Hi]%list_elem_of_lookup Hdep.
    apply (Hd i key d); [|done|done]. by apply lookup_lt_Some in Hi.
Qed.

(** *** Notifying the observers of one key *)

Lemma notify_members_fresh rev key ms :
  Forall (fun x => m_stamp x <> Some rev) ms ->
  notify_members rev key ms
  = ((fun x => mkMember (m_target x) (m_method x) (Some rev)) <$> ms,
     (fun x => EObserver key (m_target x) (m_method x) rev) <$> ms).
Proof.
  induction 1 as [|x ms Hx Hms IH]; simpl; [done|].
  rewrite IH. by rewrite bool_decide_eq_false_2.
Qed.

Lemma notify_members_stamps rev key ms :
  Forall (fun x => m_stamp x = Some rev) (notify_members rev key ms).1.
Proof.
  induction ms as [|x ms IH]; simpl; [constructor|].
  destruct (notify_members rev key ms) as [ms' es]. simpl in *.
  case_bool_decide; simpl; by constructor.
Qed.

Lemma notify_members_skips rev key ms :
  Forall (fun x => m_stamp x = Some rev) ms ->
  notify_members rev key ms = (ms, []).
Proof.
  induction 1 as [|x ms Hx Hms IH]; simpl; [done|].
  rewrite IH. by rewrite bool_decide_eq_true_2.
Qed.

Lemma notify_members_pairs rev key ms :
  pairs (notify_members rev key ms).1 = pairs ms.
Proof.
  unfold pairs. induction ms as [|x ms IH]; simpl; [done|].
  destruct (notify_members rev key ms) as [ms' es]. simpl in *.
  case_bool_decide; simpl; by f_equal.
Qed.

Lemma invocations_app key t m es1 es2 :
  invocations key t m (es1 ++ es2)
  = (invocations key t m es1 + invocations key t m es2)%nat.
Proof. unfold invocations. by rewrite filter_app, length_app. Qed.

Lemma invocations_none key t m es :
  Forall (fun e => is_invocation key t m e = false) es ->
  invocations key t m es = 0%nat.
Proof.
  unfold invocations. induction 1 as [|e es He Hes IH]; [done|].
  rewrite filter_cons. destruct (decide _) as [E|E]; [congruence|exact IH].
Qed.

(** A registered pair is invoked once when every member of the set is
    invoked once; an unregistered pair, or another key, not at all. *)
Lemma invocations_members rev key key' t m ms :
  NoDup (pairs ms) ->
  invocations key t m
    ((fun x => EObserver key' (m_target x) (m_method x) rev) <$> ms)
  = if bool_decide (key' = key /\ (t, m) ∈ pairs ms) then 1%nat else 0%nat.
Proof.
  unfold invocations, pairs. induction ms as [|x ms IH]; intros Hnd.
  { simpl. case_bool_decide as E; [|done]. destruct E as [_ E].
    by apply elem_of_nil in E. }
  rewrite !fmap_cons in *. apply NoDup_cons in Hnd as [Hx Hnd].
  rewrite filter_cons. specialize (IH Hnd). simpl.
  destruct (decide (key' = key /\ m_target x = t /\ m_method x = m))
    as [(-> & <- & <-)|Hne].
  - rewrite bool_decide_eq_true_2 by done.
    destruct (decide _) as [_|E]; [|done]. simpl. rewrite IH.
    rewrite bool_decide_eq_false_2 by (by intros [_ ?]).
    rewrite bool_decide_eq_true_2; [done|]. split; [done|by left].
  - rewrite bool_decide_eq_false_2 by done.
    destruct (decide _) as [E|_]; [done|]. rewrite IH.
    match goal with
    | |- (if bool_decide ?A then _ else _) = (if bool_decide ?B then _ else _)
      => assert (A <-> B) as Hiff
    end.
    { split.
      + intros [-> Hin]. split; [done|by right].
      + intros [-> [E|Hin]%elem_of_cons]; [|done].
        injection E as -> ->. by destruct Hne. }
    by rewrite (bool_decide_ext _ _ Hiff).
Qed.

Lemma notify_key_only rev k o :
  notify_key rev k o
  = with_trace (trace (notify_key rev k o))
      (with_observers (kvo_observers (notify_key rev k o)) o).
Proof.
  unfold notify_key.
  repeat match goal with
  | |- context [match ?x with _ => _ end] => destruct x
  end; by destruct o.
Qed.

Lemma notify_key_observers rev k o :
  kvo_observers (notify_key rev k o)
  = match kvo_observers o !! k with
    | Some ms => <[k := (notify_members rev k ms).1]> (kvo_observers o)
    | None => kvo_observers o
    end.
Proof.
  unfold notify_key.
  destruct (kvo_observers o !! k) as [ms|];
    [destruct (notify_members rev k ms) as [ms' es]|];
    repeat match goal with
    | |- context [match ?x with _ => _ end] => destruct x
    end; reflexivity.
Qed.

Lemma notify_key_invocations rev k o key t m :
  exists es,
    trace (notify_key rev k o) = trace o ++ es /\
    invocations key t m es
    = invocations key t m
        (match kvo_observers o !! k with
         | Some ms => (notify_members rev k ms).2
         | None => []
         end).
Proof.
  unfold notify_key. cbv zeta.
  set (o1 := match kvo_observers o !! k with Some _ => _ | None => _ end).
  set (es1 := match kvo_observers o !! k with
              | Some ms => (notify_members rev k ms).2 | None => [] end).
  assert (trace o1 = trace o ++ es1) as H1.
  { subst o1 es1. destruct (kvo_observers o !! k) as [ms|].
    - by destruct (notify_members rev k ms).
    - by rewrite app_nil_r. }
  set (o2 := match kvo_local o1 !! k with Some _ => _ | None => _ end).
  assert (exists es2, trace o2 = trace o1 ++ es2 /\
            Forall (fun e => is_invocation key t m e = false) es2)
    as (es2 & H2 & F2).
  { subst o2. destruct (kvo_local o1 !! k) as [names|].
    - eexists. split; [reflexivity|]. unfold notify_local.
      induction names as [|n names IH]; simpl; [constructor|].
      destruct (truthy (slot o1 n)); [by constructor|done].
    - exists []. by rewrite app_nil_r. }
  set (o3 := match kvo_observers o2 !! "*" with Some _ => _ | None => _ end).
  assert (exists es3, trace o3 = trace o2 ++ es3 /\
            Forall (fun e => is_invocation key t m e = false) es3)
    as (es3 & H3 & F3).
  { subst o3. destruct (kvo_observers o2 !! "*") as [stars|].
    - case_bool_decide.
      + exists []. by rewrite app_nil_r.
      + eexists. split; [reflexivity|].
        induction stars as [|x stars IH]; simpl; by constructor.
    - exists []. by rewrite app_nil_r. }
  destruct (truthy _).
  - exists (es1 ++ es2 ++ es3 ++ [EPropertyObserver k rev]). split.
    + simpl. rewrite H3, H2, H1. by rewrite <- !app_assoc.
    + assert (invocations key t m [EPropertyObserver k rev] = 0%nat) as E4.
      { apply invocations_none. by apply Forall_singleton. }
      rewrite !invocations_app, (invocations_none _ _ _ es2 F2),
        (invocations_none _ _ _ es3 F3), E4.
      lia.
  - exists (es1 ++ es2 ++ es3). split.
    + rewrite H3, H2, H1. by rewrite <- !app_assoc.
    + rewrite !invocations_app, (invocations_none _ _ _ es2 F2),
        (invocations_none _ _ _ es3 F3). lia.
Qed.

Lemma notify_members_other rev k key t m ms :
  k <> key -> invocations key t m (notify_members rev k ms).2 = 0%nat.
Proof.
  intros Hne. apply invocations_none.
  induction ms as [|x ms IH]; simpl; [constructor|].
  destruct (notify_members rev k ms) as [ms' es]. simpl in *.
  case_bool_decide; [done|]. constructor; [|done].
  simpl. apply bool_decide_eq_false_2. by intros [? _].
Qed.

Lemma notify_fold_only rev l o :
  foldl (fun acc k => notify_key rev k acc) o l
  = with_trace (trace (foldl (fun acc k => notify_key rev k acc) o l))
      (with_observers
         (kvo_observers (foldl (fun acc k => notify_key rev k acc) o l)) o).
Proof.
  revert o. induction l as [|k l IH]; intros o; simpl; [by destruct o|].
  rewrite IH at 1. rewrite (notify_key_only rev k o) at 3. done.
Qed.

Lemma notify_fold_notin rev l o key t m :
  key ∉ l ->
  exists es,
    trace (foldl (fun acc k => notify_key rev k acc) o l) = trace o ++ es /\
    invocations key t m es = 0%nat /\
    kvo_observers (foldl (fun acc k => notify_key rev k acc) o l) !! key
    = kvo_observers o !! key.
Proof.
  revert o. induction l as [|k l IH]; intros o Hnin; simpl.
  { exists []. by rewrite app_nil_r. }
  apply not_elem_of_cons in Hnin as [Hne Hnin].
  destruct (notify_key_invocations rev k o key t m) as (es1 & Ht1 & Hc1).
  destruct (IH (notify_key rev k o) Hnin) as (es2 & Ht2 & Hc2 & Ho2).
  exists (es1 ++ es2). split; [by rewrite Ht2, Ht1, app_assoc|]. split.
  - rewrite invocations_app, Hc1, Hc2.
    destruct (kvo_observers o !! k) as [ms|]; [|done].
    by rewrite notify_members_other.
  - rewrite Ho2, notify_key_observers.
    destruct (kvo_observers o !! k); [|done]. by rewrite lookup_insert_ne.
Qed.

Lemma notify_fold_in rev l o key t m ms :
  NoDup l -> key ∈ l ->
  kvo_observers o !! key = Some ms ->
  NoDup (pairs ms) -> Forall (fun x => m_stamp x <> Some rev) ms ->
  (t, m) ∈ pairs ms ->
  exists es,
    trace (foldl (fun acc k => notify_key rev k acc) o l) = trace o ++ es /\
    invocations key t m es = 1%nat.
Proof.
  revert o. induction l as [|k l IH]; intros o Hnd Hin Hms Hp Hst Htm.
  { by apply elem_of_nil in Hin. }
  simpl. apply NoDup_cons in Hnd as [Hk Hnd].
  destruct (notify_key_invocations rev k o key t m) as (es1 & Ht1 & Hc1).
  destruct (decide (k = key)) as [->|Hne].
  - destruct (notify_fold_notin rev l (notify_key rev key o) key t m Hk)
      as (es2 & Ht2 & Hc2 & _).
    exists (es1 ++ es2). split; [by rewrite Ht2, Ht1, app_assoc|].
    rewrite invocations_app, Hc1, Hc2, Hms, notify_members_fresh by done.
    simpl. rewrite invocations_members by done.
    by rewrite bool_decide_eq_true_2.
  - apply elem_of_cons in Hin as [->|Hin]; [done|].
    destruct (IH (notify_key rev k o)) as (es2 & Ht2 & Hc2); try done.
    { rewrite notify_key_observers.
      destruct (kvo_observers o !! k); [|done]. by rewrite lookup_insert_ne. }
    exists (es1 ++ es2). split; [by rewrite Ht2, Ht1, app_assoc|].
    rewrite invocations_app, Hc1, Hc2.
    destruct (kvo_observers o !! k) as [ms'|]; [|done].
    by rewrite notify_members_other.
Qed.

(** *** One round and the loop *)

Lemma flush_round_queue key o :
  kvo_changes (flush_round key o) = kvo_altChanges o /\
  kvo_altChanges (flush_round key o) = Some [] /\
  propertyRevision (flush_round key o) = propertyRevision o + 1.
Proof.
  unfold flush_round, notify_all. cbv zeta.
  set (o0 := with_altChanges None _).
  set (cs0 := match key with Some _ => _ | None => _ end).
  destruct (kvo_dependents o0) as [deps|].
  - pose proof (add_dependents_only_slots (dependents_fuel deps cs0) deps 0
                  cs0 o0) as Hs.
    destruct (add_dependents _ deps 0 cs0 o0) as [cs1 o1]. simpl in Hs.
    rewrite notify_fold_only, Hs. done.
  - rewrite notify_fold_only. done.
Qed.

(** Three rounds of fuel are enough: the loop stops because nothing is
    pending. *)
Lemma flush_loop_quiescent key o : pending (flush_loop 3 key o) = false.
Proof.
  simpl. destruct (pending o || key_truthy key) eqn:E0.
  2:{ by apply orb_false_iff in E0 as [-> _]. }
  destruct (flush_round_queue key o) as (Hc1 & Ha1 & _).
  set (o1 := flush_round key o) in *.
  rewrite orb_false_r. destruct (pending o1) eqn:E1; [|done].
  destruct (flush_round_queue None o1) as (Hc2 & _ & _).
  set (o2 := flush_round None o1) in *.
  assert (pending o2 = false) as E2.
  { unfold pending. by rewrite Hc2, Ha1. }
  by rewrite E2.
Qed.

Lemma flush_round_invocations o key t m ms cs :
  kvo_changes o = Some cs -> NoDup cs -> key ∈ cs ->
  kvo_observers o !! key = Some ms -> NoDup (pairs ms) ->
  Forall (stamp_before (propertyRevision o)) ms ->
  (t, m) ∈ pairs ms ->
  exists es,
    trace (flush_round None o) = trace o ++ es /\
    invocations key t m es = 1%nat.
Proof.
  intros Hcs Hnd Hin Hms Hp Hst Htm.
  assert (Forall (fun x => m_stamp x <> Some (propertyRevision o)) ms) as Hst'.
  { eapply Forall_impl; [exact Hst|]. intros x Hx E.
    unfold stamp_before in Hx. rewrite E in Hx. lia. }
  unfold flush_round, notify_all. cbv zeta.
  set (o0 := with_altChanges None _).
  change (default [] (kvo_changes (with_propertyRevision _ o)))
    with (default [] (kvo_changes o)).
  rewrite Hcs. simpl default.
  assert (exists cs1 o1,
            match kvo_dependents o0 with
            | Some deps =>
                add_dependents (dependents_fuel deps cs) deps 0 cs o0
            | None => (cs, o0)
            end = (cs1, o1) /\
            kvo_observers o1 = kvo_observers o /\ trace o1 = trace o /\
            NoDup cs1 /\ key ∈ cs1) as (cs1 & o1 & E & Ho & Ht & Hnd1 & Hin1).
  { destruct (kvo_dependents o0) as [deps|].
    - pose proof (add_dependents_only_slots (dependents_fuel deps cs) deps 0
                    cs o0) as Hs.
      destruct (add_dependents_grows (dependents_fuel deps cs) deps 0 cs o0)
        as (ext & Eg & Hg).
      destruct (add_dependents _ deps 0 cs o0) as [cs1 o1]. simpl in *.
      exists cs1, o1. split; [done|]. rewrite Hs. simpl.
      split; [done|]. split; [done|]. subst cs1. split; [by apply Hg|].
      apply elem_of_app. by left.
    - by exists cs, o0. }
  rewrite E.
  destruct (notify_fold_in (propertyRevision o) (reverse cs1) o1 key t m ms)
    as (es & Hes & Hc); try done.
  - by rewrite reverse_Permutation.
  - by apply elem_of_reverse.
  - by rewrite Ho.
  - exists es. simpl. by rewrite Hes, Ht.
Qed.

Lemma flush_pending_invocations o key t m ms cs :
  kvo_changes o = Some cs -> NoDup cs -> key ∈ cs ->
  kvo_altChanges o = None \/ kvo_altChanges o = Some [] ->
  kvo_observers o !! key = Some ms -> NoDup (pairs ms) ->
  Forall (stamp_before (propertyRevision o)) ms ->
  (t, m) ∈ pairs ms ->
  exists es,
    trace (_notifyPropertyObservers None o) = trace o ++ es /\
    invocations key t m es = 1%nat.
Proof.
  intros Hcs Hnd Hin Halt Hms Hp Hst Htm.
  unfold _notifyPropertyObservers. cbv zeta.
  set (o0 := with_changeLevel _ o).
  destruct (flush_round_invocations o0 key t m ms cs) as (es & Hes & Hc);
    try done.
  destruct (flush_round_queue None o0) as (Hq & _ & _).
  assert (pending o0 = true) as Hp0.
  { unfold pending. subst o0. simpl. rewrite Hcs.
    destruct cs; [by apply elem_of_nil in Hin|done]. }
  assert (pending (flush_round None o0) = false) as Hp1.
  { unfold pending. rewrite Hq. subst o0. simpl.
    by destruct Halt as [-> | ->]. }
  assert (flush_loop 3 None o0 = flush_round None o0) as ->.
  { simpl. by rewrite Hp0, Hp1. }
  exists es. by split.
Qed.

(** *** Inside a batch *)

Lemma set_add_elem k s x : x ∈ set_add k s <-> x = k \/ x ∈ s.
Proof.
  unfold set_add. case_bool_decide as E.
  - split; [by right|]. by intros [->|?].
  - rewrite elem_of_app, list_elem_of_singleton. tauto.
Qed.

Lemma set_add_NoDup k s : NoDup s -> NoDup (set_add k s).
Proof.
  intros Hnd. destruct (set_add_spec k s) as (ext & -> & Hext & Hx & _).
  apply NoDup_app. split; [done|]. split; [|done].
  intros x Hs He. by destruct (Hx x He).
Qed.

Lemma batched_same key o o' :
  kvo_changeLevel o' = kvo_changeLevel o ->
  kvo_observers o' = kvo_observers o ->
  propertyRevision o' = propertyRevision o ->
  kvo_altChanges o' = kvo_altChanges o ->
  trace o' = trace o ->
  kvo_changes o' = kvo_changes o ->
  batched key o o'.
Proof.
  intros ? ? ? ? Ht Hc. unfold batched. rewrite Hc.
  repeat split; try done; [|by right].
  exists []. by rewrite app_nil_r.
Qed.

Lemma batched_refl key o : batched key o o.
Proof. by apply batched_same. Qed.

Lemma batched_trans key o1 o2 o3 :
  batched key o1 o2 -> batched key o2 o3 -> batched key o1 o3.
Proof.
  intros (L1 & O1 & R1 & A1 & (e1 & T1 & F1) & C1 & N1)
         (L2 & O2 & R2 & A2 & (e2 & T2 & F2) & C2 & N2).
  unfold batched. repeat split; try congruence.
  - exists (e1 ++ e2). split; [by rewrite T2, T1, app_assoc|].
    by apply Forall_app.
  - intros x Hx. destruct (C2 x Hx) as [->|Hx2]; [by left|]. by apply C1.
  - auto.
Qed.

Lemma batched_log key es o :
  Forall (fun e => is_observer e = false) es -> batched key o (log es o).
Proof.
  intros F. unfold batched. repeat split; try done; [|by right].
  by exists es.
Qed.

Lemma batched_write key k v o : batched key o (write k v o).
Proof. by apply batched_same. Qed.

Lemma batched_propertyDidChange key o :
  0 < js_or (kvo_changeLevel o) 0 -> batched key o (propertyDidChange key o).
Proof.
  intros Hl. unfold propertyDidChange. cbv zeta.
  set (o1 := with_revision _ o).
  set (o2 := match slot o1 key with VFun _ => _ | _ => _ end).
  assert (batched key o o2) as H2.
  { apply batched_same; subst o2; destruct (slot o1 key); try done;
      by destruct (isCacheable f). }
  change (kvo_changeLevel o1) with (kvo_changeLevel o).
  apply Z.ltb_lt in Hl. rewrite Hl.
  eapply batched_trans; [exact H2|].
  unfold batched. simpl. repeat split; try done.
  - exists []. by rewrite app_nil_r.
  - intros x. apply set_add_elem.
  - apply set_add_NoDup.
Qed.

Lemma batched_clear_cached_dependents key k o :
  batched key o (clear_cached_dependents k o).
Proof.
  unfold clear_cached_dependents.
  destruct (kvo_cachedDependents o) as [cached|]; [|apply batched_refl].
  induction (default [] (cached !! k)) as [|g gs IH]; simpl.
  { apply batched_refl. }
  eapply batched_trans; [exact IH|].
  eapply batched_trans; apply batched_write.
Qed.

Lemma batched_notified key (notify : bool) o o1 :
  0 < js_or (kvo_changeLevel o) 0 -> batched key o o1 ->
  batched key o
    (if notify then propertyDidChange key (log [EDidChange key] o1) else o1).
Proof.
  intros Hl H1. destruct notify; [|done].
  eapply batched_trans; [exact H1|].
  eapply batched_trans; [apply (batched_log key [EDidChange key]);
                         by repeat constructor|].
  apply batched_propertyDidChange.
  destruct H1 as (L1 & _). simpl. by rewrite L1.
Qed.

Lemma batched_set key value o :
  0 < js_or (kvo_changeLevel o) 0 -> batched key o (set key value o).
Proof.
  intros Hl. unfold set. cbv zeta.
  eapply batched_trans; [|apply batched_clear_cached_dependents].
  set (notify := automaticallyNotifiesObserversFor key).
  assert (forall o0, batched key o0
            (if notify then log [EWillChange key] (propertyWillChange key o0)
             else o0)) as Hwill.
  { intros o0. destruct notify; [|apply batched_refl].
    apply batched_log. by repeat constructor. }
  assert (batched key o (set_plain notify key value o)) as Hplain.
  { unfold set_plain. case_bool_decide; [apply batched_refl|].
    apply batched_notified; [done|].
    eapply batched_trans; [apply Hwill|apply batched_write]. }
  unfold set_value. destruct (slot o key); try exact Hplain.
  - unfold set_unknown, unknownProperty. simpl.
    apply batched_notified; [done|].
    eapply batched_trans; [apply Hwill|].
    case_bool_decide; [apply batched_refl|apply batched_write].
  - destruct (isProperty f); [|exact Hplain].
    unfold set_computed, invoke.
    destruct (isVolatile f || _); [|apply batched_refl].
    apply batched_notified; [done|].
    eapply batched_trans; [apply batched_write|].
    eapply batched_trans; [apply Hwill|].
    eapply batched_trans;
      [apply (batched_log key [ECall (fn_id f) key value]);
       by repeat constructor|].
    destruct (isCacheable f); [apply batched_write|apply batched_refl].
Qed.

Lemma batched_sets key vs o :
  0 < js_or (kvo_changeLevel o) 0 ->
  batched key o (foldl (fun acc v => set key v acc) o vs).
Proof.
  revert o. induction vs as [|v vs IH]; intros o Hl; simpl.
  { apply batched_refl. }
  pose proof (batched_set key v o Hl) as H1.
  eapply batched_trans; [exact H1|]. apply IH.
  destruct H1 as (L1 & _). by rewrite L1.
Qed.

Lemma invocations_quiet key t m es :
  Forall (fun e => is_observer e = false) es ->
  invocations key t m es = 0%nat.
Proof.
  intros F. apply invocations_none. eapply Forall_impl; [exact F|].
  intros e He. by destruct e.
Qed.

Lemma kvo_frame_refl o : kvo_frame o o.
Proof. repeat split. Qed.

Lemma kvo_frame_trans o1 o2 o3 :
  kvo_frame o1 o2 -> kvo_frame o2 o3 -> kvo_frame o1 o3.
Proof.
  unfold kvo_frame. intros (?&?&?&?&?&?&?) (?&?&?&?&?&?&?).
  repeat split; congruence.
Qed.

Lemma clear_cache_frame k o : kvo_frame o (clear_cache k o).
Proof.
  unfold clear_cache. destruct (slot o k); try apply kvo_frame_refl.
  destruct (isCacheable f); repeat split.
Qed.

Lemma add_keys_frame keys cs o :
  kvo_frame o (add_keys keys (cs, o)).2.
Proof.
  induction keys as [|k keys IH]; simpl; [apply kvo_frame_refl|].
  destruct (add_keys keys (cs, o)) as [cs' o'] eqn:E. simpl in *.
  eapply kvo_frame_trans; [exact IH|apply clear_cache_frame].
Qed.

Lemma add_dependents_frame fuel deps idx cs o :
  kvo_frame o (add_dependents fuel deps idx cs o).2.
Proof.
  revert idx cs o. induction fuel as [|fuel IH]; intros idx cs o; simpl.
  { apply kvo_frame_refl. }
  destruct (cs !! idx) as [key|]; [|apply kvo_frame_refl].
  pose proof (add_keys_frame (default [] (deps !! key)) cs o) as Hk.
  destruct (add_keys (default [] (deps !! key)) (cs, o)) as [cs' o'].
  eapply kvo_frame_trans; [exact Hk|apply IH].
Qed.

Lemma notify_key_frame rev k o : kvo_frame o (notify_key rev k o).
Proof.
  unfold notify_key.
  repeat match goal with
  | |- context [match ?x with _ => _ end] => destruct x
  end; repeat split.
Qed.

Lemma notify_all_frame rev cs o : kvo_frame o (notify_all rev cs o).
Proof.
  unfold notify_all. generalize (reverse cs). intros l. revert o.
  induction l as [|k l IH]; intros o; simpl; [apply kvo_frame_refl|].
  eapply kvo_frame_trans; [apply notify_key_frame|apply IH].
Qed.

Lemma flush_round_frame key o : kvo_frame o (flush_round key o).
Proof.
  unfold flush_round. cbv zeta.
  set (o0 := with_altChanges None _).
  set (cs0 := match key with Some _ => _ | None => _ end).
  assert (kvo_frame o o0) as H0 by (repeat split).
  destruct (kvo_dependents o0) as [deps|].
  - pose proof (add_dependents_frame (dependents_fuel deps cs0) deps 0 cs0 o0)
      as Hf.
    destruct (add_dependents _ deps 0 cs0 o0) as [cs1 o1]. simpl in Hf.
    eapply kvo_frame_trans; [exact H0|].
    eapply kvo_frame_trans; [exact Hf|].
    eapply kvo_frame_trans; [apply notify_all_frame|]. repeat split.
  - eapply kvo_frame_trans; [exact H0|].
    eapply kvo_frame_trans; [apply notify_all_frame|]. repeat split.
Qed.

Lemma flush_loop_frame fuel key o : kvo_frame o (flush_loop fuel key o).
Proof.
  revert key o. induction fuel as [|fuel IH]; intros key o; simpl.
  { apply kvo_frame_refl. }
  destruct (pending o || key_truthy key); [|apply kvo_frame_refl].
  eapply kvo_frame_trans; [apply flush_round_frame|apply IH].
Qed.

Lemma flush_revision key o :
  kvo_revision (_notifyPropertyObservers key o) = kvo_revision o.
Proof.
  unfold _notifyPropertyObservers. cbv zeta.
  set (o0 := with_changeLevel _ o).
  destruct (flush_loop_frame 3 key o0) as (_ & H & _).
  change (kvo_revision (flush_loop 3 key o0) = kvo_revision o0).
  exact H.
Qed.

Lemma flush_level key o :
  kvo_changeLevel (_notifyPropertyObservers key o)
  = Some (js_or (Some (js_or (kvo_changeLevel o) 0 + 1)) 1 - 1).
Proof.
  unfold _notifyPropertyObservers. cbv zeta.
  set (o0 := with_changeLevel _ o).
  destruct (flush_loop_frame 3 key o0) as (H & _).
  change (Some (js_or (kvo_changeLevel (flush_loop 3 key o0)) 1 - 1)
          = Some (js_or (kvo_changeLevel o0) 1 - 1)).
  by rewrite H.
Qed.

Lemma js_or_zero x : js_or x 0 = default 0 x.
Proof.
  destruct x as [n|]; simpl; [|done].
  destruct (Z.eqb_spec n 0); congruence.
Qed.

Lemma propertyDidChange_kvo_revision key o :
  kvo_revision (propertyDidChange key o)
  = Some (js_or (kvo_revision o) 0 + 1).
Proof.
  unfold propertyDidChange. cbv zeta.
  set (o1 := with_revision _ o).
  set (o2 := match slot o1 key with VFun _ => _ | _ => _ end).
  assert (kvo_revision o2 = Some (js_or (kvo_revision o) 0 + 1)) as H2.
  { subst o2. destruct (slot o1 key); try done. by destruct (isCacheable f). }
  destruct (0 <? _); [exact H2|].
  destruct (suspended o2); [exact H2|].
  by rewrite flush_revision.
Qed.

(** C4.  Every call of [propertyDidChange(key)] raises [_kvo_revision] by
    exactly one, an unset counter counting as 0: when the key is only
    queued (change level above zero, or observing suspended), in which
    case it is then in the pending set, and when the change is flushed at
    once.  Observers are taken not to write the object. *)
Theorem propertyDidChange_revision_plus_one (key : string) (o : St) :
  revision (propertyDidChange key o) = revision o + 1 /\
  (queues o = true ->
     exists cs, kvo_changes (propertyDidChange key o) = Some cs /\ key ∈ cs).
Proof.
  split.
  - unfold revision. rewrite propertyDidChange_kvo_revision.
    by rewrite js_or_zero.
  - unfold queues, propertyDidChange. cbv zeta.
    set (o1 := with_revision _ o).
    set (o2 := match slot o1 key with VFun _ => _ | _ => _ end).
    change (kvo_changeLevel o1) with (kvo_changeLevel o).
    assert (suspended o2 = suspended o) as Hs.
    { subst o2.
      destruct (slot o1 key); try done. by destruct (isCacheable f). }
    rewrite Hs. intros Hq.
    assert (key ∈ set_add key (default [] (kvo_changes o2))) as Hin.
    { unfold set_add. case_bool_decide; [done|].
      apply elem_of_app. right. by apply list_elem_of_singleton. }
    destruct (0 <? js_or (kvo_changeLevel o) 0); [by eexists|].
    simpl in Hq. rewrite Hq. by eexists.
Qed.

Lemma level_begin o : level (beginPropertyChanges o) = js_or (kvo_changeLevel o) 0 + 1.
Proof. done. Qed.

Lemma level_flush key o :
  0 <= level o -> level (_notifyPropertyObservers key o) = level o.
Proof.
  unfold level. rewrite flush_level, js_or_zero. simpl.
  intros H. destruct (Z.eqb_spec (default 0 (kvo_changeLevel o) + 1) 0); lia.
Qed.

Lemma level_end o :
  level (endPropertyChanges o)
  = (if level o =? 0 then 0 else level o - 1).
Proof.
  unfold endPropertyChanges. cbv zeta.
  set (o1 := with_changeLevel _ o).
  assert (level o1 = if level o =? 0 then 0 else level o - 1) as H1.
  { unfold level. subst o1. simpl.
    destruct (kvo_changeLevel o) as [n|]; simpl; [|done].
    by destruct (n =? 0). }
  destruct ((default 0 (kvo_changeLevel o1) <=? 0) && pending o1) eqn:E;
    [|exact H1].
  clear E. unfold level at 1. rewrite flush_level, js_or_zero.
  fold (level o1). simpl.
  destruct (Z.eqb_spec (level o1 + 1) 0) as [E0|E0]; [|lia].
  destruct (Z.eqb_spec (level o) 0); lia.
Qed.

Lemma level_didChange key o :
  0 <= level o -> level (propertyDidChange key o) = level o.
Proof.
  intros H. unfold propertyDidChange. cbv zeta.
  set (o1 := with_revision _ o).
  set (o2 := match slot o1 key with VFun _ => _ | _ => _ end).
  assert (level o2 = level o) as H2.
  { subst o2. destruct (slot o1 key); try done. by destruct (isCacheable f). }
  destruct (0 <? _); [exact H2|].
  destruct (suspended o2); [exact H2|].
  rewrite level_flush; lia.
Qed.

Lemma level_step op o : 0 <= level o -> 0 <= level (step op o).
Proof.
  intros H. destruct op; simpl.
  - rewrite level_begin, js_or_zero. fold (level o). lia.
  - rewrite level_end. destruct (Z.eqb_spec (level o) 0); lia.
  - rewrite level_flush; lia.
  - rewrite level_didChange; lia.
Qed.

(** C9.  The change level never becomes negative: from a level that is not
    negative, no sequence of [beginPropertyChanges], [endPropertyChanges]
    and flushes (nor of [propertyDidChange]) makes it so; ending a batch at
    level zero or unset leaves zero; a flush returns the level it found. *)
Theorem changeLevel_never_negative (o : St) :
  0 <= level o ->
  (forall ops, 0 <= level (run ops o)) /\
  (level o = 0 -> level (endPropertyChanges o) = 0) /\
  (forall key, level (_notifyPropertyObservers key o) = level o).
Proof.
  intros H. split; [|split].
  - intros ops. revert o H. unfold run.
    induction ops as [|op ops IH]; intros o H; simpl; [done|].
    apply IH. by apply level_step.
  - intros H0. rewrite level_end. by rewrite H0.
  - intros key. by apply level_flush.
Qed.

(** *** The state between flushes is kept *)

Lemma notify_members_stamp_before rev key ms :
  Forall (stamp_before (rev + 1)) ms ->
  Forall (stamp_before (rev + 1)) (notify_members rev key ms).1.
Proof.
  induction 1 as [|x ms Hx Hms IH]; simpl; [constructor|].
  destruct (notify_members rev key ms) as [ms' es]. simpl in *.
  case_bool_decide; simpl; constructor; try done.
  unfold stamp_before. simpl. lia.
Qed.

Lemma stamp_before_mono rev rev' x :
  rev <= rev' -> stamp_before rev x -> stamp_before rev' x.
Proof. unfold stamp_before. destruct (m_stamp x); [lia|done]. Qed.

Lemma notify_fold_stamps rev l o :
  map_Forall (fun _ ms => NoDup (pairs ms) /\
                          Forall (stamp_before (rev + 1)) ms)
             (kvo_observers o) ->
  map_Forall (fun _ ms => NoDup (pairs ms) /\
                          Forall (stamp_before (rev + 1)) ms)
             (kvo_observers (foldl (fun acc k => notify_key rev k acc) o l)).
Proof.
  revert o. induction l as [|k l IH]; intros o H; simpl; [done|].
  apply IH. rewrite notify_key_observers.
  destruct (kvo_observers o !! k) as [ms|] eqn:E; [|done].
  apply map_Forall_insert_2; [|done].
  destruct (H k ms E) as [Hnd Hst]. split.
  - by rewrite notify_members_pairs.
  - by apply notify_members_stamp_before.
Qed.

Lemma wf_flush_round key o : wf_observers o -> wf (flush_round key o).
Proof.
  intros Hwf. split; [|right; apply flush_round_queue].
  unfold wf_observers.
  destruct (flush_round_queue key o) as (_ & _ & ->).
  assert (map_Forall (fun _ ms => NoDup (pairs ms) /\
                        Forall (stamp_before (propertyRevision o + 1)) ms)
            (kvo_observers o)) as Hw.
  { intros k ms E. destruct (Hwf k ms E) as [Hnd Hst]. split; [done|].
    eapply Forall_impl; [exact Hst|]. intros x. apply stamp_before_mono. lia. }
  unfold flush_round, notify_all. cbv zeta.
  set (o0 := with_altChanges None _).
  set (cs0 := match key with Some _ => _ | None => _ end).
  destruct (kvo_dependents o0) as [deps|].
  - pose proof (add_dependents_only_slots (dependents_fuel deps cs0) deps 0
                  cs0 o0) as Hs.
    destruct (add_dependents _ deps 0 cs0 o0) as [cs1 o1]. simpl in Hs.
    simpl. apply notify_fold_stamps. by rewrite Hs.
  - simpl. by apply notify_fold_stamps.
Qed.

Lemma wf_flush_loop fuel key o : wf o -> wf (flush_loop fuel key o).
Proof.
  revert key o. induction fuel as [|fuel IH]; intros key o Hwf; simpl.
  { done. }
  destruct (pending o || key_truthy key); [|done].
  apply IH. apply wf_flush_round. by destruct Hwf.
Qed.

Lemma wf_same o o' :
  kvo_observers o' = kvo_observers o ->
  propertyRevision o' = propertyRevision o ->
  kvo_altChanges o' = kvo_altChanges o ->
  wf o -> wf o'.
Proof. unfold wf, wf_observers. by intros -> -> ->. Qed.

Lemma wf_flush key o : wf o -> wf (_notifyPropertyObservers key o).
Proof.
  intros Hwf. unfold _notifyPropertyObservers. cbv zeta.
  set (o0 := with_changeLevel _ o).
  assert (wf (flush_loop 3 key o0)) as H.
  { apply wf_flush_loop. by apply (wf_same o o0). }
  by apply (wf_same (flush_loop 3 key o0)).
Qed.

Lemma wf_propertyDidChange key o : wf o -> wf (propertyDidChange key o).
Proof.
  intros Hwf. unfold propertyDidChange. cbv zeta.
  set (o1 := with_revision _ o).
  set (o2 := match slot o1 key with VFun _ => _ | _ => _ end).
  assert (wf o2) as H2.
  { apply (wf_same o); [| | |done]; subst o2; destruct (slot o1 key);
      try done; by destruct (isCacheable f). }
  destruct (0 <? _); [by apply (wf_same o2)|].
  destruct (suspended o2); [by apply (wf_same o2)|]. by apply wf_flush.
Qed.

Lemma wf_clear_cached_dependents key o :
  wf o -> wf (clear_cached_dependents key o).
Proof.
  intros Hwf. apply (wf_same o); [| | |done];
    unfold clear_cached_dependents;
    destruct (kvo_cachedDependents o) as [cached|]; try done;
    by induction (default [] (cached !! key)).
Qed.

(** The state between flushes is an invariant: [set] and the batching
    calls keep it, and a fresh object has it. *)
Lemma wf_set key value o : wf o -> wf (set key value o).
Proof.
  intros Hwf. unfold set. cbv zeta. apply wf_clear_cached_dependents.
  set (notify := automaticallyNotifiesObserversFor key).
  assert (forall o0 o1,
            wf o0 -> kvo_observers o1 = kvo_observers o0 ->
            propertyRevision o1 = propertyRevision o0 ->
            kvo_altChanges o1 = kvo_altChanges o0 ->
            wf (if notify then propertyDidChange key (log [EDidChange key] o1)
                else o1)) as Hfin.
  { intros o0 o1 H0 E1 E2 E3. assert (wf o1) by (by apply (wf_same o0)).
    destruct notify; [|done]. apply wf_propertyDidChange.
    by apply (wf_same o1). }
  assert (wf (set_plain notify key value o)) as Hplain.
  { unfold set_plain, propertyWillChange. case_bool_decide; [done|].
    apply (Hfin o); [done| | |]; by destruct notify. }
  unfold set_value. destruct (slot o key); try exact Hplain.
  - unfold set_unknown, propertyWillChange, unknownProperty. simpl.
    apply (Hfin o); [done| | |]; destruct notify; by case_bool_decide.
  - destruct (isProperty f); [|exact Hplain].
    unfold set_computed, propertyWillChange, invoke.
    destruct (isVolatile f || _); [|done].
    apply (Hfin o); [done| | |]; destruct notify; by destruct (isCacheable f).
Qed.

Lemma wf_step op o : wf o -> wf (step op o).
Proof.
  intros Hwf. destruct op; simpl.
  - by apply (wf_same o).
  - unfold endPropertyChanges. cbv zeta.
    set (o1 := with_changeLevel _ o).
    assert (wf o1) by (by apply (wf_same o)).
    destruct (_ && _); [by apply wf_flush|done].
  - by apply wf_flush.
  - by apply wf_propertyDidChange.
Qed.

Lemma wf_fresh : wf fresh.
Proof. split; [apply map_Forall_empty|by left]. Qed.

Lemma wf_addObserver key target method o o' :
  wf o -> addObserver key target method o = Some o' -> wf o'.
Proof.
  intros [Hwf Halt]. unfold addObserver.
  destruct (has_dot key); [done|]. intros [= <-]. cbv zeta.
  set (o1 := if _ && _ then _ else o).
  assert (kvo_observers o1 = kvo_observers o /\
          propertyRevision o1 = propertyRevision o /\
          kvo_altChanges o1 = kvo_altChanges o) as (Eo & Er & Ea).
  { subst o1. destruct (_ && _); [|done]. unfold get.
    destruct (slot o key); try done.
    destruct (isProperty f); [|done].
    destruct (isCacheable f); [|done].
    by destruct (slot o (cacheKey f)). }
  split; [|simpl; by rewrite Ea].
  unfold wf_observers. simpl. rewrite Er, Eo.
  apply map_Forall_insert_2; [|done].
  unfold observerSet_add. case_bool_decide as Hin.
  - destruct (kvo_observers o !! key) as [ms|] eqn:E; [by apply (Hwf key)|].
    by apply elem_of_nil in Hin.
  - destruct (kvo_observers o !! key) as [ms|] eqn:E; simpl in *.
    + destruct (Hwf key ms E) as [Hnd Hst]. split.
      * unfold pairs in *. rewrite fmap_app. apply NoDup_app.
        split; [done|]. split; [|apply NoDup_singleton].
        intros x Hx ->%list_elem_of_singleton. by apply Hin.
      * apply Forall_app. split; [done|]. by repeat constructor.
    + split; [apply NoDup_singleton|by repeat constructor].
Qed.

(** ** Properties of get and set *)

Lemma slot_write_eq k v o : slot (write k v o) k = v.
Proof. unfold slot, write. simpl. by rewrite lookup_insert_eq. Qed.

Lemma slot_write_ne k k' v o : k <> k' -> slot (write k v o) k' = slot o k'.
Proof. intros H. unfold slot, write. simpl. by rewrite lookup_insert_ne. Qed.

Lemma get_cacheable_miss key f o :
  slot o key = VFun f -> isProperty f = true -> isCacheable f = true ->
  slot o (cacheKey f) = VUndef ->
  get key o =
    (write (cacheKey f) (call_fn (fn_id f) o key VUndef)
           (log [ECall (fn_id f) key VUndef] o),
     call_fn (fn_id f) o key VUndef).
Proof. intros Hs Hp Hc Hu. unfold get. by rewrite Hs, Hp, Hc, Hu. Qed.

Lemma get_cacheable_hit key f o :
  slot o key = VFun f -> isProperty f = true -> isCacheable f = true ->
  slot o (cacheKey f) <> VUndef ->
  get key o = (o, slot o (cacheKey f)).
Proof.
  intros Hs Hp Hc Hu. unfold get. rewrite Hs, Hp, Hc.
  by destruct (slot o (cacheKey f)).
Qed.

(** C10.  A cacheable computed property whose function returns
    [undefined] is never cached by [get]: starting with an empty cache
    slot, each of [n] consecutive calls of [get(key)] invokes the function
    again, returns [undefined], and leaves the cache slot reading
    [undefined]. *)
Theorem get_never_caches_undefined (key : string) (f : FnDesc) (n : nat)
    (o : St) :
  slot o key = VFun f -> isProperty f = true -> isCacheable f = true ->
  cacheKey f <> key ->
  slot o (cacheKey f) = VUndef ->
  (forall o' v, call_fn (fn_id f) o' key v = VUndef) ->
  (gets key n o).2 = replicate n VUndef /\
  trace (gets key n o).1
    = trace o ++ replicate n (ECall (fn_id f) key VUndef) /\
  slot (gets key n o).1 (cacheKey f) = VUndef.
Proof.
  intros Hs Hp Hc Hne Hu Hret. revert o Hs Hu.
  induction n as [|n IH]; intros o Hs Hu; simpl.
  { by rewrite app_nil_r. }
  rewrite (get_cacheable_miss key f o Hs Hp Hc Hu), Hret.
  set (o1 := write (cacheKey f) VUndef (log [ECall (fn_id f) key VUndef] o)).
  assert (slot o1 key = VFun f) as Hs1.
  { subst o1. by rewrite slot_write_ne. }
  assert (slot o1 (cacheKey f) = VUndef) as Hu1.
  { subst o1. by rewrite slot_write_eq. }
  destruct (IH o1 Hs1 Hu1) as (Hr & Ht & Hk).
  destruct (gets key n o1) as [o2 rs]. simpl in *.
  split; [by rewrite Hr|]. split; [|done].
  rewrite Ht. subst o1. simpl. by rewrite <- app_assoc.
Qed.

Lemma slots_avoid_check key o :
  map_Forall (fun _ x => val_avoids key x) (slots o) -> slots_avoid key o.
Proof. intros H k g E. exact (H k (VFun g) E). Qed.

(** *** What set leaves alone *)

Section Stable.

Variable P : string.

Lemma stable_refl o : stable P o o.
Proof. by intros H. Qed.

Lemma stable_trans o1 o2 o3 :
  stable P o1 o2 -> stable P o2 o3 -> stable P o1 o3.
Proof.
  intros H12 H23 H1. destruct (H12 H1) as [H2 E2].
  destruct (H23 H2) as [H3 E3]. split; [done|congruence].
Qed.

Lemma stable_slots o o' : slots o' = slots o -> stable P o o'.
Proof.
  intros E H. unfold slots_avoid, slot. rewrite E. by split.
Qed.

Lemma stable_write k x o :
  k <> P -> val_avoids P x -> stable P o (write k x o).
Proof.
  intros Hk Hx H. split; [|by apply slot_write_ne].
  intros k' g. unfold write. simpl. rewrite lookup_insert.
  case_decide; [|by apply H].
  intros [= ->]. exact Hx.
Qed.

Lemma stable_clear_cache k o : stable P o (clear_cache k o).
Proof.
  unfold clear_cache, slot.
  destruct (slots o !! k) as [x|] eqn:E; simpl; [|apply stable_refl].
  destruct x; try apply stable_refl.
  destruct (isCacheable f); [|apply stable_refl].
  intros H. destruct (H k f E) as [Hc _]. by apply stable_write.
Qed.

Lemma stable_add_keys keys cs o : stable P o (add_keys keys (cs, o)).2.
Proof.
  induction keys as [|k keys IH]; simpl; [apply stable_refl|].
  destruct (add_keys keys (cs, o)) as [cs' o']. simpl in *.
  eapply stable_trans; [exact IH|apply stable_clear_cache].
Qed.

Lemma stable_add_dependents fuel deps idx cs o :
  stable P o (add_dependents fuel deps idx cs o).2.
Proof.
  revert idx cs o. induction fuel as [|fuel IH]; intros idx cs o; simpl.
  { apply stable_refl. }
  destruct (cs !! idx) as [key|]; [|apply stable_refl].
  pose proof (stable_add_keys (default [] (deps !! key)) cs o) as Hk.
  destruct (add_keys (default [] (deps !! key)) (cs, o)) as [cs' o'].
  eapply stable_trans; [exact Hk|apply IH].
Qed.

Lemma notify_key_slots rev k o : slots (notify_key rev k o) = slots o.
Proof.
  unfold notify_key.
  repeat match goal with
  | |- context [match ?x with _ => _ end] => destruct x
  end; reflexivity.
Qed.

Lemma notify_all_slots rev cs o : slots (notify_all rev cs o) = slots o.
Proof.
  unfold notify_all. generalize (reverse cs). intros l. revert o.
  induction l as [|k l IH]; intros o; simpl; [done|].
  by rewrite IH, notify_key_slots.
Qed.

Lemma stable_flush_round key o : stable P o (flush_round key o).
Proof.
  unfold flush_round. cbv zeta.
  set (o0 := with_altChanges None _).
  set (cs0 := match key with Some _ => _ | None => _ end).
  assert (stable P o o0) as H0 by (by apply stable_slots).
  destruct (kvo_dependents o0) as [deps|].
  - pose proof (stable_add_dependents (dependents_fuel deps cs0) deps 0 cs0 o0)
      as Hf.
    destruct (add_dependents _ deps 0 cs0 o0) as [cs1 o1]. simpl in Hf.
    eapply stable_trans; [exact H0|].
    eapply stable_trans; [exact Hf|].
    apply stable_slots. simpl. by rewrite notify_all_slots.
  - eapply stable_trans; [exact H0|].
    apply stable_slots. simpl. by rewrite notify_all_slots.
Qed.

Lemma stable_flush_loop fuel key o : stable P o (flush_loop fuel key o).
Proof.
  revert key o. induction fuel as [|fuel IH]; intros key o; simpl.
  { apply stable_refl. }
  destruct (pending o || key_truthy key); [|apply stable_refl].
  eapply stable_trans; [apply stable_flush_round|apply IH].
Qed.

Lemma stable_flush key o : stable P o (_notifyPropertyObservers key o).
Proof.
  unfold _notifyPropertyObservers. cbv zeta.
  set (o0 := with_changeLevel _ o).
  eapply stable_trans; [|eapply stable_trans].
  - apply (stable_slots o o0). reflexivity.
  - apply (stable_flush_loop 3 key o0).
  - by apply stable_slots.
Qed.

Lemma stable_propertyDidChange key o : stable P o (propertyDidChange key o).
Proof.
  unfold propertyDidChange. cbv zeta.
  set (o1 := with_revision _ o).
  set (o2 := match slot o1 key with VFun _ => _ | _ => _ end).
  assert (stable P o o2) as H2.
  { subst o2. unfold slot at 1.
    destruct (slots o1 !! key) as [x|] eqn:E; simpl;
      [|by apply stable_slots].
    destruct x; try (by apply stable_slots).
    destruct (isCacheable f); [|by apply stable_slots].
    intros H. destruct (H key f E) as [Hc Hl].
    assert (stable P o (write (cacheKey f) VUndef
                          (write (lastSetValueKey f) VUndef o1))) as Hst.
    { eapply stable_trans; [apply (stable_slots o o1); reflexivity|].
      eapply stable_trans; apply stable_write; done. }
    exact (Hst H). }
  destruct (0 <? _); [|destruct (suspended o2)].
  - eapply stable_trans; [exact H2|]. by apply stable_slots.
  - eapply stable_trans; [exact H2|]. by apply stable_slots.
  - eapply stable_trans; [exact H2|]. apply stable_flush.
Qed.

Lemma stable_set_plain notify key value o :
  key <> P -> val_avoids P value -> stable P o (set_plain notify key value o).
Proof.
  intros Hk Hv. unfold set_plain, propertyWillChange.
  case_bool_decide; [apply stable_refl|].
  destruct notify.
  - eapply stable_trans; [|apply stable_propertyDidChange].
    eapply stable_trans; [|by apply (stable_slots _ (log _ _))].
    eapply stable_trans; [|by apply stable_write].
    by apply stable_slots.
  - by apply stable_write.
Qed.

Lemma stable_set_unknown notify key value o :
  key <> P -> val_avoids P value ->
  stable P o (set_unknown notify key value o).
Proof.
  intros Hk Hv. unfold set_unknown, propertyWillChange, unknownProperty.
  assert (forall o0, stable P o0
            (if bool_decide (value = VUndef) then o0 else write key value o0))
    as Hu.
  { intros o0. case_bool_decide; [apply stable_refl|by apply stable_write]. }
  destruct notify; simpl.
  - eapply stable_trans; [|apply stable_propertyDidChange].
    eapply stable_trans; [|by apply (stable_slots _ (log _ _))].
    eapply stable_trans; [|apply Hu].
    by apply stable_slots.
  - apply Hu.
Qed.

Hypothesis call_fn_avoids : forall id o k x, val_avoids P (call_fn id o k x).

Lemma stable_set_computed notify f key value o :
  slots o !! key = Some (VFun f) -> val_avoids P value ->
  stable P o (set_computed notify f key value o).
Proof.
  intros Hs Hv H. destruct (H key f Hs) as [Hc Hl]. revert H.
  change (stable P o (set_computed notify f key value o)).
  unfold set_computed, propertyWillChange, invoke.
  destruct (isVolatile f || _); [|apply stable_refl].
  set (o1 := write (lastSetValueKey f) value o).
  assert (stable P o o1) as H1 by (by apply stable_write).
  set (o2 := if notify then log [EWillChange key] o1 else o1).
  assert (stable P o1 o2) as H2.
  { subst o2. destruct notify; [by apply stable_slots|apply stable_refl]. }
  set (ret := call_fn (fn_id f) o2 key value).
  set (o3 := log [ECall (fn_id f) key value] o2).
  assert (stable P o2 o3) as H3 by (by apply stable_slots).
  set (o4 := if isCacheable f then write (cacheKey f) ret o3 else o3).
  assert (stable P o3 o4) as H4.
  { subst o4. destruct (isCacheable f); [|apply stable_refl].
    apply stable_write; [done|apply call_fn_avoids]. }
  assert (stable P o o4) as H04.
  { eapply stable_trans; [exact H1|]. eapply stable_trans; [exact H2|].
    eapply stable_trans; [exact H3|exact H4]. }
  destruct notify; [|exact H04].
  eapply stable_trans; [exact H04|].
  eapply stable_trans; [|apply stable_propertyDidChange].
  by apply stable_slots.
Qed.

Lemma stable_clear_cached_dependents key o :
  (forall g, g ∈ cached_dependents o key -> avoids P g) ->
  stable P o (clear_cached_dependents key o).
Proof.
  unfold cached_dependents, clear_cached_dependents.
  destruct (kvo_cachedDependents o) as [cached|]; [|intros; apply stable_refl].
  induction (default [] (cached !! key)) as [|g gs IH]; intros Hg; simpl.
  { apply stable_refl. }
  destruct (Hg g) as [Hc Hl]; [by left|].
  eapply stable_trans; [apply IH; intros; apply Hg; by right|].
  eapply stable_trans; by apply stable_write.
Qed.

Lemma stable_set_value notify key value f o :
  slot o P = VFun f -> isProperty f = true -> val_avoids P value ->
  stable P o (set_value notify key value o).
Proof.
  intros HP Hp Hv. unfold set_value.
  assert (forall k g, slot o k = VFun g -> slots o !! k = Some (VFun g))
    as Hlk.
  { intros k g. unfold slot.
    destruct (slots o !! k) as [x|]; simpl; [by intros ->|done]. }
  destruct (decide (key = P)) as [->|Hk].
  - rewrite HP, Hp. apply stable_set_computed; [by apply Hlk|done].
  - destruct (slot o key) eqn:E;
      try (by apply stable_set_plain); [by apply stable_set_unknown|].
    destruct (isProperty f0); [|by apply stable_set_plain].
    apply stable_set_computed; [by apply Hlk|done].
Qed.

End Stable.

Lemma propertyDidChange_cachedDependents key o :
  kvo_cachedDependents (propertyDidChange key o) = kvo_cachedDependents o.
Proof.
  unfold propertyDidChange. cbv zeta.
  set (o1 := with_revision _ o).
  set (o2 := match slot o1 key with VFun _ => _ | _ => _ end).
  assert (kvo_cachedDependents o2 = kvo_cachedDependents o) as H2.
  { subst o2. destruct (slot o1 key); try done. by destruct (isCacheable f). }
  destruct (0 <? _); [exact H2|].
  destruct (suspended o2); [exact H2|].
  unfold _notifyPropertyObservers. cbv zeta.
  set (o3 := with_changeLevel _ o2).
  destruct (flush_loop_frame 3 (Some key) o3) as (_ & _ & _ & H & _).
  change (kvo_cachedDependents (flush_loop 3 (Some key) o3)
          = kvo_cachedDependents o).
  by rewrite H.
Qed.

Lemma set_value_cachedDependents notify key value o :
  kvo_cachedDependents (set_value notify key value o)
  = kvo_cachedDependents o.
Proof.
  assert (forall v, kvo_cachedDependents (set_plain notify key v o)
                    = kvo_cachedDependents o) as Hplain.
  { intros v. unfold set_plain, propertyWillChange.
    case_bool_decide; [done|].
    destruct notify; [|done]. by rewrite propertyDidChange_cachedDependents. }
  unfold set_value. destruct (slot o key); try apply Hplain.
  - unfold set_unknown, propertyWillChange, unknownProperty.
    destruct notify; simpl.
    + rewrite propertyDidChange_cachedDependents. simpl.
      by case_bool_decide.
    + by case_bool_decide.
  - destruct (isProperty f); [|apply Hplain].
    unfold set_computed, propertyWillChange, invoke.
    destruct (isVolatile f || _); [|done].
    destruct notify.
    + rewrite propertyDidChange_cachedDependents. simpl.
      by destruct (isCacheable f).
    + by destruct (isCacheable f).
Qed.

Lemma clear_cached_dependents_clears key o g :
  g ∈ cached_dependents o key ->
  slot (clear_cached_dependents key o) (cacheKey g) = VUndef /\
  slot (clear_cached_dependents key o) (lastSetValueKey g) = VUndef.
Proof.
  unfold cached_dependents, clear_cached_dependents.
  destruct (kvo_cachedDependents o) as [cached|]; [|by intros ?%elem_of_nil].
  induction (default [] (cached !! key)) as [|h gs IH]; simpl.
  { by intros ?%elem_of_nil. }
  assert (forall x acc,
            x = cacheKey h \/ x = lastSetValueKey h ->
            slot (write (cacheKey h) VUndef
                    (write (lastSetValueKey h) VUndef acc)) x = VUndef)
    as Hw.
  { intros x acc Hx. destruct (decide (cacheKey h = x)) as [<-|Hne].
    - apply slot_write_eq.
    - rewrite slot_write_ne by done. destruct Hx as [->| ->]; [done|].
      apply slot_write_eq. }
  assert (forall x acc,
            slot acc x = VUndef ->
            slot (write (cacheKey h) VUndef
                    (write (lastSetValueKey h) VUndef acc)) x = VUndef)
    as Hk.
  { intros x acc Hx. destruct (decide (cacheKey h = x)) as [<-|Hne].
    - apply slot_write_eq.
    - rewrite slot_write_ne by done.
      destruct (decide (lastSetValueKey h = x)) as [<-|Hne'].
      + apply slot_write_eq.
      + by rewrite slot_write_ne. }
  intros [->|Hin]%elem_of_cons.
  - split; apply Hw; auto.
  - destruct (IH Hin). split; by apply Hk.
Qed.

Lemma registerDependentKey_fold key args o :
  registerDependentKey key args o
  = foldr (register_one key)
          (with_dependents (Some (default ∅ (kvo_dependents o))) o)
          (dep_keys args).
Proof.
  unfold registerDependentKey, dep_keys. cbv zeta.
  induction args as [|arg args IH]; [done|].
  rewrite fmap_cons. cbn [concat foldr]. rewrite foldr_app, IH.
  by destruct arg.
Qed.

Lemma register_one_slots key d o : slots (register_one key d o) = slots o.
Proof.
  unfold register_one. cbv zeta.
  match goal with |- context [slot ?x key] => destruct (slot x key) end;
    try done.
  by destruct (isCacheable f).
Qed.

Lemma register_one_cached_mono key d o B g :
  g ∈ cached_dependents o B -> g ∈ cached_dependents (register_one key d o) B.
Proof.
  unfold register_one, cached_dependents. cbv zeta.
  match goal with |- context [slot ?x key] => destruct (slot x key) end;
    try done.
  destruct (isCacheable f); [|done]. simpl.
  intros Hg. rewrite lookup_insert. case_decide as E; [|].
  - subst d. simpl. apply elem_of_app. left.
    by destruct (kvo_cachedDependents o).
  - by destruct (kvo_cachedDependents o).
Qed.

Lemma register_one_cached key B f o :
  slot o key = VFun f -> isCacheable f = true ->
  f ∈ cached_dependents (register_one key B o) B.
Proof.
  intros Hs Hc. unfold register_one, cached_dependents. cbv zeta.
  match goal with
  | |- context [slot ?x key] => change (slot x key) with (slot o key)
  end.
  rewrite Hs, Hc. simpl. rewrite lookup_insert_eq. simpl.
  apply elem_of_app. right. by apply list_elem_of_singleton.
Qed.

(** [registerDependentKey(P, ...)] with [B] among the base keys puts the
    cacheable function held under [P] among the cached dependents of [B]. *)
Lemma registerDependentKey_cached key args B f o :
  slot o key = VFun f -> isCacheable f = true -> B ∈ dep_keys args ->
  f ∈ cached_dependents (registerDependentKey key args o) B.
Proof.
  intros Hs Hc. rewrite registerDependentKey_fold.
  set (o0 := with_dependents _ o).
  assert (slots o0 = slots o) as E0 by done.
  induction (dep_keys args) as [|d ds IH]; simpl.
  { by intros ?%elem_of_nil. }
  assert (slots (foldr (register_one key) o0 ds) = slots o) as Es.
  { clear IH. induction ds as [|d' ds IH']; simpl; [done|].
    by rewrite register_one_slots. }
  intros [->|Hin]%elem_of_cons.
  - apply register_one_cached; [|done]. unfold slot in *. by rewrite Es.
  - apply register_one_cached_mono. by apply IH.
Qed.

(** *** What set logs *)

Lemma extends_refl o : extends o o.
Proof. exists []. by rewrite app_nil_r. Qed.

Lemma extends_trans o1 o2 o3 : extends o1 o2 -> extends o2 o3 -> extends o1 o3.
Proof.
  intros [e1 H1] [e2 H2]. exists (e1 ++ e2). by rewrite H2, H1, app_assoc.
Qed.

Lemma extends_trace o o' : trace o' = trace o -> extends o o'.
Proof. intros H. exists []. by rewrite app_nil_r. Qed.

Lemma extends_log es o : extends o (log es o).
Proof. by exists es. Qed.

Lemma clear_cache_trace k o : trace (clear_cache k o) = trace o.
Proof.
  unfold clear_cache. destruct (slot o k); try done.
  by destruct (isCacheable f).
Qed.

Lemma add_keys_trace keys cs o : trace (add_keys keys (cs, o)).2 = trace o.
Proof.
  induction keys as [|k keys IH]; simpl; [done|].
  destruct (add_keys keys (cs, o)) as [cs' o']. simpl in *.
  by rewrite clear_cache_trace.
Qed.

Lemma add_dependents_trace fuel deps idx cs o :
  trace (add_dependents fuel deps idx cs o).2 = trace o.
Proof.
  revert idx cs o. induction fuel as [|fuel IH]; intros idx cs o; simpl.
  { done. }
  destruct (cs !! idx) as [key|]; [|done].
  pose proof (add_keys_trace (default [] (deps !! key)) cs o) as Hk.
  destruct (add_keys (default [] (deps !! key)) (cs, o)) as [cs' o'].
  simpl in Hk. by rewrite IH.
Qed.

Lemma extends_notify_key rev k o : extends o (notify_key rev k o).
Proof.
  unfold notify_key. cbv zeta.
  set (o1 := match kvo_observers o !! k with Some _ => _ | None => _ end).
  assert (extends o o1) as H1.
  { subst o1. destruct (kvo_observers o !! k) as [ms|];
      [|apply extends_refl].
    destruct (notify_members rev k ms) as [ms' es]. by exists es. }
  set (o2 := match kvo_local o1 !! k with Some _ => _ | None => _ end).
  assert (extends o1 o2) as H2.
  { subst o2. destruct (kvo_local o1 !! k);
      [apply extends_log|apply extends_refl]. }
  set (o3 := match kvo_observers o2 !! "*" with Some _ => _ | None => _ end).
  assert (extends o2 o3) as H3.
  { subst o3. destruct (kvo_observers o2 !! "*"); [|apply extends_refl].
    case_bool_decide; [apply extends_refl|apply extends_log]. }
  eapply extends_trans; [exact H1|]. eapply extends_trans; [exact H2|].
  eapply extends_trans; [exact H3|].
  destruct (truthy _); [apply extends_log|apply extends_refl].
Qed.

Lemma extends_notify_all rev cs o : extends o (notify_all rev cs o).
Proof.
  unfold notify_all. generalize (reverse cs). intros l. revert o.
  induction l as [|k l IH]; intros o; simpl; [apply extends_refl|].
  eapply extends_trans; [apply extends_notify_key|apply IH].
Qed.

Lemma extends_flush_round key o : extends o (flush_round key o).
Proof.
  unfold flush_round. cbv zeta.
  set (o0 := with_altChanges None _).
  set (cs0 := match key with Some _ => _ | None => _ end).
  assert (extends o o0) as H0 by (by apply extends_trace).
  destruct (kvo_dependents o0) as [deps|].
  - pose proof (add_dependents_trace (dependents_fuel deps cs0) deps 0 cs0 o0)
      as Hf.
    destruct (add_dependents _ deps 0 cs0 o0) as [cs1 o1]. simpl in Hf.
    eapply extends_trans; [exact H0|].
    eapply extends_trans; [by apply (extends_trace o0 o1)|].
    eapply extends_trans; [apply extends_notify_all|].
    by apply extends_trace.
  - eapply extends_trans; [exact H0|].
    eapply extends_trans; [apply extends_notify_all|].
    by apply extends_trace.
Qed.

Lemma extends_flush_loop fuel key o : extends o (flush_loop fuel key o).
Proof.
  revert key o. induction fuel as [|fuel IH]; intros key o; simpl.
  { apply extends_refl. }
  destruct (pending o || key_truthy key); [|apply extends_refl].
  eapply extends_trans; [apply extends_flush_round|apply IH].
Qed.

Lemma extends_flush key o : extends o (_notifyPropertyObservers key o).
Proof.
  unfold _notifyPropertyObservers. cbv zeta.
  set (o0 := with_changeLevel _ o).
  eapply extends_trans; [|eapply extends_trans].
  - by apply (extends_trace o o0).
  - apply (extends_flush_loop 3 key o0).
  - by apply extends_trace.
Qed.

Lemma extends_propertyDidChange key o : extends o (propertyDidChange key o).
Proof.
  unfold propertyDidChange. cbv zeta.
  set (o1 := with_revision _ o).
  set (o2 := match slot o1 key with VFun _ => _ | _ => _ end).
  assert (extends o o2) as H2.
  { apply extends_trace. subst o2.
    destruct (slot o1 key); try done. by destruct (isCacheable f). }
  destruct (0 <? _); [|destruct (suspended o2)].
  - eapply extends_trans; [exact H2|]. by apply extends_trace.
  - eapply extends_trans; [exact H2|].
    eapply extends_trans; [|apply extends_log]. by apply extends_trace.
  - eapply extends_trans; [exact H2|]. apply extends_flush.
Qed.

Lemma clear_cached_dependents_trace key o :
  trace (clear_cached_dependents key o) = trace o.
Proof.
  unfold clear_cached_dependents.
  destruct (kvo_cachedDependents o) as [cached|]; [|done].
  by induction (default [] (cached !! key)) as [|g gs IH].
Qed.

Lemma clear_cached_dependents_other key o x :
  (forall g, g ∈ cached_dependents o key -> avoids x g) ->
  slot (clear_cached_dependents key o) x = slot o x.
Proof.
  unfold cached_dependents, clear_cached_dependents.
  destruct (kvo_cachedDependents o) as [cached|]; [|done].
  induction (default [] (cached !! key)) as [|g gs IH]; intros Hg; simpl.
  { done. }
  destruct (Hg g) as [Hc Hl]; [by left|].
  rewrite !slot_write_ne by done. apply IH. intros; apply Hg; by right.
Qed.

(** C2 (amended).  Let [P] be a cacheable computed property whose
    descriptor is among the cached dependents of the base key [B] (as
    [registerDependentKey] records it), with no other descriptor using [P]
    as a cache or last-set-value key.  Right after [set(B, v)] the cache
    slot and the last-set-value slot of [P] read [undefined]; the next
    [get(P)] invokes the function of [P] and stores its result [r]; and if
    [r] is not [undefined], every later [get(P)] returns [r] and leaves the
    object, and hence the log of invocations, as it is. *)
Theorem cached_dependent_recomputed_then_cached (P B : string)
    (f : FnDesc) (v : Val) (o : St) :
  slot o P = VFun f -> isProperty f = true -> isCacheable f = true ->
  f ∈ cached_dependents o B ->
  slots_avoid P o ->
  (forall g, g ∈ cached_dependents o B -> avoids P g) ->
  val_avoids P v ->
  (forall id o' k x, val_avoids P (call_fn id o' k x)) ->
  let o1 := set B v o in
  let r := call_fn (fn_id f) o1 P VUndef in
  slot o1 (cacheKey f) = VUndef /\
  slot o1 (lastSetValueKey f) = VUndef /\
  get P o1 = (write (cacheKey f) r (log [ECall (fn_id f) P VUndef] o1), r) /\
  (r <> VUndef ->
   forall n, gets P n (get P o1).1 = ((get P o1).1, replicate n r)).
Proof.
  intros HP Hp Hc Hin Hav Hcd Hv Hcall o1 r.
  set (o0 := set_value (automaticallyNotifiesObserversFor B) B v o).
  assert (cached_dependents o0 B = cached_dependents o B) as Ecd.
  { unfold cached_dependents. subst o0.
    by rewrite set_value_cachedDependents. }
  assert (o1 = clear_cached_dependents B o0) as E1 by done.
  destruct (clear_cached_dependents_clears B o0 f) as [Hck Hlk].
  { by rewrite Ecd. }
  rewrite <- E1 in Hck, Hlk.
  assert (stable P o o1) as Hst.
  { rewrite E1. apply (stable_trans P o o0).
    - by apply (stable_set_value P Hcall _ B v f o).
    - apply stable_clear_cached_dependents. by rewrite Ecd. }
  destruct (Hst Hav) as [Hav1 HP1]. rewrite HP in HP1.
  assert (get P o1
          = (write (cacheKey f) r (log [ECall (fn_id f) P VUndef] o1), r))
    as Hget by (by apply get_cacheable_miss).
  split; [done|]. split; [done|]. split; [done|].
  intros Hr n. rewrite Hget. simpl.
  set (o2 := write (cacheKey f) r (log [ECall (fn_id f) P VUndef] o1)).
  assert (cacheKey f <> P) as Hne.
  { apply (Hav P f). unfold slot in HP.
    destruct (slots o !! P) as [x|]; simpl in HP; congruence. }
  assert (get P o2 = (o2, r)) as Hhit.
  { rewrite (get_cacheable_hit P f o2).
    - subst o2. by rewrite slot_write_eq.
    - subst o2. by rewrite slot_write_ne.
    - done.
    - done.
    - subst o2. by rewrite slot_write_eq. }
  induction n as [|n IH]; simpl; [done|].
  by rewrite Hhit, IH.
Qed.

(** C7 (amended).  On a computed property, [set(key, value)] invokes the
    function exactly when the descriptor is volatile or [value] differs
    from what the last-set-value slot currently holds.  When it invokes,
    the function runs on the object with [value] already recorded in that
    slot, and the invocation is bracketed by [propertyWillChange] and
    [propertyDidChange] unless notification is suppressed for the key; with
    notification suppressed (and no key collision) the slot still holds
    [value] when [set] returns, and the cache slot of a cacheable
    descriptor holds the result.  When it does not invoke, nothing is
    logged: no invocation, no notification. *)
Theorem set_computed_property (key : string) (f : FnDesc) (value : Val)
    (o : St) :
  slot o key = VFun f -> isProperty f = true ->
  let notify := automaticallyNotifiesObserversFor key in
  let o' := set key value o in
  let recorded := write (lastSetValueKey f) value o in
  let o_call := if notify then log [EWillChange key] recorded else recorded in
  let ret := call_fn (fn_id f) o_call key value in
  if isVolatile f || negb (bool_decide (slot o (lastSetValueKey f) = value))
  then
    slot o_call (lastSetValueKey f) = value /\
    (exists rest,
       trace o' = trace o ++
         (if notify
          then EWillChange key :: ECall (fn_id f) key value
               :: EDidChange key :: rest
          else [ECall (fn_id f) key value])) /\
    (notify = false ->
     cacheKey f <> lastSetValueKey f ->
     (forall g, g ∈ cached_dependents o key ->
                avoids (lastSetValueKey f) g /\ avoids (cacheKey f) g) ->
     slot o' (lastSetValueKey f) = value /\
     (isCacheable f = true -> slot o' (cacheKey f) = ret))
  else o' = clear_cached_dependents key o /\ trace o' = trace o.
Proof.
  intros Hs Hp notify o' recorded o_call ret.
  subst o'. unfold set, set_value. cbv zeta. rewrite Hs, Hp.
  fold notify. unfold set_computed, invoke, propertyWillChange.
  destruct (isVolatile f || _).
  - fold recorded. fold o_call. fold ret.
    set (o3 := log [ECall (fn_id f) key value] o_call).
    set (o4 := if isCacheable f then write (cacheKey f) ret o3 else o3).
    assert (slot o_call (lastSetValueKey f) = value) as Hrec.
    { subst o_call recorded.
      destruct notify; apply slot_write_eq. }
    assert (trace o4 = trace o_call ++ [ECall (fn_id f) key value]) as Ht4.
    { subst o4 o3. by destruct (isCacheable f). }
    split; [exact Hrec|]. split.
    + rewrite clear_cached_dependents_trace.
      destruct notify eqn:En.
      * destruct (extends_propertyDidChange key (log [EDidChange key] o4))
          as [rest Hrest].
        exists rest. rewrite Hrest. simpl. rewrite Ht4.
        subst o_call recorded. simpl. by rewrite <- !app_assoc.
      * exists []. rewrite Ht4. by subst o_call recorded.
    + intros -> Hne Hcd.
      assert (cached_dependents o4 key = cached_dependents o key) as Ecd.
      { subst o4 o3 o_call recorded. unfold cached_dependents.
        by destruct (isCacheable f). }
      split.
      * rewrite clear_cached_dependents_other
          by (intros g Hg; apply Hcd; by rewrite <- Ecd).
        subst o4 o3. destruct (isCacheable f); [|exact Hrec].
        by rewrite slot_write_ne.
      * intros Hc.
        rewrite clear_cached_dependents_other
          by (intros g Hg; apply Hcd; by rewrite <- Ecd).
        subst o4. rewrite Hc. apply slot_write_eq.
  - split; [done|]. apply clear_cached_dependents_trace.
Qed.

(** C1.  Take an object between flushes (registrations unique per key and
    stamped with older revisions, spare change set empty) at change level
    zero with nothing pending, and run
    [beginPropertyChanges(); set(key, v1); ...; set(key, vn)].  No
    observer is invoked inside the batch, and when the matching
    [endPropertyChanges()] flushes (the set calls left something pending),
    every observer registered on [key] is invoked exactly once, however
    many values were set.  A registration already stamped with the flush
    revision is skipped: notifying the members of a key a second time under
    the same revision invokes nobody.  Observers and property functions are
    taken not to write the object. *)
Theorem batch_notifies_each_observer_once (key : string) (vs : list Val)
    (t : option nat) (m : nat) (ms : list Member) (o : St) :
  wf o -> level o = 0 -> pending o = false ->
  kvo_observers o !! key = Some ms -> (t, m) ∈ pairs ms ->
  pending (batch key vs o) = true ->
  (exists es,
     trace (endPropertyChanges (batch key vs o))
     = trace (batch key vs o) ++ es /\
     invocations key t m es = 1%nat) /\
  invocations key t m (trace (batch key vs o))
  = invocations key t m (trace o) /\
  (forall rev, (notify_members rev key (notify_members rev key ms).1).2 = []).
Proof.
  intros [Hwf Halt] Hlevel Hquiet Hms Htm Hpend.
  destruct (Hwf key ms Hms) as [Hnd Hst].
  set (ob := beginPropertyChanges o).
  assert (kvo_changeLevel ob = Some 1) as Hlb.
  { subst ob. unfold beginPropertyChanges. simpl.
    rewrite js_or_zero. fold (level o). by rewrite Hlevel. }
  assert (batched key ob (batch key vs o)) as Hb.
  { apply (batched_sets key vs ob). by rewrite Hlb. }
  destruct Hb as (L & O & R & A & (es0 & T0 & F0) & C & N).
  assert (default [] (kvo_changes ob) = []) as Hc0.
  { subst ob. simpl. unfold pending in Hquiet.
    destruct (kvo_changes o) as [[|? ?]|]; done. }
  rewrite Hc0 in C, N.
  destruct (kvo_changes (batch key vs o)) as [cs|] eqn:Ecs;
    [|by unfold pending in Hpend; rewrite Ecs in Hpend].
  simpl in C, N.
  assert (key ∈ cs) as Hin.
  { unfold pending in Hpend. rewrite Ecs in Hpend.
    destruct cs as [|c cs]; [done|].
    destruct (C c) as [->|Hc]; [by left|by left|by apply elem_of_nil in Hc]. }
  split; [|split].
  - unfold endPropertyChanges. cbv zeta.
    set (o1 := with_changeLevel _ (batch key vs o)).
    assert (pending o1 = true) as Hp1 by done.
    assert (default 0 (kvo_changeLevel o1) = 0) as Hl1.
    { subst o1. simpl. by rewrite L, Hlb. }
    rewrite Hl1, Hp1. simpl.
    apply (flush_pending_invocations o1 key t m ms cs); try done.
    + apply N. apply NoDup_nil_2.
    + subst o1. simpl. by rewrite A.
    + subst o1. simpl. by rewrite O.
    + subst o1. simpl. by rewrite R.
  - rewrite T0. change (trace ob) with (trace o).
    by rewrite invocations_app, (invocations_quiet _ _ _ es0 F0), Nat.add_0_r.
  - intros rev. by rewrite (notify_members_skips rev key _
                              (notify_members_stamps rev key ms)).
Qed.

(** ** Further properties of the flush *)

(** *** The keys a flush reaches *)

Lemma set_add_in k s x : x ∈ set_add k s <-> x = k \/ x ∈ s.
Proof.
  unfold set_add. case_bool_decide as E.
  - split; [by right|]. by intros [->|?].
  - rewrite elem_of_app, list_elem_of_singleton. split; intros [?|?]; auto.
Qed.

Lemma set_addEach_NoDup ks s : NoDup s -> NoDup (set_addEach ks s).
Proof.
  unfold set_addEach. revert s.
  induction ks as [|k ks IH]; intros s Hs; simpl; [done|].
  apply IH. by apply set_add_NoDup.
Qed.

Lemma set_addEach_elem ks s x : x ∈ set_addEach ks s <-> x ∈ ks \/ x ∈ s.
Proof.
  unfold set_addEach. revert s.
  induction ks as [|k ks IH]; intros s; simpl.
  - split; [by right|]. intros [H|H]; [by apply elem_of_nil in H|done].
  - rewrite IH, set_add_in, elem_of_cons. split.
    + intros [H|[H|H]]; [left; by right|left; by left|by right].
    + intros [[H|H]|H]; [right; by left|by left|right; by right].
Qed.

Lemma round_changes_NoDup key o :
  NoDup (default [] (kvo_changes o)) -> NoDup (round_changes key o).
Proof.
  intros H. unfold round_changes. destruct key as [k|]; [|done].
  repeat case_bool_decide; [|done|by apply set_add_NoDup].
  by apply set_addEach_NoDup, set_add_NoDup.
Qed.

Lemma depends_empty k d : depends ∅ k d -> k = d.
Proof.
  induction 1 as [|k d d' Hd _ _]; [done|].
  rewrite lookup_empty in Hd. by apply elem_of_nil in Hd.
Qed.

Lemma depends_trans deps a b c :
  depends deps a b -> depends deps b c -> depends deps a c.
Proof.
  induction 1 as [|k d d' Hd _ IH]; [done|].
  intros Hc. eapply depends_step; [exact Hd|by apply IH].
Qed.

Lemma add_dependents_sound fuel deps idx cs o x :
  x ∈ (add_dependents fuel deps idx cs o).1 ->
  exists k, k ∈ cs /\ depends deps k x.
Proof.
  revert idx cs o. induction fuel as [|fuel IH]; intros idx cs o; simpl.
  { intros Hx. exists x. split; [done|constructor]. }
  destruct (cs !! idx) as [key|] eqn:Ek.
  2:{ intros Hx. exists x. split; [done|constructor]. }
  pose proof (add_keys_fst (default [] (deps !! key)) cs o) as Hf.
  destruct (add_keys (default [] (deps !! key)) (cs, o)) as [cs' o'].
  simpl in Hf. intros Hx.
  destruct (IH _ _ _ Hx) as (k' & Hk' & Hd).
  destruct (foldr_set_add_spec (default [] (deps !! key)) cs)
    as (ext & E & _ & Hext & _).
  rewrite Hf, E in Hk'. apply elem_of_app in Hk' as [Hk'|Hk'].
  - by exists k'.
  - exists key. split; [by eapply list_elem_of_lookup_2|].
    apply (depends_step deps key k' x); [|done]. by destruct (Hext k' Hk').
Qed.

Lemma add_dependents_complete deps cs o k d :
  k ∈ cs -> depends deps k d ->
  d ∈ (add_dependents (dependents_fuel deps cs) deps 0 cs o).1.
Proof.
  intros Hk Hd.
  assert (k ∈ (add_dependents (dependents_fuel deps cs) deps 0 cs o).1)
    as Hk'.
  { destruct (add_dependents_grows (dependents_fuel deps cs) deps 0 cs o)
      as (ext & -> & _). apply elem_of_app. by left. }
  clear Hk. induction Hd as [k|k d d' Hd Hdd IH]; [done|].
  apply IH. by apply (add_dependents_closed deps cs o k d).
Qed.

Lemma pending_false_changes o :
  pending o = false -> default [] (kvo_changes o) = [].
Proof. unfold pending. by destruct (kvo_changes o) as [[|? ?]|]. Qed.

(** The shape of one round: the dependents are added to the change set,
    then the keys are notified from the last to the first. *)
Lemma flush_round_shape key0 o :
  NoDup (default [] (kvo_changes o)) ->
  exists cs1 o1,
    trace (flush_round key0 o)
    = trace (foldl (fun acc k => notify_key (propertyRevision o) k acc) o1
                   (reverse cs1)) /\
    kvo_observers o1 = kvo_observers o /\ trace o1 = trace o /\
    NoDup cs1 /\ (forall x, x ∈ cs1 <-> notified key0 o x).
Proof.
  intros Hnd.
  pose proof (round_changes_NoDup key0 o Hnd) as Hnd0.
  unfold flush_round, notify_all. cbv zeta.
  set (o0 := with_altChanges None _).
  set (cs0 := match key0 with Some _ => _ | None => _ end).
  assert (cs0 = round_changes key0 o) as Ecs by reflexivity.
  change (kvo_dependents o0) with (kvo_dependents o).
  unfold notified. rewrite <- Ecs in *.
  destruct (kvo_dependents o) as [deps|]; simpl default.
  - pose proof (add_dependents_only_slots (dependents_fuel deps cs0) deps 0
                  cs0 o0) as Hs.
    destruct (add_dependents_grows (dependents_fuel deps cs0) deps 0 cs0 o0)
      as (ext & Eg & Hg).
    pose proof (fun x => add_dependents_sound (dependents_fuel deps cs0)
                           deps 0 cs0 o0 x) as Hsound.
    pose proof (fun k x => add_dependents_complete deps cs0 o0 k x)
      as Hcomplete.
    destruct (add_dependents _ deps 0 cs0 o0) as [cs1 o1]. simpl in *.
    exists cs1, o1. split; [done|]. rewrite Hs. simpl.
    split; [done|]. split; [done|]. split; [subst cs1; by apply Hg|].
    intros x. split; [apply Hsound|].
    intros (k & Hk & Hd). by apply (Hcomplete k x).
  - exists cs0, o0. split; [done|]. split; [done|]. split; [done|].
    split; [done|]. intros x. split.
    + intros Hx. exists x. split; [done|constructor].
    + intros (k & Hk & Hd). by apply depends_empty in Hd as <-.
Qed.

(** On an object between flushes the loop runs its body once, or not at
    all. *)
Lemma flush_one_round key0 o :
  wf o ->
  trace (_notifyPropertyObservers key0 o)
  = if pending o || key_truthy key0
    then trace (flush_round key0
                  (with_changeLevel
                     (Some (js_or (kvo_changeLevel o) 0 + 1)) o))
    else trace o.
Proof.
  intros [Hwf Halt]. unfold _notifyPropertyObservers. cbv zeta.
  set (o0 := with_changeLevel _ o).
  change (pending o) with (pending o0).
  destruct (pending o0 || key_truthy key0) eqn:Hrun.
  - destruct (flush_round_queue key0 o0) as (Hq & _ & _).
    assert (pending (flush_round key0 o0) = false) as Hp1.
    { unfold pending. rewrite Hq. subst o0. simpl.
      by destruct Halt as [-> | ->]. }
    assert (flush_loop 3 key0 o0 = flush_round key0 o0) as ->; [|done].
    simpl. by rewrite Hrun, Hp1.
  - assert (flush_loop 3 key0 o0 = o0) as ->; [|done].
    simpl. by rewrite Hrun.
Qed.

Lemma not_notified_idle key0 o d :
  pending o || key_truthy key0 = false -> ~ notified key0 o d.
Proof.
  intros Hrun (k & Hk & _).
  apply orb_false_iff in Hrun as [Hpe Hkey].
  unfold round_changes in Hk. rewrite (pending_false_changes o Hpe) in Hk.
  destruct key0 as [k0|]; [|by apply elem_of_nil in Hk].
  simpl in Hkey. apply negb_false_iff in Hkey.
  apply bool_decide_eq_true_1 in Hkey as ->.
  simpl in Hk. by apply elem_of_nil in Hk.
Qed.

(** One round invokes a registration of [d] once when [d] is reached from
    the change set, and not at all when it is not. *)
Lemma flush_round_notified key0 o d t m ms :
  NoDup (default [] (kvo_changes o)) ->
  kvo_observers o !! d = Some ms -> NoDup (pairs ms) ->
  Forall (stamp_before (propertyRevision o)) ms ->
  (t, m) ∈ pairs ms ->
  exists es,
    trace (flush_round key0 o) = trace o ++ es /\
    (notified key0 o d -> invocations d t m es = 1%nat) /\
    (~ notified key0 o d -> invocations d t m es = 0%nat).
Proof.
  intros Hnd Hms Hp Hst Htm.
  assert (Forall (fun x => m_stamp x <> Some (propertyRevision o)) ms) as Hst'.
  { eapply Forall_impl; [exact Hst|]. intros x Hx E.
    unfold stamp_before in Hx. rewrite E in Hx. lia. }
  destruct (flush_round_shape key0 o Hnd)
    as (cs1 & o1 & Ht & Ho & Ht1 & Hnd1 & Hin1).
  rewrite Ht.
  destruct (decide (d ∈ cs1)) as [Hd|Hd].
  - destruct (notify_fold_in (propertyRevision o) (reverse cs1) o1 d t m ms)
      as (es & Hes & Hc); try done.
    + by rewrite reverse_Permutation.
    + by apply elem_of_reverse.
    + by rewrite Ho.
    + exists es. rewrite Hes, Ht1. split; [done|].
      split; [done|]. intros Hn. destruct Hn. by apply Hin1.
  - destruct (notify_fold_notin (propertyRevision o) (reverse cs1) o1 d t m)
      as (es & Hes & Hc & _).
    + by rewrite elem_of_reverse.
    + exists es. rewrite Hes, Ht1. split; [done|].
      split; [|done]. intros Hn. destruct Hd. by apply Hin1.
Qed.

(** The same for the whole flush of an object between flushes. *)
Lemma flush_notified key0 o d t m ms :
  wf o -> NoDup (default [] (kvo_changes o)) ->
  kvo_observers o !! d = Some ms -> (t, m) ∈ pairs ms ->
  exists es,
    trace (_notifyPropertyObservers key0 o) = trace o ++ es /\
    (notified key0 o d -> invocations d t m es = 1%nat) /\
    (~ notified key0 o d -> invocations d t m es = 0%nat).
Proof.
  intros Hwf Hnd Hms Htm.
  destruct (proj1 Hwf d ms Hms) as [Hp Hst].
  rewrite (flush_one_round key0 o Hwf).
  destruct (pending o || key_truthy key0) eqn:Hrun.
  - set (o0 := with_changeLevel _ o).
    destruct (flush_round_notified key0 o0 d t m ms)
      as (es & Hes & H1 & H0); try done.
    exists es. split; [exact Hes|]. split; [exact H1|exact H0].
  - exists []. rewrite app_nil_r. split; [done|]. split; [|done].
    intros Hn. by destruct (not_notified_idle key0 o d Hrun).
Qed.

Lemma flush_quiescent key o : pending (_notifyPropertyObservers key o) = false.
Proof.
  unfold _notifyPropertyObservers. cbv zeta.
  set (o0 := with_changeLevel _ o).
  exact (flush_loop_quiescent key o0).
Qed.

Lemma round_changes_key key o : key <> "" -> key ∈ round_changes (Some key) o.
Proof.
  intros Hne. unfold round_changes.
  rewrite (bool_decide_eq_false_2 (key = "")) by done.
  case_bool_decide as E.
  - subst key. apply set_addEach_elem. right. apply set_add_in. by left.
  - apply set_add_in. by left.
Qed.

(** *** The state between calls is kept *)

Lemma settled_same o o' :
  kvo_observers o' = kvo_observers o ->
  propertyRevision o' = propertyRevision o ->
  kvo_altChanges o' = kvo_altChanges o ->
  kvo_changes o' = kvo_changes o ->
  kvo_observed_keys o' = kvo_observed_keys o ->
  settled o -> settled o'.
Proof.
  intros E1 E2 E3 E4 E5 (Hwf & Hnd & Hcov).
  split; [by apply (wf_same o)|]. rewrite E4, E5, E1. by split.
Qed.

Lemma notify_fold_covered rev l o (K : list string) :
  map_Forall (fun k ms => ms <> [] -> k ∈ K) (kvo_observers o) ->
  map_Forall (fun k ms => ms <> [] -> k ∈ K)
             (kvo_observers (foldl (fun acc k => notify_key rev k acc) o l)).
Proof.
  revert o. induction l as [|k l IH]; intros o H; simpl; [done|].
  apply IH. rewrite notify_key_observers.
  destruct (kvo_observers o !! k) as [ms|] eqn:E; [|done].
  apply map_Forall_insert_2; [|done].
  intros Hne. apply (H k ms E). intros ->. by apply Hne.
Qed.

Lemma covered_flush_round key o (K : list string) :
  map_Forall (fun k ms => ms <> [] -> k ∈ K) (kvo_observers o) ->
  map_Forall (fun k ms => ms <> [] -> k ∈ K)
             (kvo_observers (flush_round key o)).
Proof.
  intros H. unfold flush_round, notify_all. cbv zeta.
  set (o0 := with_altChanges None _).
  set (cs0 := match key with Some _ => _ | None => _ end).
  destruct (kvo_dependents o0) as [deps|].
  - pose proof (add_dependents_only_slots (dependents_fuel deps cs0) deps 0
                  cs0 o0) as Hs.
    destruct (add_dependents _ deps 0 cs0 o0) as [cs1 o1]. simpl in Hs.
    simpl. apply notify_fold_covered. by rewrite Hs.
  - simpl. by apply notify_fold_covered.
Qed.

Lemma covered_flush_loop fuel key o (K : list string) :
  map_Forall (fun k ms => ms <> [] -> k ∈ K) (kvo_observers o) ->
  map_Forall (fun k ms => ms <> [] -> k ∈ K)
             (kvo_observers (flush_loop fuel key o)).
Proof.
  revert key o. induction fuel as [|fuel IH]; intros key o H; simpl; [done|].
  destruct (pending o || key_truthy key); [|done].
  by apply IH, covered_flush_round.
Qed.

Lemma settled_flush key o :
  settled o -> settled (_notifyPropertyObservers key o).
Proof.
  intros (Hwf & Hnd & Hcov). split; [by apply wf_flush|]. split.
  - rewrite (pending_false_changes _ (flush_quiescent key o)).
    apply NoDup_nil_2.
  - unfold _notifyPropertyObservers. cbv zeta.
    set (o0 := with_changeLevel _ o).
    destruct (flush_loop_frame 3 key o0) as (_ & _ & _ & _ & _ & Ek & _).
    pose proof (covered_flush_loop 3 key o0 (kvo_observed_keys o) Hcov) as H.
    set (o1 := flush_loop 3 key o0) in *.
    change (map_Forall (fun k ms => ms <> [] -> k ∈ kvo_observed_keys o1)
              (kvo_observers o1)).
    by rewrite Ek.
Qed.

Lemma settled_propertyDidChange key o :
  settled o -> settled (propertyDidChange key o).
Proof.
  intros Hs. unfold propertyDidChange. cbv zeta.
  set (o1 := with_revision _ o).
  set (o2 := match slot o1 key with VFun _ => _ | _ => _ end).
  assert (settled o2) as H2.
  { apply (settled_same o); [| | | | |done]; subst o2; destruct (slot o1 key);
      try done; by destruct (isCacheable f). }
  assert (settled (with_changes
                     (Some (set_add key (default [] (kvo_changes o2)))) o2))
    as Hq.
  { destruct H2 as (Hwf & Hnd & Hcov). split; [by apply (wf_same o2)|].
    split; [by apply set_add_NoDup|done]. }
  destruct (0 <? _); [done|].
  destruct (suspended o2); [|by apply settled_flush].
  revert Hq. by apply settled_same.
Qed.

Lemma clear_cached_dependents_only_slots key o :
  clear_cached_dependents key o
  = with_slots (slots (clear_cached_dependents key o)) o.
Proof.
  unfold clear_cached_dependents.
  destruct (kvo_cachedDependents o) as [cached|]; [|by destruct o].
  induction (default [] (cached !! key)) as [|f l IH]; simpl;
    [by destruct o|].
  rewrite IH at 1. done.
Qed.

Lemma settled_clear_cached_dependents key o :
  settled o -> settled (clear_cached_dependents key o).
Proof.
  rewrite clear_cached_dependents_only_slots. by apply settled_same.
Qed.

Lemma same_registry_refl o : same_registry o o.
Proof. unfold same_registry. by destruct o. Qed.

Lemma same_registry_trans o1 o2 o3 :
  same_registry o1 o2 -> same_registry o2 o3 -> same_registry o1 o3.
Proof. unfold same_registry. intros H1 H2. rewrite H2, H1. done. Qed.

Lemma same_registry_write k v o : same_registry o (write k v o).
Proof. unfold same_registry. by destruct o. Qed.

Lemma same_registry_log es o : same_registry o (log es o).
Proof. unfold same_registry. by destruct o. Qed.

Lemma same_registry_get key o : same_registry o (get key o).1.
Proof.
  unfold get, unknownProperty, invoke.
  destruct (slot o key); simpl; try apply same_registry_refl.
  destruct (isProperty f); [|apply same_registry_refl].
  destruct (isCacheable f); [|apply same_registry_log].
  destruct (slot o (cacheKey f)); simpl; try apply same_registry_refl.
  eapply same_registry_trans; [apply same_registry_log|].
  apply same_registry_write.
Qed.

Lemma settled_same_registry o o' :
  same_registry o o' -> settled o -> settled o'.
Proof. intros ->. by apply settled_same. Qed.

Lemma settled_notified key (notify : bool) o o1 :
  settled o -> same_registry o o1 ->
  settled (if notify then propertyDidChange key (log [EDidChange key] o1)
           else o1).
Proof.
  intros Hs H1. assert (settled o1) by (by apply (settled_same_registry o)).
  destruct notify; [|done]. apply settled_propertyDidChange.
  apply (settled_same_registry o1); [apply same_registry_log|done].
Qed.

Lemma settled_set key value o : settled o -> settled (set key value o).
Proof.
  intros Hs. unfold set. cbv zeta. apply settled_clear_cached_dependents.
  set (notify := automaticallyNotifiesObserversFor key).
  assert (forall o1, same_registry o o1 ->
            same_registry o (if notify
                             then log [EWillChange key]
                                      (propertyWillChange key o1)
                             else o1)) as Hwill.
  { intros o1 H1. destruct notify; [|done].
    apply (same_registry_trans o o1); [exact H1|apply same_registry_log]. }
  pose proof (Hwill o (same_registry_refl o)) as Hw0.
  assert (settled (set_plain notify key value o)) as Hplain.
  { unfold set_plain. case_bool_decide; [done|].
    apply (settled_notified key notify o); [done|].
    eapply same_registry_trans; [exact Hw0|apply same_registry_write]. }
  unfold set_value. destruct (slot o key); try exact Hplain.
  - unfold set_unknown, unknownProperty. simpl.
    apply (settled_notified key notify o); [done|].
    case_bool_decide; [exact Hw0|].
    eapply same_registry_trans; [exact Hw0|apply same_registry_write].
  - destruct (isProperty f); [|exact Hplain].
    unfold set_computed, invoke.
    destruct (isVolatile f || _); [|done].
    apply (settled_notified key notify o); [done|].
    pose proof (Hwill _ (same_registry_write (lastSetValueKey f) value o))
      as Hw1.
    clear Hw0.
    set (o1 := if notify then _ else _) in *.
    assert (same_registry o (log [ECall (fn_id f) key value] o1)) as Hw2.
    { eapply same_registry_trans; [exact Hw1|apply same_registry_log]. }
    destruct (isCacheable f); [|exact Hw2].
    eapply same_registry_trans; [exact Hw2|apply same_registry_write].
Qed.

Lemma settled_setIfChanged key value o :
  settled o -> settled (setIfChanged key value o).
Proof.
  intros Hs. unfold setIfChanged.
  pose proof (same_registry_get key o) as Hg.
  destruct (get key o) as [o1 v]. simpl in Hg.
  assert (settled o1) by (by apply (settled_same_registry o)).
  case_bool_decide; [done|by apply settled_set].
Qed.

Lemma settled_begin o : settled o -> settled (beginPropertyChanges o).
Proof. by apply settled_same. Qed.

Lemma settled_end o : settled o -> settled (endPropertyChanges o).
Proof.
  intros Hs. unfold endPropertyChanges. cbv zeta.
  set (o1 := with_changeLevel _ o).
  assert (settled o1) by (by apply (settled_same o)).
  destruct (_ && _); [by apply settled_flush|done].
Qed.

Lemma settled_fresh : settled fresh.
Proof.
  split; [apply wf_fresh|]. split; [apply NoDup_nil_2|apply map_Forall_empty].
Qed.

Lemma settled_addObserver key target method o o' :
  settled o -> addObserver key target method o = Some o' -> settled o'.
Proof.
  intros (Hwf & Hnd & Hcov) Ho.
  split; [by apply (wf_addObserver key target method o)|].
  revert Ho. unfold addObserver.
  destruct (has_dot key); [done|]. intros [= <-]. cbv zeta.
  set (o1 := if _ && _ then _ else o).
  assert (same_registry o o1) as H1.
  { subst o1. destruct (_ && _);
      [apply same_registry_get|apply same_registry_refl]. }
  rewrite H1. simpl. split; [done|].
  apply map_Forall_insert_2.
  - intros _. apply set_add_in. by left.
  - intros k ms E Hne. apply set_add_in. right. by apply (Hcov k ms).
Qed.

Lemma register_one_same key d o :
  kvo_observers (register_one key d o) = kvo_observers o /\
  propertyRevision (register_one key d o) = propertyRevision o /\
  kvo_altChanges (register_one key d o) = kvo_altChanges o /\
  kvo_changes (register_one key d o) = kvo_changes o /\
  kvo_observed_keys (register_one key d o) = kvo_observed_keys o.
Proof.
  unfold register_one. cbv zeta.
  set (o1 := with_dependents _ o).
  destruct (slot o1 key); try done. by destruct (isCacheable f).
Qed.

Lemma settled_registerDependentKey key args o :
  settled o -> settled (registerDependentKey key args o).
Proof.
  intros Hs. rewrite registerDependentKey_fold.
  induction (dep_keys args) as [|d l IH]; simpl.
  - revert Hs. by apply settled_same.
  - destruct (register_one_same key d
                (foldr (register_one key)
                   (with_dependents (Some (default ∅ (kvo_dependents o))) o)
                   l)) as (E1 & E2 & E3 & E4 & E5).
    revert IH. by apply settled_same.
Qed.

Lemma settled_perform c o o' : settled o -> perform c o = Some o' -> settled o'.
Proof.
  intros Hs. destruct c; simpl; try (intros [= <-]).
  - apply (settled_same_registry o); [apply same_registry_get|done].
  - by apply settled_set.
  - by apply settled_setIfChanged.
  - by apply settled_begin.
  - by apply settled_end.
  - by apply settled_propertyDidChange.
  - by apply settled_flush.
  - by apply settled_addObserver.
  - by apply settled_registerDependentKey.
Qed.

Lemma settled_perform_all cs o o' :
  settled o -> perform_all cs o = Some o' -> settled o'.
Proof.
  unfold perform_all. revert o. induction cs as [|c cs IH]; intros o Hs; simpl.
  { by intros [= <-]. }
  destruct (perform c o) as [o1|] eqn:E.
  - apply IH. by apply (settled_perform c o).
  - intros H. exfalso. clear -H. induction cs as [|c' cs IH']; [done|].
    by apply IH'.
Qed.

Lemma same_registry_fields o o' :
  same_registry o o' ->
  kvo_changeLevel o' = kvo_changeLevel o /\
  suspended o' = suspended o /\
  kvo_dependents o' = kvo_dependents o /\
  kvo_observers o' = kvo_observers o /\
  kvo_changes o' = kvo_changes o /\
  kvo_cachedDependents o' = kvo_cachedDependents o.
Proof. by intros ->. Qed.

(** Outside a batch, with observing not suspended, [propertyDidChange]
    invokes every registration of the key and of the keys that depend on
    it, once. *)
Lemma propertyDidChange_notifies key d t m ms o :
  settled o -> level o = 0 -> suspended o = false -> key <> "" ->
  depends (default ∅ (kvo_dependents o)) key d ->
  kvo_observers o !! d = Some ms -> (t, m) ∈ pairs ms ->
  exists es,
    trace (propertyDidChange key o) = trace o ++ es /\
    invocations d t m es = 1%nat /\
    pending (propertyDidChange key o) = false.
Proof.
  intros Hs Hl Hsus Hne Hd Hms Htm. unfold propertyDidChange. cbv zeta.
  set (o1 := with_revision _ o).
  set (o2 := match slot o1 key with VFun _ => _ | _ => _ end).
  assert (same_registry o1 o2) as H2.
  { subst o2. destruct (slot o1 key); try apply same_registry_refl.
    destruct (isCacheable f); [|apply same_registry_refl].
    eapply same_registry_trans; apply same_registry_write. }
  destruct (same_registry_fields o1 o2 H2) as (El & Es & Ed & Eo & Ec & _).
  assert (trace o2 = trace o) as Et.
  { subst o2. destruct (slot o1 key); try done. by destruct (isCacheable f). }
  assert (settled o2) as Hs2.
  { apply (settled_same_registry o1); [done|]. revert Hs.
    by apply settled_same. }
  assert ((0 <? js_or (kvo_changeLevel o1) 0) = false) as ->.
  { change (kvo_changeLevel o1) with (kvo_changeLevel o).
    rewrite js_or_zero. fold (level o). by rewrite Hl. }
  rewrite Es. change (suspended o1) with (suspended o). rewrite Hsus.
  destruct Hs2 as (Hwf & Hnd & _).
  destruct (flush_notified (Some key) o2 d t m ms) as (es & Hes & H1 & _);
    try done.
  { by rewrite Eo. }
  exists es. rewrite Hes, Et. split; [done|]. split; [|apply flush_quiescent].
  apply H1. exists key. split; [by apply round_changes_key|].
  by rewrite Ed.
Qed.

(** A [set] that changes a property which is not computed, or that meets
    an undefined property, comes down to [propertyDidChange] on an object
    that differs in slots and log only. *)
Lemma set_value_changed key value o :
  (forall f, slot o key = VFun f -> isProperty f = false) ->
  slot o key = VUndef \/ slot o key <> value ->
  exists oa,
    same_registry o oa /\
    trace oa = trace o ++ [EWillChange key; EDidChange key] /\
    set_value true key value o = propertyDidChange key oa.
Proof.
  intros Hplain Hne.
  assert (slot o key <> VUndef ->
          exists oa,
            same_registry o oa /\
            trace oa = trace o ++ [EWillChange key; EDidChange key] /\
            set_plain true key value o = propertyDidChange key oa) as Hp.
  { intros Hdef. destruct Hne as [?|Hne]; [done|].
    unfold set_plain, propertyWillChange.
    rewrite bool_decide_eq_false_2 by done.
    eexists. split; [|split; [|reflexivity]].
    - eapply same_registry_trans; [apply same_registry_log|].
      eapply same_registry_trans; [apply same_registry_write|].
      apply same_registry_log.
    - simpl. by rewrite <- app_assoc. }
  unfold set_value. destruct (slot o key) eqn:E; try (by apply Hp).
  - unfold set_unknown, unknownProperty, propertyWillChange. simpl.
    eexists. split; [|split; [|reflexivity]].
    + eapply same_registry_trans; [apply same_registry_log|].
      eapply same_registry_trans; [|apply same_registry_log].
      case_bool_decide; [apply same_registry_refl|apply same_registry_write].
    + case_bool_decide; simpl; by rewrite <- app_assoc.
  - rewrite (Hplain f eq_refl). by apply Hp.
Qed.

(** X2.  [set(key, value)] outside a batch (change level 0, observing not
    suspended, automatic notification on) on a property that is not
    computed and holds another value, or that is undefined (then whatever
    the value is, [undefined] included): the call logs will-change and
    did-change and, before it returns, invokes exactly once every observer
    registered on [key] and on any key [d] that depends on [key] through
    [registerDependentKey], directly or through other keys; nothing is
    left pending.  The key is not the empty string, for which
    [_notifyPropertyObservers] does not run its loop. *)
Theorem set_notifies_at_once (key : string) (value : Val) (d : string)
    (t : option nat) (m : nat) (ms : list Member) (o : St) :
  settled o -> level o = 0 -> suspended o = false ->
  automaticallyNotifiesObserversFor key = true -> key <> "" ->
  (forall f, slot o key = VFun f -> isProperty f = false) ->
  slot o key = VUndef \/ slot o key <> value ->
  depends (default ∅ (kvo_dependents o)) key d ->
  kvo_observers o !! d = Some ms -> (t, m) ∈ pairs ms ->
  exists es,
    trace (set key value o)
    = trace o ++ [EWillChange key; EDidChange key] ++ es /\
    invocations d t m es = 1%nat /\
    pending (set key value o) = false.
Proof.
  intros Hs Hl Hsus Hauto Hne Hplain Hval Hd Hms Htm.
  unfold set. cbv zeta. rewrite Hauto.
  destruct (set_value_changed key value o Hplain Hval) as (oa & Ha & Hta & ->).
  destruct (same_registry_fields o oa Ha) as (El & Es & Ed & Eo & Ec & _).
  destruct (propertyDidChange_notifies key d t m ms oa)
    as (es & Hes & Hc & Hp); try done.
  - by apply (settled_same_registry o).
  - unfold level. by rewrite El.
  - by rewrite Es.
  - by rewrite Ed.
  - by rewrite Eo.
  - exists es. rewrite clear_cached_dependents_trace, Hes, Hta, <- app_assoc.
    split; [done|]. split; [done|].
    rewrite clear_cached_dependents_only_slots. exact Hp.
Qed.

(** *** Observers of every key *)

Lemma star_invocations_app key t m es1 es2 :
  star_invocations key t m (es1 ++ es2)
  = (star_invocations key t m es1 + star_invocations key t m es2)%nat.
Proof. unfold star_invocations. by rewrite filter_app, length_app. Qed.

Lemma star_invocations_none key t m es :
  Forall (fun e => is_star_invocation key t m e = false) es ->
  star_invocations key t m es = 0%nat.
Proof.
  unfold star_invocations. induction 1 as [|e es He Hes IH]; [done|].
  rewrite filter_cons. destruct (decide _) as [E|E]; [congruence|exact IH].
Qed.

Lemma star_invocations_members rev key key' t m ms :
  NoDup (pairs ms) ->
  star_invocations key t m
    ((fun x => EStarObserver key' (m_target x) (m_method x) rev) <$> ms)
  = if bool_decide (key' = key /\ (t, m) ∈ pairs ms) then 1%nat else 0%nat.
Proof.
  unfold star_invocations, pairs. induction ms as [|x ms IH]; intros Hnd.
  { simpl. case_bool_decide as E; [|done]. destruct E as [_ E].
    by apply elem_of_nil in E. }
  rewrite !fmap_cons in *. apply NoDup_cons in Hnd as [Hx Hnd].
  rewrite filter_cons. specialize (IH Hnd). simpl.
  destruct (decide (key' = key /\ m_target x = t /\ m_method x = m))
    as [(-> & <- & <-)|Hne].
  - rewrite bool_decide_eq_true_2 by done.
    destruct (decide _) as [_|E]; [|done]. simpl. rewrite IH.
    rewrite bool_decide_eq_false_2 by (by intros [_ ?]).
    rewrite bool_decide_eq_true_2; [done|]. split; [done|by left].
  - rewrite bool_decide_eq_false_2 by done.
    destruct (decide _) as [E|_]; [done|]. rewrite IH.
    match goal with
    | |- (if bool_decide ?A then _ else _) = (if bool_decide ?B then _ else _)
      => assert (A <-> B) as Hiff
    end.
    { split.
      + intros [-> Hin]. split; [done|by right].
      + intros [-> [E|Hin]%elem_of_cons]; [|done].
        injection E as -> ->. by destruct Hne. }
    by rewrite (bool_decide_ext _ _ Hiff).
Qed.

(** What notifying one key logs for the observers of ['*'], whose
    registrations the flush keeps (it may stamp them): one call for the
    key of each of them, unless the key is ['*']. *)
Lemma notify_key_star rev k o d t m ps :
  pairs (default [] (kvo_observers o !! "*")) = ps -> NoDup ps ->
  exists es,
    trace (notify_key rev k o) = trace o ++ es /\
    star_invocations d t m es
    = (if bool_decide (k = d /\ d <> "*" /\ (t, m) ∈ ps)
       then 1%nat else 0%nat) /\
    pairs (default [] (kvo_observers (notify_key rev k o) !! "*")) = ps.
Proof.
  intros Hps Hnd.
  unfold notify_key. cbv zeta.
  set (o1 := match kvo_observers o !! k with Some _ => _ | None => _ end).
  assert (exists es1,
            trace o1 = trace o ++ es1 /\
            Forall (fun e => is_star_invocation d t m e = false) es1 /\
            pairs (default [] (kvo_observers o1 !! "*")) = ps)
    as (es1 & H1 & F1 & Hp1).
  { subst o1. destruct (kvo_observers o !! k) as [ms|] eqn:Ek.
    - pose proof (notify_members_pairs rev k ms) as Hpairs.
      destruct (notify_members rev k ms) as [ms' es] eqn:En. simpl in Hpairs.
      exists es.
      assert (Forall (fun e => is_star_invocation d t m e = false) es) as Hes.
      { clear -En. revert ms' es En.
        induction ms as [|x ms IH]; intros ms' es En; simpl in En.
        { injection En as <- <-. constructor. }
        destruct (notify_members rev k ms) as [ms0 es0].
        case_bool_decide; injection En as <- <-; [by apply (IH ms0)|].
        constructor; [done|by apply (IH ms0)]. }
      destruct (decide (k = "*")) as [->|Hne].
      + simpl. rewrite lookup_insert_eq.
        split; [done|]. split; [done|].
        rewrite Ek in Hps. simpl in *. by rewrite Hpairs.
      + simpl. rewrite lookup_insert_ne by done. by repeat split.
    - exists []. rewrite app_nil_r. by repeat split. }
  set (o2 := match kvo_local o1 !! k with Some _ => _ | None => _ end).
  assert (exists es2, trace o2 = trace o1 ++ es2 /\
            Forall (fun e => is_star_invocation d t m e = false) es2 /\
            kvo_observers o2 = kvo_observers o1)
    as (es2 & H2 & F2 & Ho2).
  { subst o2. destruct (kvo_local o1 !! k) as [names|].
    - eexists. split; [reflexivity|]. split; [|done]. unfold notify_local.
      induction names as [|n names IH]; simpl; [constructor|].
      destruct (truthy (slot o1 n)); [by constructor|done].
    - exists []. by rewrite app_nil_r. }
  rewrite Ho2.
  set (o3 := match kvo_observers o1 !! "*" with Some _ => _ | None => _ end).
  assert (exists es3, trace o3 = trace o2 ++ es3 /\
            star_invocations d t m es3
            = (if bool_decide (k = d /\ d <> "*" /\ (t, m) ∈ ps)
               then 1%nat else 0%nat) /\
            kvo_observers o3 = kvo_observers o2)
    as (es3 & H3 & C3 & Ho3).
  { subst o3. destruct (kvo_observers o1 !! "*") as [stars1|]; simpl in Hp1.
    - case_bool_decide as Ek.
      + exists []. rewrite app_nil_r. split; [done|]. split; [|done].
        subst k. rewrite bool_decide_eq_false_2; [done|].
        by intros (<- & Hd & _).
      + eexists. split; [reflexivity|]. split; [|done].
        rewrite star_invocations_members by (by rewrite Hp1).
        rewrite Hp1.
        assert (k = d /\ (t, m) ∈ ps <-> k = d /\ d <> "*" /\ (t, m) ∈ ps)
          as Hiff.
        { split; [|by intros (? & _ & ?)].
          intros [<- ?]. by repeat split. }
        by rewrite (bool_decide_ext _ _ Hiff).
    - exists []. rewrite app_nil_r. split; [done|]. split; [|done].
      rewrite bool_decide_eq_false_2; [done|].
      intros (_ & _ & Hin). rewrite <- Hp1 in Hin.
      by apply elem_of_nil in Hin. }
  destruct (truthy _).
  - exists (es1 ++ es2 ++ es3 ++ [EPropertyObserver k rev]). split.
    + simpl. rewrite H3, H2, H1. by rewrite <- !app_assoc.
    + split.
      * assert (star_invocations d t m [EPropertyObserver k rev] = 0%nat)
          as E4 by (apply star_invocations_none; by apply Forall_singleton).
        rewrite 3 star_invocations_app.
        rewrite (star_invocations_none _ _ _ es1 F1),
          (star_invocations_none _ _ _ es2 F2), C3, E4. lia.
      * simpl. by rewrite Ho3, Ho2.
  - exists (es1 ++ es2 ++ es3). split.
    + rewrite H3, H2, H1. by rewrite <- !app_assoc.
    + split.
      * rewrite 2 star_invocations_app.
        rewrite (star_invocations_none _ _ _ es1 F1),
          (star_invocations_none _ _ _ es2 F2), C3. lia.
      * by rewrite Ho3, Ho2.
Qed.

Lemma notify_fold_star rev l o d t m ps :
  pairs (default [] (kvo_observers o !! "*")) = ps -> NoDup ps -> NoDup l ->
  exists es,
    trace (foldl (fun acc k => notify_key rev k acc) o l) = trace o ++ es /\
    star_invocations d t m es
    = (if bool_decide (d ∈ l /\ d <> "*" /\ (t, m) ∈ ps)
       then 1%nat else 0%nat).
Proof.
  intros Hstars Hnd. revert o Hstars.
  induction l as [|k l IH]; intros o Hstars Hl; cbn [foldl].
  { exists []. rewrite app_nil_r. split; [done|].
    rewrite bool_decide_eq_false_2; [done|]. by intros [?%elem_of_nil _]. }
  apply NoDup_cons in Hl as [Hk Hl].
  destruct (notify_key_star rev k o d t m ps Hstars Hnd)
    as (es1 & Ht1 & Hc1 & Hstars1).
  destruct (IH (notify_key rev k o) Hstars1 Hl) as (es2 & Ht2 & Hc2).
  exists (es1 ++ es2). split; [by rewrite Ht2, Ht1, app_assoc|].
  rewrite star_invocations_app, Hc1, Hc2.
  destruct (decide (d <> "*" /\ (t, m) ∈ ps)) as [Hyes|Hno].
  - destruct (decide (k = d)) as [->|E1].
    + rewrite (bool_decide_eq_true_2 (d = d /\ _)) by done.
      rewrite (bool_decide_eq_false_2 (d ∈ l /\ _)) by (by intros [? _]).
      rewrite bool_decide_eq_true_2; [done|]. split; [by left|done].
    + rewrite (bool_decide_eq_false_2 (k = d /\ _)) by (by intros [? _]).
      assert (d ∈ l /\ d <> "*" /\ (t, m) ∈ ps
              <-> d ∈ k :: l /\ d <> "*" /\ (t, m) ∈ ps) as Hiff.
      { split; [intros [? ?]; split; [by right|done]|].
        intros [[->|?]%elem_of_cons ?]; [by destruct E1|done]. }
      by rewrite (bool_decide_ext _ _ Hiff).
  - rewrite !bool_decide_eq_false_2; [done|..]; by intros [_ ?].
Qed.

(** The calls one flush makes for [d] to an observer of ['*']. *)
Lemma flush_star key o d t m :
  wf o -> NoDup (default [] (kvo_changes o)) ->
  exists es,
    trace (_notifyPropertyObservers key o) = trace o ++ es /\
    (notified key o d -> d <> "*" ->
     (t, m) ∈ pairs (default [] (kvo_observers o !! "*")) ->
     star_invocations d t m es = 1%nat) /\
    (~ notified key o d \/ d = "*" \/
     (t, m) ∉ pairs (default [] (kvo_observers o !! "*")) ->
     star_invocations d t m es = 0%nat).
Proof.
  intros Hwf Hnd.
  rewrite (flush_one_round key o Hwf).
  destruct (pending o || key_truthy key) eqn:Hrun.
  2:{ exists []. rewrite app_nil_r. split; [done|]. split; [|done].
      intros Hn. by destruct (not_notified_idle key o d Hrun). }
  set (o0 := with_changeLevel _ o).
  destruct (flush_round_shape key o0)
    as (cs1 & o1 & Ht & Ho & Ht1 & Hnd1 & Hin); [done|].
  destruct (notify_fold_star (propertyRevision o0) (reverse cs1) o1 d t m
              (pairs (default [] (kvo_observers o !! "*"))))
    as (es & Hes & Hc).
  { by rewrite Ho. }
  { destruct (kvo_observers o !! "*") as [stars|] eqn:Hstars.
    - by destruct (proj1 Hwf "*" stars Hstars).
    - constructor. }
  { by rewrite reverse_Permutation. }
  exists es. rewrite Ht, Hes, Ht1. split; [done|].
  assert (d ∈ reverse cs1 <-> notified key o d) as Hiff.
  { rewrite elem_of_reverse. apply Hin. }
  split.
  - intros Hn Hd Htm. rewrite Hc. rewrite bool_decide_eq_true_2; [done|].
    split; [by apply Hiff|done].
  - intros Hno. rewrite Hc. rewrite bool_decide_eq_false_2; [done|].
    intros (H & Hd & Htm). destruct Hno as [Hn|[->|Hn]]; [|done|done].
    by apply Hn, Hiff.
Qed.

(** A log that continues a trace is the same however it is named. *)
Lemma same_continuation {A} (l es es' : list A) (l' : list A) :
  l' = l ++ es -> l' = l ++ es' -> es = es'.
Proof. intros -> H. by apply app_inv_head in H. Qed.

(** X1.  What one call of [_notifyPropertyObservers(key)] does, on an
    object between calls, for a target and method registered on [d].
    When [d] is reached, through the table of dependents, from a pending
    key or from the key passed in (for ['*']: from any observed key), the
    method is called for [d] once as an observer of [d], and once more as
    an observer of ['*'] when the same target and method are registered on
    ['*'] too and [d] is not ['*'].  When [d] is not reached, the method is
    not called for [d], neither as an observer of [d] nor as an observer of
    ['*']. *)
Theorem flush_notifies_reached_keys (key : option string) (d : string)
    (t : option nat) (m : nat) (ms : list Member) (o : St) :
  settled o ->
  kvo_observers o !! d = Some ms -> (t, m) ∈ pairs ms ->
  exists es,
    trace (_notifyPropertyObservers key o) = trace o ++ es /\
    (notified key o d ->
     invocations d t m es = 1%nat /\
     star_invocations d t m es
     = if bool_decide (d <> "*" /\
                       (t, m) ∈ pairs (default [] (kvo_observers o !! "*")))
       then 1%nat else 0%nat) /\
    (~ notified key o d ->
     invocations d t m es = 0%nat /\ star_invocations d t m es = 0%nat).
Proof.
  intros (Hwf & Hnd & _) Hms Htm.
  destruct (flush_notified key o d t m ms Hwf Hnd Hms Htm)
    as (es & Hes & H1 & H0).
  destruct (flush_star key o d t m Hwf Hnd) as (es' & Hes' & S1 & S0).
  rewrite <- (same_continuation _ _ _ _ Hes Hes') in S1, S0.
  exists es. split; [done|]. split.
  - intros Hn. split; [by apply H1|]. case_bool_decide as Hs.
    + destruct Hs as [Hne Hin]. by apply S1.
    + apply S0. right.
      destruct (decide (d = "*")) as [->|Hd]; [by left|right].
      intros Hin. by apply Hs.
  - intros Hn. split; [by apply H0|]. apply S0. by left.
Qed.

(** X3.  [allPropertiesDidChange()], whatever the change level is (it
    ignores property groups), calls a target and method registered on a
    key [d] for [d] once as an observer of [d], and once more as an
    observer of ['*'] when they are registered on ['*'] too and [d] is not
    ['*']; a registration on ['*'] is called, besides, once for every
    other observed key.  The call leaves the level as it was and nothing
    pending. *)
Theorem allPropertiesDidChange_notifies_every_observer (d : string)
    (t : option nat) (m : nat) (ms : list Member) (o : St) :
  settled o ->
  kvo_observers o !! d = Some ms -> (t, m) ∈ pairs ms ->
  (exists es,
     trace (allPropertiesDidChange o) = trace o ++ es /\
     invocations d t m es = 1%nat /\
     star_invocations d t m es
     = (if bool_decide (d <> "*" /\
                        (t, m) ∈ pairs (default [] (kvo_observers o !! "*")))
        then 1%nat else 0%nat) /\
     (d = "*" ->
      forall k, k ∈ kvo_observed_keys o -> k <> "*" ->
                star_invocations k t m es = 1%nat)) /\
  pending (allPropertiesDidChange o) = false /\
  (0 <= level o -> level (allPropertiesDidChange o) = level o).
Proof.
  intros (Hwf & Hnd & Hcov) Hms Htm. unfold allPropertiesDidChange.
  split; [|split; [apply flush_quiescent|apply level_flush]].
  assert (forall k, k ∈ kvo_observed_keys o -> notified (Some "*") o k)
    as Hall.
  { intros k Hk. exists k. split; [|constructor].
    unfold round_changes. simpl. apply set_addEach_elem. by left. }
  assert (notified (Some "*") o d) as Hd.
  { apply Hall, (Hcov d ms Hms). intros ->. by apply elem_of_nil in Htm. }
  destruct (flush_notified (Some "*") o d t m ms) as (es & Hes & H1 & _);
    try done.
  exists es. split; [done|]. split; [by apply H1|]. split.
  - destruct (flush_star (Some "*") o d t m Hwf Hnd) as (es' & Hes' & S1 & S0).
    rewrite <- (same_continuation _ _ _ _ Hes Hes') in S1, S0.
    case_bool_decide as Hs.
    + destruct Hs as [Hne Hin]. by apply S1.
    + apply S0. right.
      destruct (decide (d = "*")) as [->|Hne]; [by left|right].
      intros Hin. by apply Hs.
  - intros -> k Hk Hne.
    destruct (flush_star (Some "*") o k t m Hwf Hnd) as (es' & Hes' & S1 & _).
    rewrite <- (same_continuation _ _ _ _ Hes Hes') in S1.
    apply S1; [by apply Hall|done|]. by rewrite Hms.
Qed.

(** What [addObserver] leaves in the registry: the pair is filed under the
    key, after the pairs that were there, the key is among the observed
    keys, and the batching state is as it was. *)
Lemma addObserver_files key target method o o1 :
  addObserver key target method o = Some o1 ->
  exists ms1,
    kvo_observers o1 !! key = Some ms1 /\
    (target, method) ∈ pairs ms1 /\
    (forall p, p ∈ pairs (default [] (kvo_observers o !! key)) ->
               p ∈ pairs ms1) /\
    key ∈ kvo_observed_keys o1 /\
    level o1 = level o /\ suspended o1 = suspended o /\
    kvo_dependents o1 = kvo_dependents o.
Proof.
  unfold addObserver. destruct (has_dot key); [done|]. cbv zeta.
  set (o' := if _ && _ then _ else o).
  assert (same_registry o o') as H1.
  { subst o'. destruct (_ && _);
      [apply same_registry_get|apply same_registry_refl]. }
  destruct (same_registry_fields o o' H1) as (El & Es & Ed & Eo & _).
  intros [= <-]. simpl. rewrite Eo.
  exists (observerSet_add target method (default [] (kvo_observers o !! key))).
  rewrite lookup_insert_eq. split; [done|].
  unfold observerSet_add, level. simpl. rewrite El, Es, Ed.
  split; [|split; [|split; [apply set_add_in; by left|done]]].
  - case_bool_decide as E; [done|].
    unfold pairs. rewrite fmap_app. apply elem_of_app. right. by left.
  - intros p Hp. case_bool_decide as E; [done|].
    unfold pairs in *. rewrite fmap_app. apply elem_of_app. by left.
Qed.

(** X6.  An observer added with [addObserver(key, target, method)], on an
    object between calls, is heard from then on, and the observers that
    were on the key before are heard as they were: the next
    [allPropertiesDidChange()], and the next [propertyDidChange(key)] made
    outside a batch while observing is not suspended, call the new
    registration for [key] exactly once and every earlier registration of
    [key] exactly once. *)
Theorem added_observer_is_notified (key : string) (target : option nat)
    (method : nat) (o o1 : St) :
  settled o ->
  addObserver key target method o = Some o1 ->
  (exists es,
     trace (allPropertiesDidChange o1) = trace o1 ++ es /\
     invocations key target method es = 1%nat /\
     forall t' m',
       (t', m') ∈ pairs (default [] (kvo_observers o !! key)) ->
       invocations key t' m' es = 1%nat) /\
  (level o = 0 -> suspended o = false -> key <> "" ->
   exists es,
     trace (propertyDidChange key o1) = trace o1 ++ es /\
     invocations key target method es = 1%nat /\
     forall t' m',
       (t', m') ∈ pairs (default [] (kvo_observers o !! key)) ->
       invocations key t' m' es = 1%nat).
Proof.
  intros Hs Hadd.
  pose proof (settled_addObserver key target method o o1 Hs Hadd) as Hs1.
  destruct (addObserver_files key target method o o1 Hadd)
    as (ms1 & Hms1 & Hnew & Hold & Hobs & El & Esus & Ed).
  split.
  - destruct Hs1 as (Hwf & Hnd & _).
    assert (notified (Some "*") o1 key) as Hn.
    { exists key. split; [|constructor].
      unfold round_changes. simpl. apply set_addEach_elem. by left. }
    unfold allPropertiesDidChange.
    destruct (flush_notified (Some "*") o1 key target method ms1)
      as (es & Hes & H1 & _); try done.
    exists es. split; [done|]. split; [by apply H1|].
    intros t' m' Hin.
    destruct (flush_notified (Some "*") o1 key t' m' ms1)
      as (es' & Hes' & H1' & _); try done; [by apply Hold|].
    rewrite (same_continuation _ _ _ _ Hes Hes'). by apply H1'.
  - intros Hl Hsus Hne.
    destruct (propertyDidChange_notifies key key target method ms1 o1)
      as (es & Hes & H1 & _); try done; [congruence..|constructor|].
    exists es. split; [done|]. split; [done|].
    intros t' m' Hin.
    destruct (propertyDidChange_notifies key key t' m' ms1 o1)
      as (es' & Hes' & H1' & _); try done;
      [congruence..|constructor|by apply Hold|].
    by rewrite (same_continuation _ _ _ _ Hes Hes').
Qed.

(** X4.  The state between calls is an invariant of the public calls:
    after any sequence of [get], [set], [setIfChanged],
    [beginPropertyChanges], [endPropertyChanges], [notifyPropertyChange],
    [allPropertiesDidChange], [addObserver] and [registerDependentKey] on a
    fresh object, every (target, method) pair is registered at most once
    per key and stamped with a revision older than [propertyRevision], the
    spare change set is empty, no key is pending twice, and every key with
    an observer is among the observed keys. *)
Theorem calls_keep_the_registry_settled (cs : list Call) (o : St) :
  perform_all cs fresh = Some o -> settled o.
Proof. apply settled_perform_all, settled_fresh. Qed.

(** *** What a flush does to the slots *)

Lemma clear_cache_undef k x o :
  slot o x = VUndef -> slot (clear_cache k o) x = VUndef.
Proof.
  intros H. unfold clear_cache. destruct (slot o k); try done.
  destruct (isCacheable f); [|done].
  destruct (decide (cacheKey f = x)) as [<-|Hne];
    [apply slot_write_eq|by rewrite slot_write_ne].
Qed.

Lemma add_keys_undef keys cs x o :
  slot o x = VUndef -> slot (add_keys keys (cs, o)).2 x = VUndef.
Proof.
  intros H. induction keys as [|k keys IH]; simpl; [done|].
  destruct (add_keys keys (cs, o)) as [cs' o']. simpl in *.
  by apply clear_cache_undef.
Qed.

Lemma add_dependents_undef fuel deps idx cs x o :
  slot o x = VUndef -> slot (add_dependents fuel deps idx cs o).2 x = VUndef.
Proof.
  revert idx cs o. induction fuel as [|fuel IH]; intros idx cs o H; simpl;
    [done|].
  destruct (cs !! idx) as [key|]; [|done].
  pose proof (add_keys_undef (default [] (deps !! key)) cs x o H) as Hk.
  destruct (add_keys (default [] (deps !! key)) (cs, o)) as [cs' o'].
  by apply IH.
Qed.

Lemma flush_round_undef key x o :
  slot o x = VUndef -> slot (flush_round key o) x = VUndef.
Proof.
  intros H. unfold flush_round. cbv zeta.
  set (o0 := with_altChanges None _).
  set (cs0 := match key with Some _ => _ | None => _ end).
  assert (slot o0 x = VUndef) as H0 by done.
  destruct (kvo_dependents o0) as [deps|].
  - pose proof (add_dependents_undef (dependents_fuel deps cs0) deps 0 cs0 x
                  o0 H0) as Hs.
    destruct (add_dependents _ deps 0 cs0 o0) as [cs1 o1]. simpl in Hs.
    unfold slot in *. simpl. by rewrite notify_all_slots.
  - unfold slot in *. simpl. by rewrite notify_all_slots.
Qed.

Lemma flush_loop_undef fuel key x o :
  slot o x = VUndef -> slot (flush_loop fuel key o) x = VUndef.
Proof.
  revert key o. induction fuel as [|fuel IH]; intros key o H; simpl; [done|].
  destruct (pending o || key_truthy key); [|done].
  by apply IH, flush_round_undef.
Qed.

Lemma flush_undef key x o :
  slot o x = VUndef -> slot (_notifyPropertyObservers key o) x = VUndef.
Proof.
  intros H. unfold _notifyPropertyObservers. cbv zeta.
  set (o0 := with_changeLevel _ o).
  assert (slot o0 x = VUndef) as H0 by done.
  exact (flush_loop_undef 3 key x o0 H0).
Qed.

(** X5.  [notifyPropertyChange(key)] on a cacheable function empties its
    cache slot and its last-set-value slot, whether the change is queued
    or flushed at once; if the function is a computed property (and no
    descriptor uses [key] itself as a slot key), the next [get(key)]
    invokes it again. *)
Theorem notifyPropertyChange_drops_cache (key : string) (value : Val)
    (f : FnDesc) (o : St) :
  slot o key = VFun f -> isCacheable f = true ->
  let o' := notifyPropertyChange key value o in
  slot o' (cacheKey f) = VUndef /\
  slot o' (lastSetValueKey f) = VUndef /\
  (isProperty f = true -> slots_avoid key o ->
   get key o'
   = (write (cacheKey f) (call_fn (fn_id f) o' key VUndef)
            (log [ECall (fn_id f) key VUndef] o'),
      call_fn (fn_id f) o' key VUndef)).
Proof.
  intros Hf Hc o'.
  assert (forall x, x = cacheKey f \/ x = lastSetValueKey f ->
                    slot o' x = VUndef) as Hx.
  { intros x Hx. subst o'.
    unfold notifyPropertyChange, propertyWillChange, propertyDidChange.
    cbv zeta. set (o1 := with_revision _ o).
    change (slot o1 key) with (slot o key). rewrite Hf, Hc.
    set (o2 := write _ _ _).
    assert (slot o2 x = VUndef) as H2.
    { subst o2. destruct (decide (cacheKey f = x)) as [<-|Hne];
        [apply slot_write_eq|].
      rewrite slot_write_ne by done. destruct Hx as [->| ->]; [done|].
      apply slot_write_eq. }
    destruct (0 <? _); [exact H2|].
    destruct (suspended o2); [exact H2|]. by apply flush_undef. }
  split; [apply Hx; by left|]. split; [apply Hx; by right|].
  intros Hp Hav.
  destruct (stable_propertyDidChange key key o Hav) as [_ Hk].
  apply get_cacheable_miss; try done.
  - subst o'. unfold notifyPropertyChange, propertyWillChange.
    by rewrite Hk.
  - apply Hx. by left.
Qed.

(** *** Registering observers and dependent keys *)

Lemma register_one_dependents key d o B :
  default [] (default ∅ (kvo_dependents (register_one key d o)) !! B)
  = default [] (default ∅ (kvo_dependents o) !! B)
    ++ (if bool_decide (d = B) then [key] else []).
Proof.
  unfold register_one. cbv zeta.
  set (deps := default ∅ (kvo_dependents o)).
  set (o1 := with_dependents _ o).
  assert (kvo_dependents
            (match slot o1 key with
             | VFun f =>
                 if isCacheable f
                 then with_cachedDependents
                        (Some (<[d := default []
                                        (default ∅ (kvo_cachedDependents o1)
                                           !! d) ++ [f]]>
                                 (default ∅ (kvo_cachedDependents o1)))) o1
                 else o1
             | _ => o1
             end) = kvo_dependents o1) as ->.
  { destruct (slot o1 key); try done. by destruct (isCacheable f). }
  simpl. case_bool_decide as E.
  - subst d. by rewrite lookup_insert_eq.
  - rewrite lookup_insert_ne by done. by rewrite app_nil_r.
Qed.

(** X9.  [registerDependentKey(key, ...)] pushes [key] on the dependents
    of every base key named, once for each time the base key is named:
    what was registered before stays in place and nothing is coalesced,
    so a dependency registered twice is listed twice. *)
Theorem registerDependentKey_appends (key : string) (args : list DepArg)
    (B : string) (o : St) :
  default [] (default ∅ (kvo_dependents (registerDependentKey key args o))
                !! B)
  = default [] (default ∅ (kvo_dependents o) !! B)
    ++ replicate (length (filter (fun d => d = B) (dep_keys args))) key.
Proof.
  rewrite registerDependentKey_fold.
  induction (dep_keys args) as [|d l IH]; simpl.
  - rewrite app_nil_r. by destruct (kvo_dependents o).
  - rewrite register_one_dependents, IH. rewrite filter_cons.
    rewrite <- app_assoc. f_equal.
    case_bool_decide as E.
    + rewrite decide_True by done. simpl. by rewrite replicate_cons_app.
    + rewrite decide_False by done. by rewrite app_nil_r.
Qed.

(** *** Reading back what was set *)

Lemma slot_lookup o k f : slot o k = VFun f -> slots o !! k = Some (VFun f).
Proof.
  unfold slot. destruct (slots o !! k) as [v|]; simpl; [by intros ->|done].
Qed.

Lemma slots_avoid_write key k x o :
  val_avoids key x -> slots_avoid key o -> slots_avoid key (write k x o).
Proof.
  intros Hx Ho k' g. unfold write. simpl.
  destruct (decide (k = k')) as [<-|Hne].
  - rewrite lookup_insert_eq. intros [= ->]. exact Hx.
  - rewrite lookup_insert_ne by done. apply Ho.
Qed.

(** X8.  [set(key, value)] leaves every other slot [k'] as it was, when
    [k'] is not one of the members in which the mixin keeps its own state
    ([propertyRevision], which the flush increments, and the names that
    begin with [_kvo_], which [set] and the flush write), unless [k'] is
    used as a cache or last-set-value key by a descriptor held in the
    object, passed in, returned by a property function or registered as a
    cached dependent of [key]. *)
Theorem set_leaves_other_slots (key k' : string) (value : Val) (o : St) :
  k' <> key -> bookkeeping k' = false ->
  slots_avoid k' o -> val_avoids k' value ->
  (forall id o' k x, val_avoids k' (call_fn id o' k x)) ->
  (forall g, g ∈ cached_dependents o key -> avoids k' g) ->
  slot (set key value o) k' = slot o k'.
Proof.
  intros Hne _ Hav Hval Hcall Hcd. unfold set. cbv zeta.
  set (notify := automaticallyNotifiesObserversFor key).
  assert (stable k' o (set_value notify key value o)) as Hst.
  { unfold set_value. destruct (slot o key) eqn:E;
      try (by apply stable_set_plain).
    - by apply stable_set_unknown.
    - destruct (isProperty f); [|by apply stable_set_plain].
      apply stable_set_computed; [done| |done]. by apply slot_lookup. }
  destruct (Hst Hav) as [_ <-].
  apply clear_cached_dependents_other. intros g Hg. apply Hcd.
  unfold cached_dependents in *.
  by rewrite set_value_cachedDependents in Hg.
Qed.

(** What [set] leaves under a key that is not computed. *)
Lemma set_writes_slot key value o :
  (forall f, slot o key = VFun f -> isProperty f = false) ->
  slots_avoid key o -> val_avoids key value ->
  (forall g, g ∈ cached_dependents o key -> avoids key g) ->
  slot (set key value o) key = value /\
  slots_avoid key (set key value o) /\
  cached_dependents (set key value o) key = cached_dependents o key.
Proof.
  intros Hplain Hav Hval Hcd. unfold set. cbv zeta.
  set (notify := automaticallyNotifiesObserversFor key).
  assert (forall g, g ∈ cached_dependents (set_value notify key value o) key
                    -> avoids key g) as Hcd'.
  { intros g Hg. apply Hcd. unfold cached_dependents in *.
    by rewrite set_value_cachedDependents in Hg. }
  assert (slots_avoid key (set_value notify key value o) /\
          slot (set_value notify key value o) key = value) as [Ha Hs].
  { assert (forall o1,
              slots_avoid key o1 -> slot o1 key = value ->
              slots_avoid key
                (if notify
                 then propertyDidChange key (log [EDidChange key] o1)
                 else o1) /\
              slot (if notify
                    then propertyDidChange key (log [EDidChange key] o1)
                    else o1) key = value) as Hfin.
    { intros o1 H1 E1. destruct notify; [|done].
      destruct (stable_propertyDidChange key key (log [EDidChange key] o1))
        as [? ->]; done. }
    assert (forall o1,
              slots_avoid key o1 ->
              slots_avoid key (if notify
                               then log [EWillChange key]
                                        (propertyWillChange key o1)
                               else o1)) as Hwill.
    { intros o1 H1. by destruct notify. }
    assert (slots_avoid key (set_plain notify key value o) /\
            slot (set_plain notify key value o) key = value) as Hp.
    { unfold set_plain. case_bool_decide as E; [done|].
      apply Hfin; [|apply slot_write_eq].
      by apply slots_avoid_write, Hwill. }
    unfold set_value. destruct (slot o key) eqn:E; try exact Hp.
    - unfold set_unknown, unknownProperty. simpl.
      apply Hfin.
      + case_bool_decide; [by apply Hwill|].
        by apply slots_avoid_write, Hwill.
      + case_bool_decide as Ev; [|apply slot_write_eq].
        subst value. by destruct notify.
    - by rewrite (Hplain f eq_refl). }
  destruct (stable_clear_cached_dependents key key
              (set_value notify key value o) Hcd' Ha) as [Ha' Hs'].
  split; [by rewrite Hs'|]. split; [done|].
  rewrite clear_cached_dependents_only_slots. unfold cached_dependents.
  simpl. by rewrite set_value_cachedDependents.
Qed.

(** X7.  Reading back: after [set(key, value)] on a property that is not
    computed, with a value that is not a computed-property function,
    [get(key)] returns [value] and changes nothing.  The key is not used
    as a cache or last-set-value key. *)
Theorem get_after_set (key : string) (value : Val) (o : St) :
  (forall f, slot o key = VFun f -> isProperty f = false) ->
  (forall f, value = VFun f -> isProperty f = false) ->
  slots_avoid key o -> val_avoids key value ->
  (forall g, g ∈ cached_dependents o key -> avoids key g) ->
  get key (set key value o) = (set key value o, value).
Proof.
  intros Hplain Hvalue Hav Hval Hcd.
  destruct (set_writes_slot key value o Hplain Hav Hval Hcd) as (Hs & _ & _).
  unfold get. rewrite Hs. destruct value; try done.
  by rewrite (Hvalue f eq_refl).
Qed.

(** X10.  On a defined property that is not computed, [setIfChanged] and
    [set] agree when the value differs from the stored one; when it is
    identical, [setIfChanged] leaves the object untouched, whereas [set]
    still empties the slots of the cached dependents of the key. *)
Theorem setIfChanged_against_set (key : string) (value : Val) (o : St) :
  slot o key <> VUndef ->
  (forall f, slot o key = VFun f -> isProperty f = false) ->
  (slot o key <> value -> setIfChanged key value o = set key value o) /\
  (slot o key = value ->
   setIfChanged key value o = o /\
   set key value o = clear_cached_dependents key o).
Proof.
  intros Hdef Hplain.
  assert (get key o = (o, slot o key)) as Hg.
  { unfold get. destruct (slot o key) eqn:E; try done.
    by rewrite (Hplain f eq_refl). }
  unfold setIfChanged. rewrite Hg. split.
  - intros Hne. by rewrite bool_decide_eq_false_2.
  - intros He. rewrite bool_decide_eq_true_2 by done. split; [done|].
    unfold set. cbv zeta. f_equal. unfold set_value.
    assert (set_plain (automaticallyNotifiesObserversFor key) key value o = o)
      as Hp.
    { unfold set_plain. by rewrite bool_decide_eq_true_2. }
    destruct (slot o key) eqn:E; try done.
    by rewrite (Hplain f eq_refl).
Qed.

(** *** Counters *)

Lemma get_plain key o :
  (forall f, slot o key = VFun f -> isProperty f = false) ->
  get key o = (o, slot o key).
Proof.
  intros Hplain. unfold get, unknownProperty.
  destruct (slot o key) eqn:E; try done. by rewrite (Hplain f eq_refl).
Qed.

(** A step of a counter: the common part of [incrementProperty] and
    [decrementProperty] on a slot that counts as [n]. *)
Lemma counter_step key (n n' : Z) o :
  counts_as (slot o key) n ->
  slots_avoid key o ->
  (forall g, g ∈ cached_dependents o key -> avoids key g) ->
  let o1 := set key (VNum n') o in
  get key o = (o, slot o key) /\
  get key o1 = (o1, VNum n') /\
  slot o1 key = VNum n' /\
  slots_avoid key o1 /\
  (forall g, g ∈ cached_dependents o1 key -> avoids key g).
Proof.
  intros Hc Hav Hcd o1.
  assert (forall f, slot o key = VFun f -> isProperty f = false) as Hplain.
  { intros f E. rewrite E in Hc. by destruct Hc as [?|[_ ?]]. }
  destruct (set_writes_slot key (VNum n') o Hplain Hav I Hcd)
    as (Hs & Ha & Hd).
  split; [by apply get_plain|]. split; [|split; [done|split; [done|]]].
  - subst o1. unfold get. by rewrite Hs.
  - subst o1. by rewrite Hd.
Qed.

Lemma plus_one_counts v n :
  counts_as v n -> safe_integer n = true -> plus_one v = Some (VNum (n + 1)).
Proof.
  intros [->|[-> Hf]] Hn; unfold plus_one.
  - simpl. destruct (n =? 0) eqn:E; simpl; [|by rewrite Hn].
    apply Z.eqb_eq in E as ->. done.
  - by rewrite Hf.
Qed.

Lemma minus_one_counts v n :
  counts_as v n -> safe_integer n = true -> minus_one v = Some (VNum (n - 1)).
Proof.
  intros [->|[-> Hf]] Hn; unfold minus_one.
  - simpl. destruct (n =? 0) eqn:E; simpl; [|by rewrite Hn].
    apply Z.eqb_eq in E as ->. done.
  - by rewrite Hf.
Qed.

(** X11.  On a property that is not computed and holds the number [n] (or
    a falsy value, which counts as 0), [incrementProperty(key)] returns
    [n + 1] and stores it, and [decrementProperty(key)] then returns [n]
    and stores it: the two undo each other.  The numbers stay in the range
    JavaScript holds exactly, and the key is not used as a cache or
    last-set-value key. *)
Theorem increment_then_decrement (key : string) (n : Z) (o : St) :
  counts_as (slot o key) n ->
  safe_integer n = true -> safe_integer (n + 1) = true ->
  slots_avoid key o ->
  (forall g, g ∈ cached_dependents o key -> avoids key g) ->
  exists o1 o2,
    incrementProperty key o = Some (o1, VNum (n + 1)) /\
    slot o1 key = VNum (n + 1) /\
    decrementProperty key o1 = Some (o2, VNum n) /\
    slot o2 key = VNum n.
Proof.
  intros Hc Hn Hn1 Hav Hcd.
  pose proof (counter_step key n (n + 1) o Hc Hav Hcd) as H1.
  cbv zeta in H1. destruct H1 as (Hg & Hg1 & Hs1 & Ha1 & Hcd1).
  assert (counts_as (slot (set key (VNum (n + 1)) o) key) (n + 1)) as Hc1
    by (left; exact Hs1).
  pose proof (counter_step key (n + 1) n _ Hc1 Ha1 Hcd1) as H2.
  cbv zeta in H2. destruct H2 as (Hg' & Hg2 & Hs2 & _ & _).
  exists (set key (VNum (n + 1)) o),
         (set key (VNum n) (set key (VNum (n + 1)) o)).
  split; [|split; [done|split; [|done]]].
  - unfold incrementProperty. rewrite Hg.
    rewrite (plus_one_counts _ n Hc Hn). by rewrite Hg1.
  - unfold decrementProperty. rewrite Hg'.
    rewrite (minus_one_counts _ (n + 1) Hc1 Hn1).
    replace (n + 1 - 1) with n by lia. by rewrite Hg2.
Qed.

(** *** didChangeFor *)

Lemma didChange_fold_registry rev seenValues keys ret seen o :
  same_registry o
    (foldr (didChange_key rev seenValues) (ret, seen, o) keys).2.
Proof.
  induction keys as [|k keys IH]; simpl; [apply same_registry_refl|].
  destruct (foldr (didChange_key rev seenValues) (ret, seen, o) keys)
    as [[r s] o1]. simpl in *. case_bool_decide; simpl; [done|].
  pose proof (same_registry_get k o1) as Hg.
  destruct (get k o1) as [o2 v]. simpl in *.
  by apply (same_registry_trans o o1).
Qed.

Lemma didChange_fold_revisions rev seenValues keys ret seen o k :
  k ∈ keys ->
  (foldr (didChange_key rev seenValues) (ret, seen, o) keys).1.2 !! k
  = Some rev.
Proof.
  induction keys as [|k' keys IH]; intros Hk; [by apply elem_of_nil in Hk|].
  simpl.
  destruct (foldr (didChange_key rev seenValues) (ret, seen, o) keys)
    as [[r s] o1]. simpl in *.
  assert (forall (x : bool * St),
            (let '(ret0, o0) := x in (ret0, <[k' := rev]> s, o0)).1.2 !! k
            = Some rev) as Hx.
  { intros [r0 o0]. simpl. destruct (decide (k' = k)) as [->|Hne].
    - by rewrite lookup_insert_eq.
    - rewrite lookup_insert_ne by done. apply IH.
      apply elem_of_cons in Hk as [->|Hk]; done. }
  apply Hx.
Qed.

Lemma didChange_fold_skip rev seenValues keys ret seen o :
  (forall k, k ∈ keys -> seen !! k = Some rev) ->
  (foldr (didChange_key rev seenValues) (ret, seen, o) keys).1.1 = ret.
Proof.
  intros Hall.
  assert ((foldr (didChange_key rev seenValues) (ret, seen, o) keys).1.1 = ret
          /\ forall k, k ∈ keys ->
               (foldr (didChange_key rev seenValues) (ret, seen, o) keys).1.2
                 !! k = Some rev) as [H _]; [|exact H].
  induction keys as [|k keys IH]; simpl.
  { split; [done|]. by intros k ?%elem_of_nil. }
  destruct IH as [IH1 IH2].
  { intros k' Hk'. apply Hall. by right. }
  destruct (foldr (didChange_key rev seenValues) (ret, seen, o) keys)
    as [[r s] o1] eqn:E. simpl in *.
  assert (s !! k = Some rev) as Hk.
  { destruct (decide (k ∈ keys)) as [Hin|Hnin]; [by apply IH2|].
    assert (forall l, k ∉ l ->
              (foldr (didChange_key rev seenValues) (ret, seen, o) l).1.2 !! k
              = seen !! k) as Hsame.
    { clear. intros l Hl. induction l as [|k' l IHl]; [done|].
      apply not_elem_of_cons in Hl as [Hne Hl]. simpl.
      destruct (foldr (didChange_key rev seenValues) (ret, seen, o) l)
        as [[r s] o1]. simpl in *.
      assert (forall (x : bool * St),
                (let '(ret0, o0) := x in (ret0, <[k' := rev]> s, o0)).1.2 !! k
                = seen !! k) as Hx.
      { intros [r0 o0]. simpl. rewrite lookup_insert_ne by done.
        by apply IHl. }
      apply Hx. }
    specialize (Hsame keys Hnin). rewrite E in Hsame. simpl in Hsame.
    rewrite Hsame. apply Hall. by left. }
  rewrite bool_decide_eq_true_2 by done. simpl. split; [done|].
  intros k' Hk'. destruct (decide (k = k')) as [->|Hne].
  - by rewrite lookup_insert_eq.
  - rewrite lookup_insert_ne by done. apply IH2.
    apply elem_of_cons in Hk' as [->|Hk']; done.
Qed.

(** X12.  Two calls of [didChangeFor] with the same context and keys and
    no change of the object in between: the second returns [false],
    whatever the first returned and whatever the caches held before. *)
Theorem didChangeFor_again_is_false (context : string) (keys : list string)
    (c : Seen) (o : St) :
  (didChangeFor context keys (didChangeFor context keys c o).1.2
                (didChangeFor context keys c o).2).1.1 = false.
Proof.
  unfold didChangeFor at 2 3. cbv zeta.
  set (sv := default ∅ (valueCache c !! context)).
  set (sr := default ∅ (revisionCache c !! context)).
  set (rev := js_or (kvo_revision o) 0).
  pose proof (didChange_fold_registry rev sv keys false sr o) as Hreg.
  pose proof (fun k => didChange_fold_revisions rev sv keys false sr o k)
    as Hrev.
  destruct (foldr (didChange_key rev sv) (false, sr, o) keys)
    as [[r s] o1]. simpl in *.
  unfold didChangeFor. cbv zeta. simpl.
  rewrite !lookup_insert_eq. simpl.
  assert (js_or (kvo_revision o1) 0 = rev) as ->.
  { rewrite Hreg. done. }
  pose proof (didChange_fold_skip rev sv keys false s o1 Hrev) as Hskip.
  destruct (foldr (didChange_key rev sv) (false, s, o1) keys)
    as [[r' s'] o2]. simpl in *. exact Hskip.
Qed.

Lemma values_empty_lookup c context :
  values_empty c -> default ∅ (valueCache c !! context) = ∅.
Proof.
  intros H. destruct (valueCache c !! context) as [m|] eqn:E; [|done].
  exact (H context m E).
Qed.

(** X13.  [didChangeFor] never records a value: the values seen stay
    empty.  For properties that are not computed, whenever the revision of
    the object has moved since the keys were last looked at, the call
    returns [true] exactly when one of the keys holds a value other than
    [undefined], whether or not that value changed. *)
Theorem didChangeFor_after_a_change (context : string) (keys : list string)
    (c : Seen) (o : St) :
  values_empty c ->
  (forall k f, k ∈ keys -> slot o k = VFun f -> isProperty f = false) ->
  (forall k, k ∈ keys ->
             default ∅ (revisionCache c !! context) !! k
             <> Some (js_or (kvo_revision o) 0)) ->
  ((didChangeFor context keys c o).1.1 = true <->
   exists k, k ∈ keys /\ slot o k <> VUndef) /\
  (didChangeFor context keys c o).2 = o /\
  values_empty (didChangeFor context keys c o).1.2.
Proof.
  intros Hve Hplain Hrev. unfold didChangeFor. cbv zeta.
  rewrite (values_empty_lookup c context Hve).
  set (sr := default ∅ (revisionCache c !! context)) in *.
  set (rev := js_or (kvo_revision o) 0) in *.
  assert ((((foldr (didChange_key rev ∅) (false, sr, o) keys).1.1 = true <->
            exists k, k ∈ keys /\ slot o k <> VUndef) /\
           (foldr (didChange_key rev ∅) (false, sr, o) keys).2 = o) /\
          forall k,
            (foldr (didChange_key rev ∅) (false, sr, o) keys).1.2 !! k
            = if bool_decide (k ∈ keys) then Some rev else sr !! k) as H.
  { induction keys as [|k keys IH].
    { cbn [foldr fst snd]. split; [split; [|done]|].
      - split; [done|]. by intros (k & ?%elem_of_nil & _).
      - intros k. rewrite bool_decide_eq_false_2; [done|].
        by intros ?%elem_of_nil. }
    cbn [foldr].
    destruct IH as [[IHr IHo] IHs].
    { intros k' f Hk'. apply Hplain. by right. }
    { intros k' Hk'. apply Hrev. by right. }
    destruct (foldr (didChange_key rev ∅) (false, sr, o) keys)
      as [[r s] o1]. simpl in *. subst o1.
    assert (forall k' (x : bool * St),
              (let '(ret0, o0) := x in (ret0, <[k := rev]> s, o0)).1.2 !! k'
              = if bool_decide (k' ∈ k :: keys) then Some rev else sr !! k')
      as Hs.
    { intros k' [r0 o0]. simpl. destruct (decide (k = k')) as [->|Hne].
      - rewrite lookup_insert_eq. rewrite bool_decide_eq_true_2; [done|].
        by left.
      - rewrite lookup_insert_ne by done. rewrite IHs.
        assert (k' ∈ keys <-> k' ∈ k :: keys) as Hiff.
        { split; [by right|]. by intros [->|?]%elem_of_cons. }
        by rewrite (bool_decide_ext _ _ Hiff). }
    split; [|intros k'; apply Hs].
    specialize (IHs k). case_bool_decide as Hin.
    - rewrite IHs. rewrite bool_decide_eq_true_2 by done. simpl.
      split; [|done]. rewrite IHr. split.
      + intros (k' & Hk' & Hv). exists k'. split; [by right|done].
      + intros (k' & Hk' & Hv).
        apply elem_of_cons in Hk' as [->|Hk']; [by exists k|by exists k'].
    - assert (s !! k <> Some rev) as Hne.
      { rewrite IHs. apply Hrev. by left. }
      rewrite bool_decide_eq_false_2 by done.
      rewrite (get_plain k o) by (intros f; apply Hplain; by left).
      rewrite lookup_empty. simpl. split; [|done].
      case_bool_decide as Ev.
      + rewrite IHr. split.
        * intros (k' & Hk' & Hv). exists k'. split; [by right|done].
        * intros (k' & Hk' & Hv).
          apply elem_of_cons in Hk' as [->|Hk']; [by destruct Hv|by exists k'].
      + split; [|done]. intros _. exists k. split; [by left|done]. }
  destruct H as [[Hr Ho] _].
  destruct (foldr (didChange_key rev ∅) (false, sr, o) keys)
    as [[r s] o1]. simpl in *.
  split; [done|]. split; [done|].
  unfold values_empty. simpl. by apply map_Forall_insert_2.
Qed.

(** X23.  [toggleProperty(key)] on a property that is not computed and
    holds a boolean stores and returns its negation, so two calls restore
    the value; on a property that is [undefined] or [null] the first call
    stores [true].  The key is not used as a cache or last-set-value
    key. *)
Theorem toggleProperty_flips (key : string) (b : bool) (o : St) :
  slot o key = VBool b \/
  (b = false /\ (slot o key = VUndef \/ slot o key = VNull)) ->
  slots_avoid key o ->
  (forall g, g ∈ cached_dependents o key -> avoids key g) ->
  exists o1 o2,
    toggleProperty key VUndef VUndef o = Some (o1, VBool (negb b)) /\
    slot o1 key = VBool (negb b) /\
    toggleProperty key VUndef VUndef o1 = Some (o2, VBool b) /\
    slot o2 key = VBool b.
Proof.
  intros Hb Hav Hcd.
  assert (forall f, slot o key = VFun f -> isProperty f = false) as Hplain.
  { intros f E. rewrite E in Hb. by destruct Hb as [?|[_ [?|?]]]. }
  destruct (set_writes_slot key (VBool (negb b)) o Hplain Hav I Hcd)
    as (Hs1 & Ha1 & Hd1).
  set (o1 := set key (VBool (negb b)) o) in *.
  assert (forall f, slot o1 key = VFun f -> isProperty f = false) as Hplain1.
  { intros f E. by rewrite Hs1 in E. }
  assert (forall g, g ∈ cached_dependents o1 key -> avoids key g) as Hcd1.
  { intros g Hg. apply Hcd. by rewrite <- Hd1. }
  destruct (set_writes_slot key (VBool b) o1 Hplain1 Ha1 I Hcd1)
    as (Hs2 & _ & _).
  exists o1, (set key (VBool b) o1).
  split; [|split; [done|split; [|done]]].
  - unfold toggleProperty. simpl. rewrite (get_plain key o Hplain).
    assert (loose_eq (slot o key) (VBool true) = Some b) as ->.
    { destruct Hb as [->|[-> [->| ->]]]; [by destruct b|done|done]. }
    assert ((if b then VBool false else VBool true) = VBool (negb b)) as ->
      by (by destruct b).
    fold o1. unfold get. by rewrite Hs1.
  - unfold toggleProperty. simpl. rewrite (get_plain key o1 Hplain1), Hs1.
    assert (loose_eq (VBool (negb b)) (VBool true) = Some (negb b)) as ->
      by (by destruct b).
    assert ((if negb b then VBool false else VBool true) = VBool b) as ->
      by (by destruct b).
    unfold get. by rewrite Hs2.
Qed.

(** X24.  A batch inside a batch.  After two [beginPropertyChanges()] and
    any number of [set(key, ...)], the first [endPropertyChanges()] only
    lowers the level: it invokes nobody and the changes stay pending.  The
    second one, which brings the level to 0, flushes: every observer
    registered on [key] is invoked exactly once. *)
Theorem nested_batch_flushes_at_the_outermost_end (key : string)
    (vs : list Val) (t : option nat) (m : nat) (ms : list Member) (o : St) :
  wf o -> level o = 0 -> pending o = false ->
  kvo_observers o !! key = Some ms -> (t, m) ∈ pairs ms ->
  pending (nested_batch key vs o) = true ->
  let o1 := endPropertyChanges (nested_batch key vs o) in
  level o1 = 1 /\ pending o1 = true /\
  invocations key t m (trace o1) = invocations key t m (trace o) /\
  exists es,
    trace (endPropertyChanges o1) = trace o1 ++ es /\
    invocations key t m es = 1%nat /\
    level (endPropertyChanges o1) = 0 /\
    pending (endPropertyChanges o1) = false.
Proof.
  intros Hwf Hlevel Hquiet Hms Htm Hpend o1.
  set (ob := beginPropertyChanges (beginPropertyChanges o)).
  assert (kvo_changeLevel ob = Some 2) as Hlb.
  { subst ob. unfold beginPropertyChanges. simpl.
    rewrite js_or_zero. fold (level o). by rewrite Hlevel. }
  assert (batched key ob (nested_batch key vs o)) as Hb.
  { apply (batched_sets key vs ob). by rewrite Hlb. }
  destruct Hb as (L & O & R & A & (es0 & T0 & F0) & C & N).
  assert (default [] (kvo_changes ob) = []) as Hc0.
  { subst ob. simpl. by apply pending_false_changes. }
  rewrite Hc0 in C, N.
  assert (o1 = with_changeLevel (Some 1) (nested_batch key vs o)) as E1.
  { subst o1. unfold endPropertyChanges. cbv zeta. by rewrite L, Hlb. }
  assert (key ∈ default [] (kvo_changes o1)) as Hin.
  { rewrite E1. simpl. unfold pending in Hpend.
    destruct (kvo_changes (nested_batch key vs o)) as [[|c cs]|]; try done.
    simpl in *. destruct (C c) as [->|Hc]; [by left|by left|].
    by apply elem_of_nil in Hc. }
  assert (wf o1 /\ NoDup (default [] (kvo_changes o1))) as [Hwf1 Hnd1].
  { rewrite E1. split.
    - apply (wf_same o); [| | |done].
      + change (kvo_observers (nested_batch key vs o) = kvo_observers ob).
        exact O.
      + change (propertyRevision (nested_batch key vs o)
                = propertyRevision ob). exact R.
      + change (kvo_altChanges (nested_batch key vs o) = kvo_altChanges ob).
        exact A.
    - apply N, NoDup_nil_2. }
  split; [by rewrite E1|]. split; [by rewrite E1|]. split.
  { rewrite E1. simpl. rewrite T0. change (trace ob) with (trace o).
    by rewrite invocations_app, (invocations_quiet _ _ _ es0 F0), Nat.add_0_r. }
  assert (pending o1 = true) as Hp1 by (by rewrite E1).
  assert (endPropertyChanges o1
          = _notifyPropertyObservers None
              (with_changeLevel (Some 0) o1)) as E2.
  { assert (kvo_changeLevel o1 = Some 1) as Hl1 by (by rewrite E1).
    unfold endPropertyChanges. cbv zeta. rewrite Hl1.
    change (js_or (Some 1) 1 - 1) with 0.
    set (o2 := with_changeLevel (Some 0) o1).
    change (default 0 (kvo_changeLevel o2)) with 0.
    change (pending o2) with (pending o1). by rewrite Hp1. }
  rewrite E2.
  destruct (flush_notified None (with_changeLevel (Some 0) o1) key t m ms)
    as (es & Hes & H1 & _); try done.
  { simpl. rewrite E1. simpl. by rewrite O. }
  exists es. split; [exact Hes|]. split; [|split; [|apply flush_quiescent]].
  - apply H1. exists key. split; [exact Hin|constructor].
  - by rewrite level_flush.
Qed.

(** X26.  An observer registered on ['*'] hears of every key: one call of
    [_notifyPropertyObservers(key)] on an object between calls invokes it
    exactly once for each key [d] that the flush reaches (a pending key,
    the key passed in, or a key that depends on one of them) and not at
    all for a key it does not reach. *)
Theorem star_observers_hear_every_key (key : option string) (d : string)
    (t : option nat) (m : nat) (stars : list Member) (o : St) :
  settled o ->
  kvo_observers o !! "*" = Some stars -> (t, m) ∈ pairs stars ->
  d <> "*" ->
  exists es,
    trace (_notifyPropertyObservers key o) = trace o ++ es /\
    (notified key o d -> star_invocations d t m es = 1%nat) /\
    (~ notified key o d -> star_invocations d t m es = 0%nat).
Proof.
  intros (Hwf & Hnd & _) Hstars Htm Hd.
  destruct (flush_star key o d t m Hwf Hnd) as (es & Hes & S1 & S0).
  exists es. split; [done|]. split.
  - intros Hn. apply S1; [done..|]. by rewrite Hstars.
  - intros Hn. apply S0. by left.
Qed.

End Operations.

(** The batch [begin; didChange x; end; end; flush; end] on a fresh object. *)
Lemma changeLevel_never_negative_witness :
  0 <= level fresh /\
  0 <= level (run [OpBegin; OpDidChange "x"; OpEnd; OpEnd; OpFlush None;
                   OpEnd] fresh).
Proof.
  assert (0 <= level fresh) as H by done.
  split; [exact H|].
  apply (proj1 (changeLevel_never_negative fresh H)).
Defined.

Lemma propertyDidChange_revision_plus_one_witness :
  queues (beginPropertyChanges fresh) = true /\
  revision (propertyDidChange "x" (beginPropertyChanges fresh)) = 1 /\
  exists cs,
    kvo_changes (propertyDidChange "x" (beginPropertyChanges fresh)) = Some cs
    /\ "x" ∈ cs.
Proof.
  assert (queues (beginPropertyChanges fresh) = true) as Hq by reflexivity.
  destruct (propertyDidChange_revision_plus_one "x"
              (beginPropertyChanges fresh)) as [Hr Hc].
  split; [exact Hq|]. split; [exact Hr|]. exact (Hc Hq).
Defined.

(** Three reads of a property whose function returns [undefined]: three
    invocations. *)
Lemma get_never_caches_undefined_witness :
  (gets (returns VUndef) "P" 3 example_obj).2 = [VUndef; VUndef; VUndef] /\
  trace (gets (returns VUndef) "P" 3 example_obj).1
    = [ECall 1 "P" VUndef; ECall 1 "P" VUndef; ECall 1 "P" VUndef].
Proof.
  destruct (get_never_caches_undefined (returns VUndef) "P" fP 3 example_obj)
    as (Hr & Ht & _);
    [reflexivity|reflexivity|reflexivity|discriminate|reflexivity
    |reflexivity|].
  split; [exact Hr|exact Ht].
Defined.

(** With a function that returns 7: recomputed once after [set(B, 2)],
    then served from the cache. *)
Lemma cached_dependent_recomputed_then_cached_witness :
  let o1 := set (returns (VNum 7)) always_notify "B" (VNum 2) example_obj in
  slot o1 "__cache__P" = VUndef /\
  (get (returns (VNum 7)) "P" o1).2 = VNum 7 /\
  gets (returns (VNum 7)) "P" 2 (get (returns (VNum 7)) "P" o1).1
    = ((get (returns (VNum 7)) "P" o1).1, [VNum 7; VNum 7]).
Proof.
  intros o1. subst o1.
  destruct (cached_dependent_recomputed_then_cached
              (returns (VNum 7)) always_notify "P" "B" fP (VNum 2)
              example_obj) as (Hc & _ & Hg & Hn).
  - reflexivity.
  - reflexivity.
  - reflexivity.
  - apply (bool_decide_unpack _). vm_compute. exact I.
  - apply slots_avoid_check. apply (bool_decide_unpack _).
    vm_compute. exact I.
  - apply Forall_forall. apply (bool_decide_unpack _). vm_compute. exact I.
  - exact I.
  - intros. exact I.
  - split; [exact Hc|]. split; [by rewrite Hg|].
    apply (Hn ltac:(discriminate) 2%nat).
Defined.

(** C2 as stated fails when the function of [P] returns [undefined]: the
    [get(P)] that follows the recomputing one invokes the function again. *)
Lemma cached_dependent_undefined_recomputed_again :
  let o1 := set (returns VUndef) always_notify "B" (VNum 2) example_obj in
  let o2 := (get (returns VUndef) "P" o1).1 in
  trace o2 = [EWillChange "B"; EDidChange "B"; ECall 1 "P" VUndef] /\
  trace (get (returns VUndef) "P" o2).1
    = [EWillChange "B"; EDidChange "B"; ECall 1 "P" VUndef;
       ECall 1 "P" VUndef].
Proof. vm_compute. split; reflexivity. Qed.

(** [observed_obj] is what two calls of [addObserver] make of an object
    that has the property [x]. *)
Example observed_obj_registered :
  addObserver (returns VUndef) "x" None 10%nat (write "x" (VNum 0) fresh)
    ≫= addObserver (returns VUndef) "x" (Some 2%nat) 11%nat
  = Some observed_obj.
Proof. vm_compute. reflexivity. Qed.

(** Three [set] calls on [x] inside one batch: the observer [(2, 11)] is
    invoked once by the flush that ends it. *)
Lemma batch_notifies_each_observer_once_witness :
  let o1 := batch (returns VUndef) always_notify "x"
                  [VNum 1; VNum 2; VNum 1] observed_obj in
  pending o1 = true /\
  exists es,
    trace (endPropertyChanges o1) = trace o1 ++ es /\
    invocations "x" (Some 2%nat) 11%nat es = 1%nat.
Proof.
  intros o1. subst o1.
  assert (pending (batch (returns VUndef) always_notify "x"
                     [VNum 1; VNum 2; VNum 1] observed_obj) = true) as Hp.
  { vm_compute. reflexivity. }
  split; [exact Hp|].
  apply (batch_notifies_each_observer_once (returns VUndef) always_notify
           "x" [VNum 1; VNum 2; VNum 1] (Some 2%nat) 11%nat
           [mkMember None 10%nat None; mkMember (Some 2%nat) 11%nat None]
           observed_obj).
  - split; [|by left].
    apply (bool_decide_unpack _). vm_compute. exact I.
  - reflexivity.
  - reflexivity.
  - vm_compute. reflexivity.
  - apply (bool_decide_unpack _). vm_compute. exact I.
  - exact Hp.
Defined.

(** A [set] that repeats the stored value records no change: the batch
    ends without a flush and nobody is invoked. *)
Example batch_without_change_is_silent :
  let o1 := batch (returns VUndef) always_notify "x" [VNum 0] observed_obj in
  pending o1 = false /\ trace (endPropertyChanges o1) = [].
Proof. vm_compute. split; reflexivity. Qed.

(** With notification suppressed for [P]: the value is recorded and the
    result cached. *)
Lemma set_computed_property_witness :
  let o1 := set (returns (VNum 9)) (notify_except "P") "P" (VNum 5)
                example_obj in
  trace o1 = [ECall 1%nat "P" (VNum 5)] /\
  slot o1 "__lastValue__P" = VNum 5 /\
  slot o1 "__cache__P" = VNum 9.
Proof.
  intros o1. subst o1.
  pose proof (set_computed_property (returns (VNum 9)) (notify_except "P")
                "P" fP (VNum 5) example_obj eq_refl eq_refl) as H.
  cbv zeta in H.
  assert (isVolatile fP
          || negb (bool_decide (slot example_obj (lastSetValueKey fP)
                                = VNum 5)) = true) as E
    by (vm_compute; reflexivity).
  rewrite E in H. destruct H as (_ & (rest & Ht) & Hpost).
  split; [exact Ht|].
  destruct Hpost as [Hl Hc].
  - reflexivity.
  - discriminate.
  - apply Forall_forall. apply (bool_decide_unpack _). vm_compute. exact I.
  - split; [exact Hl|]. exact (Hc eq_refl).
Defined.

(** C7 as stated fails: [set(P, 5)] after [set(P, 5)] invokes the function
    again when a base key of [P] was set in between, because that clears
    the last-set-value slot of [P]. *)
Lemma set_identical_value_reinvoked :
  let call := returns (VNum 9) in
  let auto := notify_except "P" in
  let o1 := set call auto "P" (VNum 5) example_obj in
  let o2 := set call auto "B" (VNum 2) o1 in
  slot o1 "__lastValue__P" = VNum 5 /\
  slot o2 "__lastValue__P" = VUndef /\
  trace (set call auto "P" (VNum 5) o2)
    = trace o2 ++ [ECall 1%nat "P" (VNum 5)].
Proof. vm_compute. repeat split; reflexivity. Qed.

(** With the default notification, [propertyDidChange] clears both slots
    of a cacheable property right after [set] has written them. *)
Example set_cacheable_with_notification :
  let o1 := set (returns (VNum 9)) always_notify "P" (VNum 5) example_obj in
  slot o1 "__lastValue__P" = VUndef /\ slot o1 "__cache__P" = VUndef /\
  trace (set (returns (VNum 9)) always_notify "P" (VNum 5) o1)
    = trace o1 ++ [EWillChange "P"; ECall 1%nat "P" (VNum 5);
                   EDidChange "P"].
Proof. vm_compute. repeat split; reflexivity. Qed.

(** *** Instances of the further properties *)

Ltac check_closed := apply (bool_decide_unpack _); vm_compute; exact I.

Lemma settled_observed_obj : settled observed_obj.
Proof.
  split; [split; [check_closed|by left]|].
  split; [apply NoDup_nil_2|check_closed].
Qed.

Lemma settled_watched_obj : settled watched_obj.
Proof.
  split; [split; [check_closed|by left]|].
  split; [apply NoDup_nil_2|check_closed].
Qed.

(** A flush for [x] on [observed_obj] calls the observer [(2, 11)] of [x]
    once, and not as an observer of every key, which it is not. *)
Lemma flush_notifies_reached_keys_witness :
  exists es,
    trace (_notifyPropertyObservers (Some "x") observed_obj)
    = trace observed_obj ++ es /\
    invocations "x" (Some 2%nat) 11%nat es = 1%nat /\
    star_invocations "x" (Some 2%nat) 11%nat es = 0%nat.
Proof.
  destruct (flush_notifies_reached_keys (Some "x") "x" (Some 2%nat) 11%nat
              [mkMember None 10%nat None; mkMember (Some 2%nat) 11%nat None]
              observed_obj) as (es & Hes & H1 & _).
  - exact settled_observed_obj.
  - vm_compute. reflexivity.
  - check_closed.
  - exists es. split; [exact Hes|].
    destruct H1 as [Hi Hs].
    { exists "x". split; [check_closed|constructor]. }
    split; [exact Hi|]. rewrite Hs. vm_compute. reflexivity.
Defined.

(** [set(B, 2)] on [watched_obj]: the observer of the dependent property
    [P] is invoked once. *)
Lemma set_notifies_at_once_witness :
  exists es,
    trace (set (returns VUndef) always_notify "B" (VNum 2) watched_obj)
    = trace watched_obj ++ [EWillChange "B"; EDidChange "B"] ++ es /\
    invocations "P" None 10%nat es = 1%nat /\
    pending (set (returns VUndef) always_notify "B" (VNum 2) watched_obj)
    = false.
Proof.
  apply (set_notifies_at_once (returns VUndef) always_notify "B" (VNum 2) "P"
           None 10%nat [mkMember None 10%nat None] watched_obj).
  - exact settled_watched_obj.
  - reflexivity.
  - reflexivity.
  - reflexivity.
  - discriminate.
  - intros f H. vm_compute in H. discriminate.
  - right. intros H. vm_compute in H. discriminate.
  - apply (depends_step _ "B" "P" "P"); [check_closed|constructor].
  - vm_compute. reflexivity.
  - check_closed.
Defined.

Lemma settled_starred_obj : settled starred_obj.
Proof.
  split; [split; [check_closed|by left]|].
  split; [apply NoDup_nil_2|check_closed].
Qed.

(** [allPropertiesDidChange()] inside a batch on [starred_obj]: the
    observer [(4, 12)] of every key is called once for ['*'] and once
    for [x]. *)
Lemma allPropertiesDidChange_notifies_every_observer_witness :
  (exists es,
     trace (allPropertiesDidChange (beginPropertyChanges starred_obj))
     = trace (beginPropertyChanges starred_obj) ++ es /\
     invocations "*" (Some 4%nat) 12%nat es = 1%nat /\
     star_invocations "*" (Some 4%nat) 12%nat es = 0%nat /\
     star_invocations "x" (Some 4%nat) 12%nat es = 1%nat) /\
  level (allPropertiesDidChange (beginPropertyChanges starred_obj)) = 1.
Proof.
  destruct (allPropertiesDidChange_notifies_every_observer "*" (Some 4%nat)
              12%nat [mkMember (Some 4%nat) 12%nat None]
              (beginPropertyChanges starred_obj)) as (He & _ & Hl).
  - apply settled_begin. exact settled_starred_obj.
  - vm_compute. reflexivity.
  - check_closed.
  - split; [|rewrite Hl; [reflexivity|]; vm_compute; discriminate].
    destruct He as (es & Hes & Hi & Hs & Hk).
    exists es. split; [exact Hes|]. split; [exact Hi|].
    split; [rewrite Hs; vm_compute; reflexivity|].
    apply (Hk eq_refl "x"); [check_closed|discriminate].
Defined.

(** A batch on a fresh object with one observer. *)
Lemma calls_keep_the_registry_settled_witness :
  settled
    (default fresh
       (perform_all (returns VUndef) always_notify
          [CallAddObserver "x" None 10%nat; CallBegin;
           CallSet "x" (VNum 1); CallSet "y" (VNum 2); CallEnd;
           CallAllPropertiesDidChange] fresh)).
Proof.
  apply (calls_keep_the_registry_settled (returns VUndef) always_notify
           [CallAddObserver "x" None 10%nat; CallBegin;
            CallSet "x" (VNum 1); CallSet "y" (VNum 2); CallEnd;
            CallAllPropertiesDidChange]).
  vm_compute. reflexivity.
Defined.

(** [P] read once, so that its cache holds 7, then
    [notifyPropertyChange(P)]. *)
Lemma notifyPropertyChange_drops_cache_witness :
  let o := (get (returns (VNum 7)) "P" example_obj).1 in
  slot o "__cache__P" = VNum 7 /\
  slot (notifyPropertyChange "P" VNull o) "__cache__P" = VUndef.
Proof.
  intros o. split; [vm_compute; reflexivity|].
  destruct (notifyPropertyChange_drops_cache (returns (VNum 7)) "P" VNull fP o)
    as (Hc & _ & _).
  - vm_compute. reflexivity.
  - reflexivity.
  - exact Hc.
Defined.

(** A third observer added on [x] of [observed_obj], and the next
    [allPropertiesDidChange()]. *)
Lemma added_observer_is_notified_witness :
  let o1 := with_observed_keys ["x"]
              (with_observers
                 {[ "x" := [mkMember None 10%nat None;
                            mkMember (Some 2%nat) 11%nat None;
                            mkMember (Some 5%nat) 13%nat None] ]}
                 (write "x" (VNum 0) fresh)) in
  exists es,
    trace (allPropertiesDidChange o1) = trace o1 ++ es /\
    invocations "x" (Some 5%nat) 13%nat es = 1%nat /\
    invocations "x" None 10%nat es = 1%nat.
Proof.
  intros o1.
  destruct (added_observer_is_notified (returns VUndef) "x" (Some 5%nat)
              13%nat observed_obj o1) as [(es & Hes & Hnew & Hold) _].
  - exact settled_observed_obj.
  - vm_compute. reflexivity.
  - exists es. split; [exact Hes|]. split; [exact Hnew|].
    apply Hold. check_closed.
Defined.

Lemma get_after_set_witness :
  get (returns VUndef) "x"
      (set (returns VUndef) always_notify "x" (VNum 5) observed_obj)
  = (set (returns VUndef) always_notify "x" (VNum 5) observed_obj, VNum 5).
Proof.
  apply (get_after_set (returns VUndef) always_notify "x" (VNum 5)
           observed_obj).
  - intros f H. vm_compute in H. discriminate.
  - discriminate.
  - apply slots_avoid_check. check_closed.
  - exact I.
  - apply Forall_forall. check_closed.
Defined.

(** [set(B, 2)] on [example_obj] leaves the slot of [P] alone. *)
Lemma set_leaves_other_slots_witness :
  slot (set (returns VUndef) always_notify "B" (VNum 2) example_obj) "P"
  = VFun fP.
Proof.
  rewrite (set_leaves_other_slots (returns VUndef) always_notify "B" "P"
             (VNum 2) example_obj).
  - vm_compute. reflexivity.
  - discriminate.
  - vm_compute. reflexivity.
  - apply slots_avoid_check. check_closed.
  - exact I.
  - intros. exact I.
  - apply Forall_forall. check_closed.
Defined.

Lemma setIfChanged_against_set_witness :
  setIfChanged (returns VUndef) always_notify "x" (VNum 0) observed_obj
  = observed_obj /\
  setIfChanged (returns VUndef) always_notify "x" (VNum 1) observed_obj
  = set (returns VUndef) always_notify "x" (VNum 1) observed_obj.
Proof.
  destruct (setIfChanged_against_set (returns VUndef) always_notify "x"
              (VNum 0) observed_obj) as [_ H0].
  { intros H. vm_compute in H. discriminate. }
  { intros f H. vm_compute in H. discriminate. }
  destruct (setIfChanged_against_set (returns VUndef) always_notify "x"
              (VNum 1) observed_obj) as [H1 _].
  { intros H. vm_compute in H. discriminate. }
  { intros f H. vm_compute in H. discriminate. }
  split.
  - apply H0. vm_compute. reflexivity.
  - apply H1. intros H. vm_compute in H. discriminate.
Defined.

(** The counter [x] of [observed_obj], which holds 0. *)
Lemma increment_then_decrement_witness :
  exists o1 o2,
    incrementProperty (returns VUndef) always_notify "x" observed_obj
    = Some (o1, VNum 1) /\
    slot o1 "x" = VNum 1 /\
    decrementProperty (returns VUndef) always_notify "x" o1
    = Some (o2, VNum 0) /\
    slot o2 "x" = VNum 0.
Proof.
  apply (increment_then_decrement (returns VUndef) always_notify "x" 0
           observed_obj).
  - left. vm_compute. reflexivity.
  - reflexivity.
  - reflexivity.
  - apply slots_avoid_check. check_closed.
  - apply Forall_forall. check_closed.
Defined.

(** After [set(x, 1)] has moved the revision, [didChangeFor] answers
    [true] for [x] and for [y] alike, though [y] was not touched. *)
Lemma didChangeFor_after_a_change_witness :
  let o := write "y" (VNum 3) observed_obj in
  let first := didChangeFor (returns VUndef) "ctx" ["x"; "y"] no_seen o in
  let o1 := set (returns VUndef) always_notify "x" (VNum 1) first.2 in
  (didChangeFor (returns VUndef) "ctx" ["y"] first.1.2 o1).1.1 = true.
Proof.
  intros o first o1.
  destruct (didChangeFor_after_a_change (returns VUndef) "ctx" ["y"]
              first.1.2 o1) as ([_ H] & _ & _).
  - check_closed.
  - intros k f Hk%list_elem_of_singleton H. subst k.
    vm_compute in H. discriminate.
  - intros k Hk%list_elem_of_singleton H. subst k.
    vm_compute in H. discriminate.
  - apply H. exists "y". split; [by left|].
    intros E. vm_compute in E. discriminate.
Defined.

(** A flag that is not yet defined: the first toggle stores [true], the
    second [false]. *)
Lemma toggleProperty_flips_witness :
  exists o1 o2,
    toggleProperty (returns VUndef) always_notify "flag" VUndef VUndef
                   observed_obj
    = Some (o1, VBool true) /\
    slot o1 "flag" = VBool true /\
    toggleProperty (returns VUndef) always_notify "flag" VUndef VUndef o1
    = Some (o2, VBool false) /\
    slot o2 "flag" = VBool false.
Proof.
  apply (toggleProperty_flips (returns VUndef) always_notify "flag" false
           observed_obj).
  - right. split; [reflexivity|]. left. vm_compute. reflexivity.
  - apply slots_avoid_check. check_closed.
  - apply Forall_forall. check_closed.
Defined.

(** Two values set on [x] inside two nested batches. *)
Lemma nested_batch_flushes_at_the_outermost_end_witness :
  let o1 := endPropertyChanges
              (nested_batch (returns VUndef) always_notify "x"
                 [VNum 1; VNum 2] observed_obj) in
  level o1 = 1 /\
  invocations "x" (Some 2%nat) 11%nat (trace o1) = 0%nat /\
  exists es,
    trace (endPropertyChanges o1) = trace o1 ++ es /\
    invocations "x" (Some 2%nat) 11%nat es = 1%nat.
Proof.
  intros o1. subst o1.
  destruct (nested_batch_flushes_at_the_outermost_end (returns VUndef)
              always_notify "x" [VNum 1; VNum 2] (Some 2%nat) 11%nat
              [mkMember None 10%nat None; mkMember (Some 2%nat) 11%nat None]
              observed_obj) as (Hl & _ & Hi & es & Hes & Hc & _).
  - split; [check_closed|by left].
  - reflexivity.
  - reflexivity.
  - vm_compute. reflexivity.
  - check_closed.
  - vm_compute. reflexivity.
  - split; [exact Hl|]. split; [exact Hi|]. exists es. by split.
Defined.

(** A flush for [x] on [starred_obj]: the observer of every key hears of
    [x] once. *)
Lemma star_observers_hear_every_key_witness :
  exists es,
    trace (_notifyPropertyObservers (Some "x") starred_obj)
    = trace starred_obj ++ es /\
    star_invocations "x" (Some 4%nat) 12%nat es = 1%nat.
Proof.
  destruct (star_observers_hear_every_key (Some "x") "x" (Some 4%nat) 12%nat
              [mkMember (Some 4%nat) 12%nat None] starred_obj)
    as (es & Hes & H1 & _).
  - split; [split; [check_closed|by left]|].
    split; [apply NoDup_nil_2|check_closed].
  - vm_compute. reflexivity.
  - check_closed.
  - discriminate.
  - exists es. split; [exact Hes|]. apply H1.
    exists "x". split; [check_closed|constructor].
Defined.

End Observable.

(** ** Engine B: SC.Substate *)

Module Substate.

Abbreviation Val := Observable.Val.
Abbreviation VStr := Observable.VStr.
Abbreviation VBool := Observable.VBool.
Abbreviation VUndef := Observable.VUndef.

(** States are objects: a state is referred to by its identity. *)
Definition StateId := nat.

(** A handler registered for a regular expression.  The expression is
    represented by what [event.match(regexp)] answers. *)
Record RegExpHandler := mkRegExpHandler {
  rh_name : string;
  rh_handler : nat;
  rh_regexp : string -> bool
}.

(** A state node.  [parentState] is the parent object (and through it the
    chain of ancestors up to the root); substates are referred to by
    identity.  [methods] are the members [this[key]] whose [SC.typeOf] is
    a function, by key. *)
#[warnings="-register-all"]
Inductive StateNode := mkState {
  sid : StateId;
  name : string;
  parentState : option StateNode;
  methods : gmap string nat;
  registeredEventHandlers : gmap string nat;
  registeredStringEventHandlers : gmap string (string * nat);
  registeredRegExpEventHandlers : list RegExpHandler;
  registeredStateObserveHandlers : gmap string (list string);
  registeredSubstatePaths : gmap string (list (string * StateId));
  registeredSubstates : list StateId;
  currentSubstates : option (list StateId)
}.

(** The messages handed to the statechart's logger (their wording is not
    modelled). *)
Inductive Msg :=
  | MsgInvalidValue
  | MsgAmbiguousSubstate (keys : list string)
  | MsgAmbiguousState (keys : list string)
  | MsgCanNotGoToState
  | MsgCanNotGoToHistoryState
  | MsgIsEventHandler (event : string)
  | MsgIsStateObserveHandler (event : string)
  | MsgInvalidObserveArgument (handler : string).

(** What a state does to its statechart and to user functions. *)
Inductive SEvent :=
  | SLogError (m : Msg)
  | SLogWarning (m : Msg)
  | SWillTryToHandleEvent (state : StateId) (event handler : string)
  | SInvoke (fn : nat) (args : list Val)
  | SDidTryToHandleEvent (state : StateId) (event handler : string)
      (handled : bool)
  | SGotoState (target : StateId) (from : option StateId)
      (useHistory : bool) (context : Val)
  | SGotoHistoryState (target : StateId) (from : option StateId)
      (recursive : Val) (context : Val).

(** The statechart as a state sees it: the state objects by identity, and
    the log of the calls made on the statechart. *)
Record Chart := mkChart {
  states : gmap StateId StateNode;
  slog : list SEvent
}.

Definition logged (es : list SEvent) (w : Chart) : Chart :=
  mkChart (states w) (slog w ++ es).

(** The argument of [getSubstate] and [getState]: nothing ([null],
    [undefined]), a state object, a string, or a value of another type,
    here a number. *)
Inductive SValue :=
  | SNull
  | SState (s : StateId)
  | SPath (expression : string)
  | SNumber (n : Z).

(** A result together with what was logged on the way. *)
Definition Res : Type := option StateId * list SEvent.

(** The resolution callback of [getSubstate], applied to this state and
    the value: what it answers for the candidate paths it is given
    ([None] when it is called without them). *)
Definition Callback : Type := option (list string) -> Res.

(** What [getSubstate] uses of an [SC.StatePathMatcher]. *)
Record Matcher := mkMatcher {
  tokens : list string;
  lastPart : string;
  matches : string -> bool
}.

Definition with_registeredEventHandlers (x : gmap string nat)
    (s : StateNode) : StateNode :=
  mkState (sid s) (name s) (parentState s) (methods s) x
          (registeredStringEventHandlers s) (registeredRegExpEventHandlers s)
          (registeredStateObserveHandlers s) (registeredSubstatePaths s)
          (registeredSubstates s) (currentSubstates s).

Definition with_registeredStringEventHandlers
    (x : gmap string (string * nat)) (s : StateNode) : StateNode :=
  mkState (sid s) (name s) (parentState s) (methods s)
          (registeredEventHandlers s) x (registeredRegExpEventHandlers s)
          (registeredStateObserveHandlers s) (registeredSubstatePaths s)
          (registeredSubstates s) (currentSubstates s).

Definition with_registeredRegExpEventHandlers (x : list RegExpHandler)
    (s : StateNode) : StateNode :=
  mkState (sid s) (name s) (parentState s) (methods s)
          (registeredEventHandlers s) (registeredStringEventHandlers s) x
          (registeredStateObserveHandlers s) (registeredSubstatePaths s)
          (registeredSubstates s) (currentSubstates s).

Definition with_registeredStateObserveHandlers
    (x : gmap string (list string)) (s : StateNode) : StateNode :=
  mkState (sid s) (name s) (parentState s) (methods s)
          (registeredEventHandlers s) (registeredStringEventHandlers s)
          (registeredRegExpEventHandlers s) x (registeredSubstatePaths s)
          (registeredSubstates s) (currentSubstates s).

Section Operations.

(** [SC.StatePathMatcher.create({ state: this, expression: value })]; the
    matcher is defined in another file and used as a black box. *)
Variable pathMatcher : StateId -> string -> Matcher.

(** What a user function returns when invoked with the given arguments.
    Handlers are opaque; their invocation is logged. *)
Variable call_handler : nat -> list Val -> Val.

(** The transition machinery of the owning statechart,
    [statechart.gotoState] and [statechart.gotoHistoryState]; it is defined
    in another file and may do to the chart whatever it does. *)
Variable statechart_gotoState :
  StateId -> option StateId -> bool -> Val -> Chart -> Chart.
Variable statechart_gotoHistoryState :
  StateId -> option StateId -> Val -> Val -> Chart -> Chart.

(** *** Registration of handlers *)

(** An event named by [handleEvent(...)]: a string or a regular
    expression; anything else is reported. *)
Inductive EventSpec :=
  | EvString (event : string)
  | EvRegExp (regexp : string -> bool)
  | EvInvalid.

Definition register_event (hname : string) (handler : nat)
    (acc : StateNode * list SEvent) (ev : EventSpec)
    : StateNode * list SEvent :=
  let '(s, es) := acc in
  match ev with
  | EvString event =>
      (with_registeredStringEventHandlers
         (<[event := (hname, handler)]> (registeredStringEventHandlers s)) s,
       es)
  | EvRegExp re =>
      (with_registeredRegExpEventHandlers
         (registeredRegExpEventHandlers s
          ++ [mkRegExpHandler hname handler re]) s,
       es)
  | EvInvalid => (s, es ++ [SLogError MsgInvalidValue])
  end.

Definition _sc_registerEventHandler (hname : string) (handler : nat)
    (events : list EventSpec) (s : StateNode) : StateNode * list SEvent :=
  let s := with_registeredEventHandlers
             (<[hname := handler]> (registeredEventHandlers s)) s in
  foldl (register_event hname handler) (s, []) events.

(** The arguments of [stateObserves(...)]: each must be a non-empty
    string; [None] stands for an argument that is not a string. *)
Definition valid_observe_argument (arg : option string) : bool :=
  match arg with
  | Some a => negb (bool_decide (a = ""))
  | None => false
  end.

Definition _registerStateObserveHandler (hname : string)
    (args : list (option string)) (s : StateNode)
    : StateNode * list SEvent :=
  let errors :=
    omap (fun arg => if valid_observe_argument arg then None
                     else Some (SLogError (MsgInvalidObserveArgument hname)))
         args in
  if forallb valid_observe_argument args
  then (with_registeredStateObserveHandlers
          (<[hname := omap id args]> (registeredStateObserveHandlers s)) s,
        errors)
  else (s, errors).

(** *** Looking substates up *)

Definition _notifySubstateNotFound (callback : option Callback)
    (keys : option (list string)) : Res :=
  match callback with
  | Some cb => cb keys
  | None => (None, [])
  end.

(** The substates registered under the last part of the expression whose
    relative path the matcher accepts, in the order of the table. *)
Definition matching_substates (m : Matcher) (this : StateNode)
    : list StateId :=
  snd <$> filter (fun p => matches m p.1 = true)
                 (default [] (registeredSubstatePaths this !! lastPart m)).

Definition getSubstate (this : StateNode) (value : SValue)
    (callback : option Callback) : Res :=
  match value with
  | SNull => (None, [])
  | SState s =>
      (if bool_decide (s ∈ registeredSubstates this) then Some s else None,
       [])
  | SNumber n =>
      if n =? 0 then (None, []) else (None, [SLogError MsgInvalidValue])
  | SPath expression =>
      if bool_decide (expression = "") then (None, [])
      else
        let matcher := pathMatcher (sid this) expression in
        if bool_decide (tokens matcher = []) then (None, [])
        else
          match registeredSubstatePaths this !! lastPart matcher with
          | None => _notifySubstateNotFound callback None
          | Some paths =>
              match matching_substates matcher this with
              | [s] => (Some s, [])
              | [] => _notifySubstateNotFound callback None
              | _ =>
                  let keys := fst <$> paths in
                  match callback with
                  | Some _ => _notifySubstateNotFound callback (Some keys)
                  | None =>
                      (None, [SLogError (MsgAmbiguousSubstate keys)])
                  end
              end
          end
  end.

(** The registered substate paths an expression matches, in the words of
    the specification: a path filed in this state's table under the last
    part of the expression, which the matcher accepts, with the substate
    it names. *)
Definition path_matches (this : StateNode) (e : string) (path : string)
    (s : StateId) : Prop :=
  let m := pathMatcher (sid this) e in
  (path, s) ∈ default [] (registeredSubstatePaths this !! lastPart m) /\
  matches m path = true.

(** [_handleSubstateNotFound], the callback [getState] hands to
    [getSubstate].  [from_parent] is what [parentState.getState(value)]
    answers when there is a parent; at the root the ambiguity, if any, is
    reported. *)
Definition _handleSubstateNotFound (from_parent : option Res) : Callback :=
  fun keys =>
    match from_parent with
    | Some r => r
    | None =>
        match keys with
        | Some ks => (None, [SLogError (MsgAmbiguousState ks)])
        | None => (None, [])
        end
    end.

Fixpoint getState (this : StateNode) (value : SValue) : Res :=
  let handle :=
    _handleSubstateNotFound
      match this with
      | mkState _ _ (Some parent) _ _ _ _ _ _ _ _ =>
          Some (getState parent value)
      | mkState _ _ None _ _ _ _ _ _ _ _ => None
      end in
  match value with
  | SState s => (Some s, [])
  | SPath e =>
      if bool_decide (e = name this) then (Some (sid this), [])
      else getSubstate this value (Some handle)
  | _ => getSubstate this value (Some handle)
  end.

(** *** Transition requests *)

Definition isCurrentState (this : StateNode) : bool :=
  bool_decide (sid this ∈ default [] (currentSubstates this)).

(** [findFirstRelativeCurrentState()] called without an anchor: with more
    than one current substate [getSubstate(undefined)] finds nothing and
    the first current substate is returned. *)
Fixpoint findFirstRelativeCurrentState0 (this : StateNode)
    : option StateId :=
  if isCurrentState this then Some (sid this)
  else
    match default [] (currentSubstates this) with
    | [] =>
        match this with
        | mkState _ _ (Some parent) _ _ _ _ _ _ _ _ =>
            findFirstRelativeCurrentState0 parent
        | mkState _ _ None _ _ _ _ _ _ _ _ => None
        end
    | first :: _ => Some first
    end.

Definition findFirstRelativeCurrentState (w : Chart) (this : StateNode)
    (anchor : SValue) : Res :=
  if isCurrentState this then (Some (sid this), [])
  else
    match default [] (currentSubstates this) with
    | [] =>
        match parentState this with
        | Some parent => (findFirstRelativeCurrentState0 parent, [])
        | None => (None, [])
        end
    | [first] => (Some first, [])
    | first :: _ =>
        let '(a, es) := getSubstate this anchor None in
        match a with
        | Some a =>
            match states w !! a with
            | Some anchor_state =>
                (findFirstRelativeCurrentState0 anchor_state, es)
            | None => (Some first, es)
            end
        | None => (Some first, es)
        end
    end.

Definition gotoSubstate (this : StateNode) (value : SValue) (context : Val)
    (w : Chart) : Chart :=
  let '(state, es) := getSubstate this value None in
  let w := logged es w in
  match state with
  | None => logged [SLogError MsgCanNotGoToState] w
  | Some target =>
      let '(from, es') :=
        findFirstRelativeCurrentState w this (SState target) in
      statechart_gotoState target from false context
        (logged (es' ++ [SGotoState target from false context]) w)
  end.

Definition gotoHistoryState (this : StateNode) (value : SValue)
    (recursive context : Val) (w : Chart) : Chart :=
  let '(state, es) := getState this value in
  let w := logged es w in
  match state with
  | None => logged [SLogError MsgCanNotGoToHistoryState] w
  | Some target =>
      let '(from, es') :=
        findFirstRelativeCurrentState w this (SState target) in
      statechart_gotoHistoryState target from recursive context
        (logged (es' ++ [SGotoHistoryState target from recursive context]) w)
  end.

(** *** Event routing *)

(** The four statements every dispatch consists of: tell the statechart,
    invoke, compare the result with [NO], tell the statechart. *)
Definition dispatch (this : StateNode) (event handler : string) (fn : nat)
    (args : list Val) : bool * list SEvent :=
  let ret := negb (bool_decide (call_handler fn args = VBool false)) in
  (ret,
   [SWillTryToHandleEvent (sid this) event handler;
    SInvoke fn args;
    SDidTryToHandleEvent (sid this) event handler ret]).

Definition tryToHandleEvent (this : StateNode) (event : string)
    (arg1 arg2 : Val) : bool * list SEvent :=
  if bool_decide (is_Some (registeredEventHandlers this !! event))
  then (false, [SLogWarning (MsgIsEventHandler event)])
  else if bool_decide (is_Some (registeredStateObserveHandlers this !! event))
  then (false, [SLogWarning (MsgIsStateObserveHandler event)])
  else
    match methods this !! event with
    | Some fn => dispatch this event event fn [arg1; arg2]
    | None =>
        match registeredStringEventHandlers this !! event with
        | Some (hname, fn) =>
            dispatch this event hname fn [VStr event; arg1; arg2]
        | None =>
            match find (fun h => rh_regexp h event)
                       (registeredRegExpEventHandlers this) with
            | Some h =>
                dispatch this event (rh_name h) (rh_handler h)
                         [VStr event; arg1; arg2]
            | None =>
                match methods this !! "unknownEvent" with
                | Some fn =>
                    dispatch this event "unknownEvent" fn
                             [VStr event; arg1; arg2]
                | None => (false, [])
                end
            end
        end
    end.

Definition respondsToEvent (this : StateNode) (event : string) : bool :=
  if bool_decide (is_Some (registeredEventHandlers this !! event))
  then false
  else if bool_decide (is_Some (methods this !! event)) then true
  else if bool_decide (is_Some (registeredStringEventHandlers this !! event))
  then true
  else if bool_decide (is_Some (registeredStateObserveHandlers this !! event))
  then false
  else if existsb (fun h => rh_regexp h event)
                  (registeredRegExpEventHandlers this)
  then true
  else bool_decide (is_Some (methods this !! "unknownEvent")).

(** Whether a call of [tryToHandleEvent] invoked a handler. *)
Definition is_invoke (e : SEvent) : bool :=
  match e with
  | SInvoke _ _ => true
  | _ => false
  end.

Definition dispatched (r : bool * list SEvent) : bool :=
  existsb is_invoke r.2.

(** The resolution order of an event as the specification gives it: each
    rule applies only when no earlier one does. *)
Definition not_reserved (this : StateNode) (event : string) : Prop :=
  registeredEventHandlers this !! event = None /\
  registeredStateObserveHandlers this !! event = None.

Inductive Resolves (this : StateNode) (event : string) (arg1 arg2 : Val)
    : bool * list SEvent -> Prop :=
  | Resolves_event_handler_name :
      is_Some (registeredEventHandlers this !! event) ->
      Resolves this event arg1 arg2
        (false, [SLogWarning (MsgIsEventHandler event)])
  | Resolves_observe_handler_name :
      registeredEventHandlers this !! event = None ->
      is_Some (registeredStateObserveHandlers this !! event) ->
      Resolves this event arg1 arg2
        (false, [SLogWarning (MsgIsStateObserveHandler event)])
  | Resolves_method fn :
      not_reserved this event ->
      methods this !! event = Some fn ->
      Resolves this event arg1 arg2
        (dispatch this event event fn [arg1; arg2])
  | Resolves_string hname fn :
      not_reserved this event ->
      methods this !! event = None ->
      registeredStringEventHandlers this !! event = Some (hname, fn) ->
      Resolves this event arg1 arg2
        (dispatch this event hname fn [VStr event; arg1; arg2])
  | Resolves_regexp earlier h later :
      not_reserved this event ->
      methods this !! event = None ->
      registeredStringEventHandlers this !! event = None ->
      registeredRegExpEventHandlers this = earlier ++ h :: later ->
      Forall (fun h' => rh_regexp h' event = false) earlier ->
      rh_regexp h event = true ->
      Resolves this event arg1 arg2
        (dispatch this event (rh_name h) (rh_handler h)
                  [VStr event; arg1; arg2])
  | Resolves_unknownEvent fn :
      not_reserved this event ->
      methods this !! event = None ->
      registeredStringEventHandlers this !! event = None ->
      Forall (fun h' => rh_regexp h' event = false)
             (registeredRegExpEventHandlers this) ->
      methods this !! "unknownEvent" = Some fn ->
      Resolves this event arg1 arg2
        (dispatch this event "unknownEvent" fn [VStr event; arg1; arg2])
  | Resolves_nothing :
      not_reserved this event ->
      methods this !! event = None ->
      registeredStringEventHandlers this !! event = None ->
      Forall (fun h' => rh_regexp h' event = false)
             (registeredRegExpEventHandlers this) ->
      methods this !! "unknownEvent" = None ->
      Resolves this event arg1 arg2 (false, []).

(** Calls on the logger, as opposed to invocations and transition
    requests. *)
Definition is_log (e : SEvent) : bool :=
  match e with
  | SLogError _ | SLogWarning _ => true
  | _ => false
  end.

(** *** Small statecharts *)

(** Modelled from the spec: [SC.StatePathMatcher], restricted to plain
    dotted expressions.  The tokens are the parts of the expression, and a
    relative path matches when it ends with them. *)
Fixpoint split_at_dots (s : string) (current : string) : list string :=
  match s with
  | EmptyString => [current]
  | String c rest =>
      if Ascii.eqb c "."%char
      then current :: split_at_dots rest ""
      else split_at_dots rest (current +:+ String c "")
  end.

Definition parts (e : string) : list string :=
  if bool_decide (e = "") then [] else split_at_dots e "".

Definition basic_matcher (this : StateId) (e : string) : Matcher :=
  mkMatcher (parts e) (default "" (last (parts e)))
            (fun path => bool_decide (parts e `suffix_of` parts path)).

(** A root state with the substates [a], [a.foo] and [foo]. *)
Definition root_state : StateNode :=
  mkState 0%nat "root" None ∅ ∅ ∅ [] ∅
    {[ "a" := [("a", 1%nat)];
       "foo" := [("a.foo", 2%nat); ("foo", 3%nat)] ]}
    [1%nat; 2%nat; 3%nat] (Some []).

Definition state_a : StateNode :=
  mkState 1%nat "a" (Some root_state) ∅ ∅ ∅ [] ∅
    {[ "foo" := [("foo", 2%nat)] ]} [2%nat] (Some []).

Definition example_chart : Chart :=
  mkChart {[ 0%nat := root_state; 1%nat := state_a ]} [].

(** A state with the method [obs], declared with [stateObserves('foo')],
    the method [go], a handler [h] for the event [start] and for events
    that begin with [n], and [unknownEvent]. *)
Definition begins_with_n (event : string) : bool :=
  match event with
  | String c _ => Ascii.eqb c "n"%char
  | EmptyString => false
  end.

Definition plain_state : StateNode :=
  mkState 5%nat "s" None
    {[ "obs" := 7%nat; "go" := 8%nat; "h" := 9%nat;
       "unknownEvent" := 10%nat ]}
    ∅ ∅ [] ∅ ∅ [] (Some []).

Definition routing_state : StateNode :=
  (_sc_registerEventHandler "h" 9%nat
     [EvString "start"; EvRegExp begins_with_n]
     (_registerStateObserveHandler "obs" [Some "foo"] plain_state).1).1.

(** A callback that answers with state 3 whatever it is given. *)
Definition answer_3 : Callback := fun _ => (Some 3%nat, []).

(** A state whose table files three paths under [foo]; the expression
    [a.foo] matches the first two and not [b.foo]. *)
Definition wide_state : StateNode :=
  mkState 0%nat "root" None ∅ ∅ ∅ [] ∅
    {[ "foo" := [("x.a.foo", 2%nat); ("y.a.foo", 3%nat); ("b.foo", 4%nat)] ]}
    [2%nat; 3%nat; 4%nat] (Some []).

(** A callback that answers with as many log calls as it is given paths,
    and with nothing when it is given none. *)
Definition echo_paths : Callback :=
  fun keys =>
    match keys with
    | Some ks => (None, (fun k => SLogWarning (MsgAmbiguousState [k])) <$> ks)
    | None => (None, [])
    end.

(** A handler that returns [false] when it is function 8 and [undefined]
    otherwise. *)
Definition eight_declines (fn : nat) (args : list Val) : Val :=
  if Nat.eqb fn 8%nat then VBool false else VUndef.

Definition no_transition3 :
    StateId -> option StateId -> bool -> Val -> Chart -> Chart :=
  fun _ _ _ _ w => w.

Definition no_transition4 :
    StateId -> option StateId -> Val -> Val -> Chart -> Chart :=
  fun _ _ _ _ w => w.

(** *** Registration of substates *)

Definition with_registeredSubstatePaths
    (x : gmap string (list (string * StateId))) (s : StateNode)
    : StateNode :=
  mkState (sid s) (name s) (parentState s) (methods s)
          (registeredEventHandlers s) (registeredStringEventHandlers s)
          (registeredRegExpEventHandlers s)
          (registeredStateObserveHandlers s) x
          (registeredSubstates s) (currentSubstates s).

Definition with_registeredSubstates (x : list StateId) (s : StateNode)
    : StateNode :=
  mkState (sid s) (name s) (parentState s) (methods s)
          (registeredEventHandlers s) (registeredStringEventHandlers s)
          (registeredRegExpEventHandlers s)
          (registeredStateObserveHandlers s) (registeredSubstatePaths s)
          x (currentSubstates s).

(** The ancestors of a state, from its parent up to the root. *)
Fixpoint ancestors (s : StateNode) : list StateNode :=
  match s with
  | mkState _ _ (Some p) _ _ _ _ _ _ _ _ => p :: ancestors p
  | mkState _ _ None _ _ _ _ _ _ _ _ => []
  end.

(** The error of [pathRelativeTo]: [state] is not a parent state of
    [this]. *)
Inductive PathError :=
  | NotAParentState (state : StateId) (this : StateId).

(** The loop of [pathRelativeTo], entered with a parent that is not null:
    it stops at [state] or runs past the root.  The answer is the path and
    whether [parent === state] when the loop ends. *)
Fixpoint path_loop (parent : StateNode) (state : StateId) (path : string)
    : string * bool :=
  if bool_decide (sid parent = state) then (path, true)
  else
    let path := name parent +:+ "." +:+ path in
    match parent with
    | mkState _ _ (Some p) _ _ _ _ _ _ _ _ => path_loop p state path
    | mkState _ _ None _ _ _ _ _ _ _ _ => (path, false)
    end.

(** [this.pathRelativeTo(state)], [state] being a state object. *)
Definition pathRelativeTo (this : StateNode) (state : StateId)
    : option string * list PathError :=
  let '(path, reached) :=
    match parentState this with
    | Some p => path_loop p state (name this)
    | None => (name this, false)
    end in
  if negb reached && negb (bool_decide (state = sid this))
  then (None, [NotAParentState state (sid this)])
  else (Some path, []).

(** [fullPath], [root] being [statechart.rootSubstate]. *)
Definition fullPath (root : option StateId) (this : StateNode)
    : option string * list PathError :=
  match root with
  | Some r => pathRelativeTo this r
  | None => (Some (name this), [])
  end.

(** [paths[path] = state] on a table that keeps the order in which its
    keys were added. *)
Fixpoint assoc_set (k : string) (v : StateId) (l : list (string * StateId))
    : list (string * StateId) :=
  match l with
  | [] => [(k, v)]
  | (k', v') :: rest =>
      if bool_decide (k' = k) then (k, v) :: rest
      else (k', v') :: assoc_set k v rest
  end.

(** [this._registerSubstate(state)]. *)
Definition _registerSubstate (this : StateNode) (state : StateNode)
    : StateNode * list PathError :=
  match pathRelativeTo state (sid this) with
  | (None, es) => (this, es)
  | (Some path, es) =>
      let this :=
        with_registeredSubstates (registeredSubstates this ++ [sid state])
                                 this in
      let paths := default [] (registeredSubstatePaths this !! name state) in
      (with_registeredSubstatePaths
         (<[name state := assoc_set path (sid state) paths]>
            (registeredSubstatePaths this)) this,
       es)
  end.

(** [this._registerWithParentStates()]: what each ancestor becomes, from
    the parent up to the root, with the errors reported on the way.  The
    names and identities along the chain, which are all [pathRelativeTo]
    reads, are not touched by a registration. *)
Definition _registerWithParentStates (this : StateNode)
    : list (StateNode * list PathError) :=
  (fun parent => _registerSubstate parent this) <$> ancestors this.

(** The names of a path joined by dots. *)
Fixpoint dotted (names : list string) : string :=
  match names with
  | [] => ""
  | [n] => n
  | n :: rest => n +:+ "." +:+ dotted rest
  end.

(** The ancestors strictly below the first one that is [state]; all of
    them when none is. *)
Fixpoint below (state : StateId) (chain : list StateNode) : list StateNode :=
  match chain with
  | [] => []
  | p :: rest =>
      if bool_decide (sid p = state) then [] else p :: below state rest
  end.

(** *** Entered states *)

(** [stateIsEnteredSubstate(state)] for a state object; the entered
    substates of this state are passed alongside it. *)
Definition stateIsEnteredSubstate (enteredSubstates : option (list StateId))
    (state : StateId) : bool :=
  bool_decide (state ∈ default [] enteredSubstates).

(** [reenter()]: the chart, and whether [SC.Logger.error] was called. *)
Definition reenter (enteredSubstates : option (list StateId))
    (this : StateNode) (w : Chart) : Chart * bool :=
  if stateIsEnteredSubstate enteredSubstates (sid this)
  then (gotoSubstate this (SState (sid this)) VUndef w, false)
  else (w, true).

(** This state and its ancestors. *)
Definition chain (s : StateNode) : list StateNode := s :: ancestors s.

Definition no_current (s : StateNode) : Prop :=
  default [] (currentSubstates s) = [].

(** *** What a registration was asked for *)

(** The strings among the events of a handler, in order. *)
Definition string_events (events : list EventSpec) : list string :=
  omap (fun ev => match ev with EvString e => Some e | _ => None end) events.

(** The patterns among the events of a handler, in order. *)
Definition patterns (events : list EventSpec) : list (string -> bool) :=
  omap (fun ev => match ev with EvRegExp re => Some re | _ => None end) events.

(** The number of events that are neither a string nor a pattern. *)
Definition is_invalid (ev : EventSpec) : bool :=
  match ev with
  | EvInvalid => true
  | _ => false
  end.

Definition invalid_events (events : list EventSpec) : nat :=
  length (filter (fun ev => is_invalid ev = true) events).

(** Whether something other than [unknownEvent] answers for the event: it
    is a reserved name, a method, or an event of a registered handler. *)
Definition taken (s : StateNode) (event : string) : Prop :=
  is_Some (registeredEventHandlers s !! event) \/
  is_Some (registeredStateObserveHandlers s !! event) \/
  is_Some (methods s !! event) \/
  is_Some (registeredStringEventHandlers s !! event) \/
  existsb (fun h => rh_regexp h event) (registeredRegExpEventHandlers s)
  = true.

(** *** A statechart before registration

    A root, its substate [a] and the substate [foo] of [a], with empty
    tables; and a root with two current substates above an idle state. *)
Definition bare_root : StateNode :=
  mkState 0%nat "root" None ∅ ∅ ∅ [] ∅ ∅ [] (Some []).

Definition bare_a : StateNode :=
  mkState 1%nat "a" (Some bare_root) ∅ ∅ ∅ [] ∅ ∅ [] (Some []).

Definition bare_a_foo : StateNode :=
  mkState 2%nat "foo" (Some bare_a) ∅ ∅ ∅ [] ∅ ∅ [] (Some []).

Definition busy_root : StateNode :=
  mkState 0%nat "root" None ∅ ∅ ∅ [] ∅ ∅ [] (Some [3%nat; 4%nat]).

Definition idle_a : StateNode :=
  mkState 1%nat "a" (Some busy_root) ∅ ∅ ∅ [] ∅ ∅ [] None.

(** A pattern that accepts every event. *)
Definition any_event (event : string) : bool := true.


(** ** Properties of the event router *)

Lemma find_first {A} (f : A -> bool) (l : list A) (h : A) :
  find f l = Some h <->
  exists earlier later,
    l = earlier ++ h :: later /\
    Forall (fun x => f x = false) earlier /\ f h = true.
Proof.
  induction l as [|x l IH]; simpl.
  - split; [done|]. intros (earlier & later & E & _). by destruct earlier.
  - destruct (f x) eqn:Ex.
    + split.
      * intros [= ->]. exists [], l. by repeat split.
      * intros (earlier & later & E & F & Hh).
        destruct earlier as [|y earlier]; simpl in E.
        { by injection E as ->. }
        injection E as -> _. apply Forall_cons in F as [F _]. congruence.
    + rewrite IH. split.
      * intros (earlier & later & -> & F & Hh).
        exists (x :: earlier), later. split; [done|]. split; [|done].
        by constructor.
      * intros (earlier & later & E & F & Hh).
        destruct earlier as [|y earlier]; simpl in E.
        { injection E as -> _. congruence. }
        injection E as -> ->. apply Forall_cons in F as [_ F].
        by exists earlier, later.
Qed.

Lemma find_nothing {A} (f : A -> bool) (l : list A) :
  find f l = None <-> Forall (fun x => f x = false) l.
Proof.
  induction l as [|x l IH]; simpl; [by split|].
  destruct (f x) eqn:Ex.
  - split; [done|]. intros [F _]%Forall_cons. congruence.
  - rewrite IH. split; [by constructor|]. by intros [_ F]%Forall_cons.
Qed.

Lemma tryToHandleEvent_resolves this event arg1 arg2 :
  Resolves this event arg1 arg2 (tryToHandleEvent this event arg1 arg2).
Proof.
  unfold tryToHandleEvent.
  case_bool_decide as E1; [by constructor|].
  apply eq_None_not_Some in E1.
  case_bool_decide as E2; [by constructor|].
  apply eq_None_not_Some in E2.
  assert (not_reserved this event) as Hn by done.
  destruct (methods this !! event) as [fn|] eqn:E3; [by constructor|].
  destruct (registeredStringEventHandlers this !! event) as [[hname fn]|]
    eqn:E4; [by constructor|].
  destruct (find _ (registeredRegExpEventHandlers this)) as [h|] eqn:E5.
  - apply find_first in E5 as (earlier & later & E & F & Hh).
    by eapply Resolves_regexp.
  - apply find_nothing in E5.
    destruct (methods this !! "unknownEvent") as [fn|] eqn:E6;
      by constructor.
Qed.

Lemma Resolves_unique this event arg1 arg2 r :
  Resolves this event arg1 arg2 r ->
  r = tryToHandleEvent this event arg1 arg2.
Proof.
  assert (forall (m : gmap string nat) k, m !! k = None ->
            bool_decide (is_Some (m !! k)) = false) as Hn1.
  { intros m k ->. apply bool_decide_eq_false_2. by intros [? ?]. }
  assert (forall (m : gmap string (list string)) k, m !! k = None ->
            bool_decide (is_Some (m !! k)) = false) as Hn2.
  { intros m k ->. apply bool_decide_eq_false_2. by intros [? ?]. }
  unfold tryToHandleEvent.
  destruct 1 as [H1|H1 H2|fn [H1 H2] H3|hname fn [H1 H2] H3 H4
                |earlier h later [H1 H2] H3 H4 E F Hh
                |fn [H1 H2] H3 H4 F H5|[H1 H2] H3 H4 F H5].
  - by rewrite bool_decide_eq_true_2.
  - rewrite Hn1 by done. by rewrite bool_decide_eq_true_2.
  - rewrite Hn1, Hn2 by done. by rewrite H3.
  - rewrite Hn1, Hn2 by done. by rewrite H3, H4.
  - rewrite Hn1, Hn2 by done. rewrite H3, H4.
    assert (find (fun h0 => rh_regexp h0 event)
                 (registeredRegExpEventHandlers this) = Some h) as ->; [|done].
    apply find_first. by exists earlier, later.
  - rewrite Hn1, Hn2 by done. rewrite H3, H4.
    apply find_nothing in F. by rewrite F, H5.
  - rewrite Hn1, Hn2 by done. rewrite H3, H4.
    apply find_nothing in F. by rewrite F, H5.
Qed.

(** C3.  [tryToHandleEvent] resolves an event by the rules of [Resolves],
    in their order: a registered handler name or observe-handler name is
    refused with a warning; otherwise the same-named method, else the
    handler registered for the literal string, else the first pattern
    handler, in registration order, whose pattern matches, else
    [unknownEvent], else nothing.  The rules leave no choice: whatever they
    allow is what the function returns.  A dispatched handler counts as
    having handled the event unless it returns [false] itself. *)
Theorem tryToHandleEvent_resolution (this : StateNode) (event : string)
    (arg1 arg2 : Val) :
  Resolves this event arg1 arg2 (tryToHandleEvent this event arg1 arg2) /\
  (forall r, Resolves this event arg1 arg2 r ->
             r = tryToHandleEvent this event arg1 arg2) /\
  (forall handler fn args,
     (dispatch this event handler fn args).1 = false <->
     call_handler fn args = VBool false).
Proof.
  split; [apply tryToHandleEvent_resolves|].
  split; [apply Resolves_unique|].
  intros handler fn args. unfold dispatch. simpl.
  rewrite negb_false_iff. apply bool_decide_eq_true.
Qed.

(** Outside the names of state observe handlers, [respondsToEvent] says
    whether [tryToHandleEvent] invokes a handler. *)
Lemma respondsToEvent_agrees this event arg1 arg2 :
  registeredStateObserveHandlers this !! event = None ->
  respondsToEvent this event
  = dispatched (tryToHandleEvent this event arg1 arg2).
Proof.
  intros Hobs. unfold respondsToEvent, tryToHandleEvent.
  case_bool_decide as E1; [done|].
  rewrite Hobs.
  rewrite (bool_decide_eq_false_2 (is_Some None)) by (by intros [? ?]).
  destruct (methods this !! event) as [fn|] eqn:E3.
  { by rewrite bool_decide_eq_true_2. }
  rewrite (bool_decide_eq_false_2 (is_Some None)) by (by intros [? ?]).
  destruct (registeredStringEventHandlers this !! event) as [[hname fn]|]
    eqn:E4.
  { by rewrite bool_decide_eq_true_2. }
  rewrite (bool_decide_eq_false_2 (is_Some None)) by (by intros [? ?]).
  destruct (find _ (registeredRegExpEventHandlers this)) as [h|] eqn:E5.
  - apply find_some in E5 as [Hin Hh].
    assert (existsb (fun h0 => rh_regexp h0 event)
                    (registeredRegExpEventHandlers this) = true) as ->; [|done].
    apply existsb_exists. by exists h.
  - assert (existsb (fun h0 => rh_regexp h0 event)
                    (registeredRegExpEventHandlers this) = false) as ->.
    { apply not_true_is_false. intros (h & Hin & Hh)%existsb_exists.
      by rewrite (find_none _ _ E5 h Hin) in Hh. }
    destruct (methods this !! "unknownEvent") as [fn|].
    + by rewrite bool_decide_eq_true_2.
    + by rewrite bool_decide_eq_false_2 by (by intros [? ?]).
Qed.

(** ** Properties of the lookup and of transition requests *)

Lemma getSubstate_logs this value cb :
  (forall f keys, cb = Some f -> Forall (fun e => is_log e = true) (f keys).2) ->
  Forall (fun e => is_log e = true) (getSubstate this value cb).2.
Proof.
  intros Hcb.
  assert (forall keys, Forall (fun e => is_log e = true)
                         (_notifySubstateNotFound cb keys).2) as Hn.
  { intros keys. unfold _notifySubstateNotFound.
    destruct cb as [f|]; [by apply Hcb|constructor]. }
  unfold getSubstate. destruct value as [|s|e|n]; simpl; try constructor.
  - case_bool_decide; [constructor|].
    case_bool_decide; [constructor|].
    destruct (registeredSubstatePaths this !! _) as [paths|]; [|apply Hn].
    destruct (matching_substates _ this) as [|s1 [|s2 rest]];
      [apply Hn|constructor|].
    destruct cb as [f|]; [by apply Hcb|by repeat constructor].
  - destruct (n =? 0)%Z; by repeat constructor.
Qed.

Lemma getState_eq this value :
  getState this value
  = match value with
    | SState s => (Some s, [])
    | SPath e =>
        if bool_decide (e = name this) then (Some (sid this), [])
        else getSubstate this value
               (Some (_handleSubstateNotFound
                        ((fun p => getState p value) <$> parentState this)))
    | _ => getSubstate this value
             (Some (_handleSubstateNotFound
                      ((fun p => getState p value) <$> parentState this)))
    end.
Proof. by destruct this as [? ? [?|] ? ? ? ? ? ? ? ?]. Qed.

(** Induction along the chain of parents. *)
Lemma parent_chain_ind (P : StateNode -> Prop) :
  (forall s, (forall p, parentState s = Some p -> P p) -> P s) ->
  forall s, P s.
Proof.
  intros H. fix IH 1. intros s. apply H. intros p Hp.
  destruct s as [i nm [q|] ms reh rseh rreh rsoh rsp rs cur]; simpl in Hp.
  - injection Hp as <-. apply IH.
  - discriminate.
Qed.

Lemma getState_logs this value :
  Forall (fun e => is_log e = true) (getState this value).2.
Proof.
  induction this as [this IH] using parent_chain_ind.
  assert (forall keys,
            Forall (fun e => is_log e = true)
              (_handleSubstateNotFound
                 ((fun p => getState p value) <$> parentState this) keys).2)
    as Hh.
  { intros keys. unfold _handleSubstateNotFound.
    destruct (parentState this) as [parent|] eqn:Ep; simpl.
    - by apply IH.
    - destruct keys; by repeat constructor. }
  rewrite getState_eq. destruct value as [|s|e|n].
  - apply getSubstate_logs. intros f keys [= <-]. apply Hh.
  - constructor.
  - case_bool_decide; [constructor|].
    apply getSubstate_logs. intros f keys [= <-]. apply Hh.
  - apply getSubstate_logs. intros f keys [= <-]. apply Hh.
Qed.

Lemma filter_rejects_all (f : string -> bool) (l : list (string * StateId)) :
  (forall p s, (p, s) ∈ l -> f p = false) ->
  filter (fun p : string * StateId => f p.1 = true) l = [].
Proof.
  intros H. induction l as [|[k v] l IH]; [done|].
  rewrite filter_cons. simpl. rewrite decide_False.
  - apply IH. intros p s Hp. apply (H p s). by right.
  - rewrite (H k v); [done|by left].
Qed.

(** In a table row that holds a path once, a path the test accepts alone
    is all the filter keeps. *)
Lemma filter_accepts_one (f : string -> bool) (l : list (string * StateId))
    (path : string) (s : StateId) :
  NoDup (fst <$> l) -> (path, s) ∈ l -> f path = true ->
  (forall p' s', (p', s') ∈ l -> f p' = true -> p' = path) ->
  filter (fun p : string * StateId => f p.1 = true) l = [(path, s)].
Proof.
  induction l as [|[k v] l IH]; intros Hnd Hin Hf Huniq.
  - by apply elem_of_nil in Hin.
  - rewrite fmap_cons in Hnd. apply NoDup_cons in Hnd as [Hk Hnd].
    rewrite filter_cons. simpl.
    apply elem_of_cons in Hin as [[= <- <-]|Hin].
    + rewrite decide_True by done. f_equal.
      apply filter_rejects_all. intros p' s' Hp'.
      destruct (f p') eqn:E; [|done]. exfalso. apply Hk.
      rewrite <- (Huniq p' s'); [|by right|done].
      apply list_elem_of_fmap. by exists (p', s').
    + destruct (f k) eqn:E.
      * exfalso. apply Hk. rewrite (Huniq k v); [|by left|done].
        apply list_elem_of_fmap. by exists (path, s).
      * rewrite decide_False by done. apply IH; [done..|].
        intros p' s' Hp'. apply (Huniq p' s'). by right.
Qed.

(** Two different paths the test accepts leave the filter two entries or
    more. *)
Lemma filter_accepts_two (f : string -> bool) (l : list (string * StateId))
    (p1 p2 : string) (s1 s2 : StateId) :
  (p1, s1) ∈ l -> f p1 = true -> (p2, s2) ∈ l -> f p2 = true -> p1 <> p2 ->
  exists a b rest,
    filter (fun p : string * StateId => f p.1 = true) l = a :: b :: rest.
Proof.
  intros H1 F1 H2 F2 Hne.
  assert ((p1, s1) ∈ filter (fun p : string * StateId => f p.1 = true) l)
    as G1 by (by apply list_elem_of_filter).
  assert ((p2, s2) ∈ filter (fun p : string * StateId => f p.1 = true) l)
    as G2 by (by apply list_elem_of_filter).
  destruct (filter _ l) as [|a [|b rest]].
  - by apply elem_of_nil in G1.
  - apply list_elem_of_singleton in G1, G2. congruence.
  - by exists a, b, rest.
Qed.

(** C5.  [getSubstate] on a string.  The empty string, or one in which
    the matcher finds no token, yields [null] at once, whatever the
    callback is.  For any other expression, and a state whose table files
    a path once under the last part of the expression: when no registered
    path matches, the result is what the callback answers when called
    without paths, or [null] when there is no callback; when exactly one
    matches, the substate it names is returned; when two different paths
    match and there is no callback, one error is logged and [null]
    returned; when two different paths match and there is a callback, the
    result is what the callback answers for a list of paths that holds
    every matching one. *)
Theorem getSubstate_path_expression (this : StateNode) (e : string)
    (cb : option Callback) :
  let m := pathMatcher (sid this) e in
  let row := default [] (registeredSubstatePaths this !! lastPart m) in
  (e = "" \/ tokens m = [] -> getSubstate this (SPath e) cb = (None, [])) /\
  (e <> "" -> tokens m <> [] -> NoDup (fst <$> row) ->
   ((forall path s, ~ path_matches this e path s) ->
    getSubstate this (SPath e) cb
    = match cb with Some f => f None | None => (None, []) end) /\
   (forall path s,
      path_matches this e path s ->
      (forall path' s', path_matches this e path' s' -> path' = path) ->
      getSubstate this (SPath e) cb = (Some s, [])) /\
   (forall p1 s1 p2 s2,
      path_matches this e p1 s1 -> path_matches this e p2 s2 -> p1 <> p2 ->
      exists keys,
        (forall path s, path_matches this e path s -> path ∈ keys) /\
        getSubstate this (SPath e) cb
        = match cb with
          | Some f => f (Some keys)
          | None => (None, [SLogError (MsgAmbiguousSubstate keys)])
          end)).
Proof.
  intros m row. split.
  { intros [->|Ht]; simpl; [done|].
    case_bool_decide; [done|]. fold m. by rewrite bool_decide_eq_true_2. }
  intros He Ht Hnd. unfold path_matches. cbv zeta. fold m. fold row.
  unfold getSubstate.
  rewrite (bool_decide_eq_false_2 _ He). cbv zeta. fold m.
  rewrite (bool_decide_eq_false_2 _ Ht).
  unfold matching_substates. fold row.
  assert (row = default [] (registeredSubstatePaths this !! lastPart m))
    as Hrow by done.
  clearbody row.
  destruct (registeredSubstatePaths this !! lastPart m) as [paths|];
    simpl in Hrow; subst row.
  - split; [|split].
    + intros Hzero. rewrite filter_rejects_all; [by destruct cb|].
      intros p s Hp. destruct (matches m p) eqn:Em; [|done].
      by destruct (Hzero p s).
    + intros path s [Hin Hm] Huniq.
      rewrite (filter_accepts_one (matches m) paths path s); [done..|].
      intros p' s' Hp' Hm'. by apply (Huniq p' s').
    + intros p1 s1 p2 s2 [H1 M1] [H2 M2] Hne.
      destruct (filter_accepts_two (matches m) paths p1 p2 s1 s2)
        as (a & b & rest & ->); [done..|].
      exists (fst <$> paths). split.
      * intros path s [Hin _]. apply list_elem_of_fmap. by exists (path, s).
      * by destruct cb.
  - split; [|split].
    + intros _. by destruct cb.
    + intros path s [Hin _]. by apply elem_of_nil in Hin.
    + intros p1 s1 p2 s2 [Hin _]. by apply elem_of_nil in Hin.
Qed.

(** C6.  A transition request whose value resolves to no state (through
    [getSubstate] for [gotoSubstate], through [getState] for
    [gotoHistoryState]) only logs: the error is the last thing logged,
    nothing but log calls is added, the statechart's transition functions
    are not reached, and every state object is as it was. *)
Theorem goto_unresolved_target_only_logs (this : StateNode) (value : SValue)
    (recursive context : Val) (w : Chart) :
  ((getSubstate this value None).1 = None ->
   exists es,
     gotoSubstate this value context w
     = logged (es ++ [SLogError MsgCanNotGoToState]) w /\
     Forall (fun e => is_log e = true) es /\
     states (gotoSubstate this value context w) = states w) /\
  ((getState this value).1 = None ->
   exists es,
     gotoHistoryState this value recursive context w
     = logged (es ++ [SLogError MsgCanNotGoToHistoryState]) w /\
     Forall (fun e => is_log e = true) es /\
     states (gotoHistoryState this value recursive context w) = states w).
Proof.
  split.
  - intros Hnone. unfold gotoSubstate.
    assert (Forall (fun e => is_log e = true)
              (getSubstate this value None).2) as Hl.
    { apply getSubstate_logs. by intros f keys [=]. }
    destruct (getSubstate this value None) as [state es]. simpl in *.
    subst state. exists es. split; [|split; [|done]].
    + unfold logged. simpl. by rewrite app_assoc.
    + exact Hl.
  - intros Hnone. unfold gotoHistoryState.
    pose proof (getState_logs this value) as Hl.
    destruct (getState this value) as [state es]. simpl in *.
    subst state. exists es. split; [|split; [|done]].
    + unfold logged. simpl. by rewrite app_assoc.
    + exact Hl.
Qed.

(** ** Properties of the registration of substates *)

Lemma ancestors_eq s :
  ancestors s = match parentState s with
                | Some p => p :: ancestors p
                | None => []
                end.
Proof. by destruct s as [? ? [?|] ? ? ? ? ? ? ? ?]. Qed.

Lemma path_loop_eq p a path :
  path_loop p a path
  = if bool_decide (sid p = a) then (path, true)
    else match parentState p with
         | Some q => path_loop q a (name p +:+ "." +:+ path)
         | None => (name p +:+ "." +:+ path, false)
         end.
Proof. by destruct p as [? ? [?|] ? ? ? ? ? ? ? ?]. Qed.

Lemma path_loop_spec p a path :
  path_loop p a path
  = (foldl (fun acc q => name q +:+ "." +:+ acc) path
           (below a (p :: ancestors p)),
     bool_decide (a ∈ sid <$> (p :: ancestors p))).
Proof.
  revert path. induction p as [p IH] using parent_chain_ind. intros path.
  rewrite path_loop_eq, (ancestors_eq p). cbn [below fmap list_fmap].
  case_bool_decide as E.
  - subst a. rewrite bool_decide_eq_true_2; [done|]. by left.
  - destruct (parentState p) as [q|] eqn:Eq.
    + rewrite (IH q eq_refl). cbn [foldl]. f_equal.
      assert (a ∈ sid <$> q :: ancestors q
              <-> a ∈ sid p :: (sid <$> q :: ancestors q)) as Hiff.
      { split; [by right|]. intros [->|?]%elem_of_cons; [by destruct E|done]. }
      by rewrite (bool_decide_ext _ _ Hiff).
    + cbn [below foldl fmap list_fmap]. f_equal.
      rewrite bool_decide_eq_false_2; [done|].
      intros [->|H]%elem_of_cons; [by destruct E|by apply elem_of_nil in H].
Qed.

Lemma dotted_cons n rest :
  rest <> [] -> dotted (n :: rest) = n +:+ "." +:+ dotted rest.
Proof. by destruct rest. Qed.

Lemma dotted_last xs a b :
  dotted (xs ++ [a +:+ "." +:+ b]) = dotted (xs ++ [a; b]).
Proof.
  induction xs as [|x xs IH]; [done|].
  rewrite <- !app_comm_cons.
  rewrite !dotted_cons by (by destruct xs). by rewrite IH.
Qed.

Lemma path_fold_dotted l path :
  foldl (fun acc q => name q +:+ "." +:+ acc) path l
  = dotted (reverse (name <$> l) ++ [path]).
Proof.
  revert path. induction l as [|q l IH]; intros path; [done|].
  cbn [foldl]. rewrite IH, dotted_last, fmap_cons, reverse_cons.
  by rewrite <- app_assoc.
Qed.

(** Whether [pathRelativeTo] finds a path. *)
Lemma pathRelativeTo_outcome this state :
  (state ∈ sid <$> ancestors this ->
   exists path, pathRelativeTo this state = (Some path, [])) /\
  (state ∉ sid <$> ancestors this -> state <> sid this ->
   pathRelativeTo this state = (None, [NotAParentState state (sid this)])).
Proof.
  unfold pathRelativeTo. rewrite (ancestors_eq this).
  destruct (parentState this) as [p|].
  - rewrite path_loop_spec. split.
    + intros H. rewrite bool_decide_eq_true_2 by done. by eexists.
    + intros H Hne. by rewrite !bool_decide_eq_false_2 by done.
  - split.
    + intros H. simpl in H. by apply elem_of_nil in H.
    + intros _ Hne. simpl. by rewrite bool_decide_eq_false_2 by done.
Qed.

(** X14.  [this.pathRelativeTo(state)] answers the names of the ancestors
    of this state that lie strictly below [state], from the top down,
    followed by the name of this state, joined by dots.  When [state] is
    this state itself and none of its ancestors, the loop runs past the
    root and the path starts with the root's name.  When [state] is
    neither an ancestor nor this state, the answer is null and the error
    is reported. *)
Theorem pathRelativeTo_names_the_states_below (this : StateNode)
    (state : StateId) :
  pathRelativeTo this state
  = if bool_decide (state ∈ sid <$> ancestors this)
       || bool_decide (state = sid this)
    then (Some (dotted (reverse (name <$> below state (ancestors this))
                        ++ [name this])), [])
    else (None, [NotAParentState state (sid this)]).
Proof.
  unfold pathRelativeTo. rewrite (ancestors_eq this).
  destruct (parentState this) as [p|].
  - rewrite path_loop_spec, path_fold_dotted.
    destruct (bool_decide (state ∈ sid <$> p :: ancestors p)); [done|].
    simpl. by case_bool_decide.
  - assert (bool_decide (state ∈ sid <$> ([] : list StateNode)) = false)
      as ->.
    { apply bool_decide_eq_false_2. intros H. simpl in H.
      by apply elem_of_nil in H. }
    simpl. by case_bool_decide.
Qed.

Lemma assoc_set_elem k v l : (k, v) ∈ assoc_set k v l.
Proof.
  induction l as [|[k' v'] l IH]; simpl; [by left|].
  case_bool_decide; [by left|by right].
Qed.

Lemma assoc_set_other k v l k' v' :
  k' <> k -> (k', v') ∈ assoc_set k v l <-> (k', v') ∈ l.
Proof.
  intros Hne. induction l as [|[k0 v0] l IH]; simpl.
  - split; [|by intros ?%elem_of_nil].
    intros [= -> ->]%list_elem_of_singleton. by destruct Hne.
  - case_bool_decide as E.
    + subst k0. rewrite !elem_of_cons. split.
      * intros [[= -> ->]|?]; [by destruct Hne|by right].
      * intros [[= -> ->]|?]; [by destruct Hne|by right].
    + rewrite !elem_of_cons, IH. done.
Qed.


Lemma filter_assoc_set (f : string -> bool) k v l :
  NoDup (fst <$> l) -> f k = true ->
  (forall p s, (p, s) ∈ l -> p <> k -> f p = false) ->
  filter (fun p : string * StateId => f p.1 = true) (assoc_set k v l)
  = [(k, v)].
Proof.
  intros Hnd Hk Hrest. induction l as [|[k0 v0] l IH]; simpl.
  { rewrite filter_cons, decide_True by done. done. }
  rewrite fmap_cons in Hnd. apply NoDup_cons in Hnd as [Hk0 Hnd].
  case_bool_decide as E.
  - subst k0. rewrite filter_cons, decide_True by done. f_equal.
    apply filter_rejects_all. intros p s Hp. apply (Hrest p s); [by right|].
    intros ->. apply Hk0. apply list_elem_of_fmap. by exists (k, s).
  - rewrite filter_cons. simpl. rewrite decide_False.
    + apply IH; [done|]. intros p s Hp. apply (Hrest p s). by right.
    + rewrite (Hrest k0 v0); [done|by left|done].
Qed.

(** What a registration with an ancestor leaves in its tables. *)
Lemma registerSubstate_ancestor this child :
  sid this ∈ sid <$> ancestors child ->
  exists path,
    pathRelativeTo child (sid this) = (Some path, []) /\
    _registerSubstate this child
    = (with_registeredSubstatePaths
         (<[name child :=
              assoc_set path (sid child)
                (default [] (registeredSubstatePaths this !! name child))]>
            (registeredSubstatePaths this))
         (with_registeredSubstates (registeredSubstates this ++ [sid child])
                                   this),
       []).
Proof.
  intros Hanc.
  destruct (proj1 (pathRelativeTo_outcome child (sid this)) Hanc)
    as [path Hp].
  exists path. split; [exact Hp|]. unfold _registerSubstate. by rewrite Hp.
Qed.

(** X15.  Registering [child] with an ancestor [this]
    ([this._registerSubstate(child)]) reports nothing, and afterwards
    [getSubstate] finds the child by its object, finds every substate that
    was registered before, holds the child's relative path in the row of
    its name, and finds the child by any path expression whose matcher
    accepts that path and no other path of the row (a row holds a path
    once).  When [this] is neither an ancestor of [child] nor [child]
    itself, the state is left as it was and the error of [pathRelativeTo]
    is reported. *)
Theorem registered_substate_is_found (this child : StateNode)
    (cb : option Callback) :
  (sid this ∈ sid <$> ancestors child ->
   exists path this',
     pathRelativeTo child (sid this) = (Some path, []) /\
     _registerSubstate this child = (this', []) /\
     getSubstate this' (SState (sid child)) cb = (Some (sid child), []) /\
     (forall s, s ∈ registeredSubstates this ->
                getSubstate this' (SState s) cb = (Some s, [])) /\
     (path, sid child)
       ∈ default [] (registeredSubstatePaths this' !! name child) /\
     (forall e,
        e <> "" ->
        tokens (pathMatcher (sid this) e) <> [] ->
        lastPart (pathMatcher (sid this) e) = name child ->
        matches (pathMatcher (sid this) e) path = true ->
        NoDup (fst <$> default [] (registeredSubstatePaths this
                                     !! name child)) ->
        (forall p s,
           (p, s) ∈ default [] (registeredSubstatePaths this !! name child) ->
           p <> path -> matches (pathMatcher (sid this) e) p = false) ->
        getSubstate this' (SPath e) cb = (Some (sid child), []))) /\
  (sid this ∉ sid <$> ancestors child -> sid this <> sid child ->
   _registerSubstate this child
   = (this, [NotAParentState (sid this) (sid child)])).
Proof.
  split.
  - intros Hanc.
    destruct (registerSubstate_ancestor this child Hanc) as (path & Hp & Hr).
    exists path. eexists. split; [exact Hp|]. split; [exact Hr|].
    simpl. split; [|split; [|split]].
    + rewrite bool_decide_eq_true_2; [done|].
      apply elem_of_app. right. by left.
    + intros s Hs. rewrite bool_decide_eq_true_2; [done|].
      apply elem_of_app. by left.
    + rewrite lookup_insert_eq. simpl. apply assoc_set_elem.
    + intros e He Htok Hlast Hm Hnd Hrest.
      rewrite (bool_decide_eq_false_2 (e = "")) by done.
      rewrite (bool_decide_eq_false_2 (tokens _ = [])) by done.
      rewrite Hlast, lookup_insert_eq.
      unfold matching_substates. simpl. rewrite Hlast, lookup_insert_eq.
      simpl. rewrite filter_assoc_set by done. done.
  - intros Hanc Hne. unfold _registerSubstate.
    by rewrite (proj2 (pathRelativeTo_outcome child (sid this)) Hanc Hne).
Qed.

(** X25.  [_registerWithParentStates()] registers this state with every
    ancestor, from the parent up to the root: no error is reported on the
    way, and each ancestor then finds the state by its object and holds,
    in the row of the state's name, the state's path relative to that
    ancestor. *)
Theorem registerWithParentStates_reaches_every_ancestor (this : StateNode)
    (cb : option Callback) :
  length (_registerWithParentStates this) = length (ancestors this) /\
  (forall i parent parent' es,
     ancestors this !! i = Some parent ->
     _registerWithParentStates this !! i = Some (parent', es) ->
     es = [] /\
     sid parent' = sid parent /\
     getSubstate parent' (SState (sid this)) cb = (Some (sid this), []) /\
     exists path,
       pathRelativeTo this (sid parent) = (Some path, []) /\
       (path, sid this)
         ∈ default [] (registeredSubstatePaths parent' !! name this)).
Proof.
  unfold _registerWithParentStates. split; [by rewrite length_fmap|].
  intros i parent parent' es Hi Hr.
  rewrite list_lookup_fmap, Hi in Hr. simpl in Hr.
  assert (sid parent ∈ sid <$> ancestors this) as Hanc.
  { apply list_elem_of_fmap. exists parent. split; [done|].
    by eapply list_elem_of_lookup_2. }
  destruct (registerSubstate_ancestor parent this Hanc) as (path & Hp & E).
  rewrite E in Hr. injection Hr as <- <-.
  split; [done|]. split; [done|]. simpl. split.
  - rewrite bool_decide_eq_true_2; [done|].
    apply elem_of_app. right. by left.
  - exists path. split; [exact Hp|]. rewrite lookup_insert_eq. simpl.
    apply assoc_set_elem.
Qed.

(** ** Properties of the search for a current state *)

Lemma findFirstRelativeCurrentState0_eq this :
  findFirstRelativeCurrentState0 this
  = if isCurrentState this then Some (sid this)
    else match default [] (currentSubstates this) with
         | [] => match parentState this with
                 | Some parent => findFirstRelativeCurrentState0 parent
                 | None => None
                 end
         | first :: _ => Some first
         end.
Proof. by destruct this as [? ? [?|] ? ? ? ? ? ? ? ?]. Qed.

Lemma chain_eq s :
  chain s = s :: match parentState s with
                 | Some p => chain p
                 | None => []
                 end.
Proof. unfold chain. rewrite ancestors_eq. by destruct (parentState s). Qed.

(** X16.  [findFirstRelativeCurrentState()] without an anchor: the answer
    is null exactly when neither this state nor any ancestor has a current
    substate; otherwise it is taken from the nearest state of the chain
    that has current substates, and it is that state itself when the state
    is current, its first current substate when it is not.  Called through
    the general function with a null anchor, the result is the same. *)
Theorem first_relative_current_state (this : StateNode) (w : Chart) :
  findFirstRelativeCurrentState w this SNull
  = (findFirstRelativeCurrentState0 this, []) /\
  (findFirstRelativeCurrentState0 this = None
   <-> Forall no_current (chain this)) /\
  (forall r,
     findFirstRelativeCurrentState0 this = Some r ->
     exists before a after,
       chain this = before ++ a :: after /\
       Forall no_current before /\
       r ∈ default [] (currentSubstates a) /\
       (if isCurrentState a then r = sid a
        else head (default [] (currentSubstates a)) = Some r)).
Proof.
  split; [|split].
  - unfold findFirstRelativeCurrentState.
    rewrite (findFirstRelativeCurrentState0_eq this).
    destruct (isCurrentState this); [done|].
    destruct (default [] (currentSubstates this)) as [|c1 [|c2 cs]];
      [by destruct (parentState this)|done|done].
  - induction this as [this IH] using parent_chain_ind.
    rewrite findFirstRelativeCurrentState0_eq, chain_eq.
    unfold isCurrentState. case_bool_decide as Hc.
    { split; [done|]. intros [Hn _]%Forall_cons. unfold no_current in Hn.
      rewrite Hn in Hc. by apply elem_of_nil in Hc. }
    destruct (default [] (currentSubstates this)) as [|c1 cs] eqn:Ec.
    + destruct (parentState this) as [p|] eqn:Ep.
      * rewrite (IH p eq_refl). split.
        -- intros H. by constructor.
        -- by intros [_ H]%Forall_cons.
      * split; [|done]. intros _. constructor; [done|constructor].
    + split; [done|]. intros [Hn _]%Forall_cons. unfold no_current in Hn.
      by rewrite Ec in Hn.
  - induction this as [this IH] using parent_chain_ind. intros r.
    rewrite findFirstRelativeCurrentState0_eq, chain_eq.
    destruct (isCurrentState this) eqn:Hc.
    { intros [= <-]. exists [], this. eexists.
      split; [reflexivity|]. split; [constructor|]. rewrite Hc.
      split; [|done]. unfold isCurrentState in Hc.
      by apply bool_decide_eq_true in Hc. }
    destruct (default [] (currentSubstates this)) as [|c1 cs] eqn:Ec.
    + destruct (parentState this) as [p|] eqn:Ep; [|done].
      intros Hr. destruct (IH p eq_refl r Hr)
        as (before & a & after & E & Hb & Hin & Hh).
      exists (this :: before), a, after. rewrite E.
      split; [done|]. split; [by constructor|]. by split.
    + intros [= <-]. exists [], this. eexists.
      split; [reflexivity|]. split; [constructor|]. rewrite Ec, Hc.
      split; [by left|done].
Qed.

(** ** Properties of reenter *)

(** X17.  [reenter()] never reaches the statechart's [gotoState]: on an
    entered state it calls [gotoSubstate(this)], and [getSubstate] looks
    the state up among its own registered substates, where a state is not
    (registration puts a state in the lists of its ancestors); what is
    left is the error of [gotoSubstate].  On a state that is not entered
    only [SC.Logger.error] is called.  Registering a substate does not put
    the state in its own list. *)
Theorem reenter_requests_no_transition
    (enteredSubstates : option (list StateId)) (this : StateNode)
    (w : Chart) :
  sid this ∉ registeredSubstates this ->
  reenter enteredSubstates this w
  = (if stateIsEnteredSubstate enteredSubstates (sid this)
     then (logged [SLogError MsgCanNotGoToState] w, false)
     else (w, true)) /\
  (forall child,
     sid child <> sid this ->
     sid this ∉ registeredSubstates (_registerSubstate this child).1).
Proof.
  intros Hn. split.
  - unfold reenter. destruct (stateIsEnteredSubstate _ _); [|done].
    unfold gotoSubstate, getSubstate.
    rewrite bool_decide_eq_false_2 by done. unfold logged. simpl.
    by rewrite app_nil_r.
  - intros child Hne. unfold _registerSubstate.
    destruct (pathRelativeTo child (sid this)) as [[path|] es]; [|done].
    simpl. intros [H|H]%elem_of_app; [done|].
    apply list_elem_of_singleton in H. by destruct Hne.
Qed.

(** ** Properties of the registration of handlers *)

Lemma invalid_events_cons ev events :
  invalid_events (ev :: events)
  = ((if is_invalid ev then 1 else 0) + invalid_events events)%nat.
Proof.
  unfold invalid_events. rewrite filter_cons.
  destruct (is_invalid ev); [by rewrite decide_True|by rewrite decide_False].
Qed.

Lemma register_events_spec hname handler events s0 es0 :
  let r := foldl (register_event hname handler) (s0, es0) events in
  sid r.1 = sid s0 /\
  methods r.1 = methods s0 /\
  registeredEventHandlers r.1 = registeredEventHandlers s0 /\
  registeredStateObserveHandlers r.1 = registeredStateObserveHandlers s0 /\
  (forall e,
     registeredStringEventHandlers r.1 !! e
     = if bool_decide (e ∈ string_events events) then Some (hname, handler)
       else registeredStringEventHandlers s0 !! e) /\
  registeredRegExpEventHandlers r.1
  = registeredRegExpEventHandlers s0
    ++ (mkRegExpHandler hname handler <$> patterns events) /\
  r.2 = es0 ++ replicate (invalid_events events) (SLogError MsgInvalidValue).
Proof.
  revert s0 es0. induction events as [|ev events IH]; intros s0 es0.
  { simpl. rewrite !app_nil_r. repeat split; try done. }
  cbn [foldl].
  specialize (IH (register_event hname handler (s0, es0) ev).1
                 (register_event hname handler (s0, es0) ev).2).
  rewrite <- surjective_pairing in IH. cbv zeta in IH.
  destruct IH as (I1 & I2 & I3 & I4 & I5 & I6 & I7).
  cbv zeta. rewrite I1, I2, I3, I4, I6, I7, invalid_events_cons.
  destruct ev as [event|re|]; simpl.
  - split; [done|]. split; [done|]. split; [done|]. split; [done|].
    split; [|split; done].
    intros e. rewrite I5. simpl.
    destruct (decide (event = e)) as [->|Hne].
    + rewrite lookup_insert_eq.
      rewrite (bool_decide_eq_true_2 (e ∈ e :: string_events events));
        [by case_bool_decide|by left].
    + rewrite lookup_insert_ne by done.
      assert (e ∈ string_events events
              <-> e ∈ event :: string_events events) as Hiff.
      { split; [by right|]. intros [->|?]%elem_of_cons; done. }
      by rewrite (bool_decide_ext _ _ Hiff).
  - split; [done|]. split; [done|]. split; [done|]. split; [done|].
    split; [done|]. split; [by rewrite <- app_assoc|done].
  - split; [done|]. split; [done|]. split; [done|]. split; [done|].
    split; [done|]. split; [done|]. by rewrite <- app_assoc.
Qed.

Lemma find_app_none {A} (f : A -> bool) (l1 l2 : list A) :
  Forall (fun x => f x = false) l1 -> find f (l1 ++ l2) = find f l2.
Proof. induction 1 as [|x l1 Hx _ IH]; simpl; [done|]. by rewrite Hx. Qed.

Lemma find_app_some {A} (f : A -> bool) (l1 l2 : list A) (x : A) :
  find f l1 = Some x -> find f (l1 ++ l2) = Some x.
Proof.
  induction l1 as [|y l1 IH]; simpl; [done|]. destruct (f y); [done|exact IH].
Qed.

Lemma find_new_pattern hname handler (ps : list (string -> bool)) e :
  (exists re, re ∈ ps /\ re e = true) ->
  exists re,
    find (fun h => rh_regexp h e) (mkRegExpHandler hname handler <$> ps)
    = Some (mkRegExpHandler hname handler re).
Proof.
  intros (re & Hin & Hre). induction ps as [|p ps IH]; simpl.
  { by apply elem_of_nil in Hin. }
  destruct (p e) eqn:Ep; [by exists p|]. apply IH.
  apply elem_of_cons in Hin as [->|Hin]; [congruence|done].
Qed.

Lemma dispatch_sid s s' event hname fn args :
  sid s' = sid s ->
  dispatch s' event hname fn args = dispatch s event hname fn args.
Proof. unfold dispatch. by intros ->. Qed.

(** What [_sc_registerEventHandler] leaves in the tables. *)
Lemma registerEventHandler_spec hname handler events s :
  let r := _sc_registerEventHandler hname handler events s in
  sid r.1 = sid s /\
  methods r.1 = methods s /\
  registeredEventHandlers r.1
  = <[hname := handler]> (registeredEventHandlers s) /\
  registeredStateObserveHandlers r.1 = registeredStateObserveHandlers s /\
  (forall e,
     registeredStringEventHandlers r.1 !! e
     = if bool_decide (e ∈ string_events events) then Some (hname, handler)
       else registeredStringEventHandlers s !! e) /\
  registeredRegExpEventHandlers r.1
  = registeredRegExpEventHandlers s
    ++ (mkRegExpHandler hname handler <$> patterns events) /\
  r.2 = replicate (invalid_events events) (SLogError MsgInvalidValue).
Proof.
  unfold _sc_registerEventHandler. cbv zeta.
  exact (register_events_spec hname handler events
           (with_registeredEventHandlers
              (<[hname := handler]> (registeredEventHandlers s)) s) []).
Qed.

(** X18.  After [_sc_registerEventHandler(name, handler)]: the name of the
    handler is itself refused as an event; every string event of the
    handler, and every event that one of its patterns matches, is
    dispatched to the handler with the event as first argument, unless the
    event is a reserved name or a method of the state (and, for a pattern,
    unless an earlier string or pattern registration takes it); one error
    is logged for each event that is neither a string nor a pattern. *)
Theorem registered_handler_takes_its_events (hname : string) (handler : nat)
    (events : list EventSpec) (s : StateNode) (a1 a2 : Val) :
  let s' := (_sc_registerEventHandler hname handler events s).1 in
  tryToHandleEvent s' hname a1 a2
  = (false, [SLogWarning (MsgIsEventHandler hname)]) /\
  (_sc_registerEventHandler hname handler events s).2
  = replicate (invalid_events events) (SLogError MsgInvalidValue) /\
  (forall e,
     e <> hname ->
     registeredEventHandlers s !! e = None ->
     registeredStateObserveHandlers s !! e = None ->
     methods s !! e = None ->
     (e ∈ string_events events ->
      tryToHandleEvent s' e a1 a2
      = dispatch s' e hname handler [VStr e; a1; a2]) /\
     (e ∉ string_events events ->
      registeredStringEventHandlers s !! e = None ->
      Forall (fun h => rh_regexp h e = false)
             (registeredRegExpEventHandlers s) ->
      (exists re, re ∈ patterns events /\ re e = true) ->
      tryToHandleEvent s' e a1 a2
      = dispatch s' e hname handler [VStr e; a1; a2])).
Proof.
  intros s'.
  destruct (registerEventHandler_spec hname handler events s)
    as (E1 & E2 & E3 & E4 & E5 & E6 & E7).
  fold s' in E1, E2, E3, E4, E5, E6.
  split; [|split; [exact E7|]].
  - unfold tryToHandleEvent. rewrite E3, lookup_insert_eq.
    by rewrite bool_decide_eq_true_2.
  - intros e Hne Hr Ho Hm.
    assert (forall rest,
              tryToHandleEvent s' e a1 a2
              = match registeredStringEventHandlers s' !! e with
                | Some (hn, fn) => dispatch s' e hn fn [VStr e; a1; a2]
                | None => rest
                end ->
              True) as _ by done.
    unfold tryToHandleEvent.
    rewrite E3, lookup_insert_ne, Hr, E4, Ho, E2, Hm by done.
    rewrite !(bool_decide_eq_false_2 (is_Some None)) by (by intros [? ?]).
    rewrite E5. split.
    + intros Hin. by rewrite bool_decide_eq_true_2.
    + intros Hnin Hs Hold Hnew. rewrite bool_decide_eq_false_2 by done.
      rewrite Hs, E6, find_app_none by done.
      destruct (find_new_pattern hname handler (patterns events) e Hnew)
        as [re ->]. done.
Qed.

(** X19.  Earlier registrations win: when an event is already answered
    for by a reserved name, a method, a string event or a pattern of the
    state, registering another handler (under another name, without that
    string event) does not change what [tryToHandleEvent] does with the
    event; a later pattern never takes an event from an earlier one. *)
Theorem earlier_registrations_keep_their_events (hname : string)
    (handler : nat) (events : list EventSpec) (s : StateNode) (e : string)
    (a1 a2 : Val) :
  e <> hname -> e ∉ string_events events -> taken s e ->
  tryToHandleEvent (_sc_registerEventHandler hname handler events s).1
                   e a1 a2
  = tryToHandleEvent s e a1 a2.
Proof.
  intros Hne Hnin Htaken.
  destruct (registerEventHandler_spec hname handler events s)
    as (E1 & E2 & E3 & E4 & E5 & E6 & _).
  set (s' := (_sc_registerEventHandler hname handler events s).1) in *.
  unfold tryToHandleEvent.
  rewrite E3, lookup_insert_ne, E4, E2, E5, E6 by done.
  rewrite (bool_decide_eq_false_2 (e ∈ string_events events)) by done.
  case_bool_decide as H1; [done|].
  case_bool_decide as H2; [done|].
  destruct (methods s !! e) as [fn|] eqn:H3; [by apply dispatch_sid|].
  destruct (registeredStringEventHandlers s !! e) as [[hn fn]|] eqn:H4;
    [by apply dispatch_sid|].
  destruct (find (fun h => rh_regexp h e) (registeredRegExpEventHandlers s))
    as [h|] eqn:H5.
  - rewrite (find_app_some _ _ _ h H5). by apply dispatch_sid.
  - exfalso. destruct Htaken as [H|[H|[H|[H|H]]]].
    + exact (H1 H).
    + exact (H2 H).
    + rewrite H3 in H. by destruct H.
    + rewrite H4 in H. by destruct H.
    + apply existsb_exists in H as (h & Hin & Hh).
      by rewrite (find_none _ _ H5 h Hin) in Hh.
Qed.

(** X20.  [_registerStateObserveHandler(name, handler)] is all or
    nothing.  When every argument is a non-empty string the arguments are
    recorded under the name, nothing is logged, and the name is from then
    on refused as an event (unless it is refused as the name of an event
    handler already).  When one argument is not, the state is left as it
    was and one error is logged for each such argument. *)
Theorem registerStateObserveHandler_all_or_nothing (hname : string)
    (args : list (option string)) (s : StateNode) :
  let r := _registerStateObserveHandler hname args s in
  (forallb valid_observe_argument args = true ->
   r.2 = [] /\
   registeredStateObserveHandlers r.1 !! hname = Some (omap id args) /\
   length (omap id args) = length args /\
   (registeredEventHandlers s !! hname = None ->
    forall a1 a2,
      tryToHandleEvent r.1 hname a1 a2
      = (false, [SLogWarning (MsgIsStateObserveHandler hname)]))) /\
  (forallb valid_observe_argument args = false ->
   r.1 = s /\ r.2 <> [] /\
   r.2 = replicate
           (length (filter (fun a => valid_observe_argument a = false) args))
           (SLogError (MsgInvalidObserveArgument hname))).
Proof.
  intros r. subst r. unfold _registerStateObserveHandler. cbv zeta.
  set (errs := omap (fun arg => if valid_observe_argument arg then None
                                 else Some _) args).
  assert (errs
          = replicate
              (length (filter (fun a => valid_observe_argument a = false)
                              args))
              (SLogError (MsgInvalidObserveArgument hname))) as Herrs.
  { subst errs. induction args as [|a args IH]; [done|].
    rewrite filter_cons. cbn [omap list_omap].
    destruct (valid_observe_argument a) eqn:Ea.
    - rewrite decide_False by done. exact IH.
    - rewrite decide_True by done. simpl. by rewrite <- IH. }
  split.
  - intros Hall. rewrite Hall. simpl.
    assert (filter (fun a => valid_observe_argument a = false) args = [])
      as Hnone.
    { clear -Hall. induction args as [|a args IH]; [done|].
      simpl in Hall. apply andb_true_iff in Hall as [Ha Hall].
      rewrite filter_cons, decide_False by (by rewrite Ha). by apply IH. }
    split; [by rewrite Herrs, Hnone|].
    split; [by rewrite lookup_insert_eq|]. split.
    + clear -Hall. induction args as [|a args IH]; [done|].
      simpl in Hall. apply andb_true_iff in Hall as [Ha Hall].
      destruct a as [a|]; [|done]. cbn [omap list_omap]. simpl.
      by rewrite IH.
    + intros Hr a1 a2. unfold tryToHandleEvent. simpl. rewrite Hr.
      rewrite (bool_decide_eq_false_2 (is_Some None)) by (by intros [? ?]).
      rewrite lookup_insert_eq. by rewrite bool_decide_eq_true_2.
  - intros Hsome. rewrite Hsome. simpl. split; [done|].
    split; [|exact Herrs]. rewrite Herrs.
    clear -Hsome. induction args as [|a args IH]; [done|].
    simpl in Hsome. rewrite filter_cons.
    destruct (valid_observe_argument a) eqn:Ea.
    + rewrite decide_False by done. by apply IH.
    + by rewrite decide_True.
Qed.

(** X21.  [respondsToEvent(event)] and [tryToHandleEvent(event, ...)]
    disagree on exactly one kind of event: the name of a state observe
    handler (that is not also the name of an event handler) which is a
    method of the state or a string event of a registered handler; for
    those [respondsToEvent] answers [true] and nothing is invoked.  On
    every other event [respondsToEvent] says whether a handler is
    invoked. *)
Theorem respondsToEvent_differs_only_on_observe_handlers (this : StateNode)
    (event : string) (a1 a2 : Val) :
  respondsToEvent this event <> dispatched (tryToHandleEvent this event a1 a2)
  <-> registeredEventHandlers this !! event = None /\
      is_Some (registeredStateObserveHandlers this !! event) /\
      (is_Some (methods this !! event) \/
       is_Some (registeredStringEventHandlers this !! event)).
Proof.
  destruct (registeredStateObserveHandlers this !! event) as [obs|] eqn:Ho.
  2:{ rewrite (respondsToEvent_agrees this event a1 a2 Ho). split; [done|].
      by intros (_ & [? ?] & _). }
  unfold respondsToEvent, tryToHandleEvent. rewrite Ho.
  case_bool_decide as H1.
  { split; [done|]. intros (Hn & _). rewrite Hn in H1. by destruct H1. }
  assert (registeredEventHandlers this !! event = None) as Hn.
  { destruct (registeredEventHandlers this !! event); [|done].
    by destruct H1. }
  rewrite (bool_decide_eq_true_2 (is_Some (Some obs))) by done.
  unfold dispatched. simpl.
  case_bool_decide as H2.
  { split; [|done]. intros _. split; [done|]. split; [done|by left]. }
  case_bool_decide as H3.
  { split; [|done]. intros _. split; [done|]. split; [done|by right]. }
  split; [done|]. by intros (_ & _ & [?|?]).
Qed.

(** ** Properties of getState *)

(** X22.  What [getState] answers.  A state object is handed back as it
    is, registered or not.  For a path expression the answer, when there
    is one, is a state of the chain from this state to the root that bears
    the expression as its name, or a state held in the table of registered
    substate paths of a state of that chain: the search moves to the
    parent when this state finds no single match, and never invents a
    state. *)
Theorem getState_answers_known_states (this : StateNode) (e : string)
    (r : StateId) :
  (forall s, getState this (SState s) = (Some s, [])) /\
  ((getState this (SPath e)).1 = Some r ->
   exists a,
     a ∈ chain this /\
     ((e = name a /\ r = sid a) \/
      exists nm paths path,
        registeredSubstatePaths a !! nm = Some paths /\ (path, r) ∈ paths)).
Proof.
  split; [intros s; by rewrite getState_eq|].
  induction this as [this IH] using parent_chain_ind.
  rewrite getState_eq, chain_eq.
  case_bool_decide as Hname.
  { intros [= <-]. exists this. split; [by left|]. by left. }
  set (handle := _handleSubstateNotFound _).
  assert (forall keys,
            (handle keys).1 = Some r ->
            exists a,
              a ∈ this :: match parentState this with
                          | Some p => chain p
                          | None => []
                          end /\
              ((e = name a /\ r = sid a) \/
               exists nm paths path,
                 registeredSubstatePaths a !! nm = Some paths /\
                 (path, r) ∈ paths)) as Hh.
  { intros keys. subst handle. unfold _handleSubstateNotFound.
    destruct (parentState this) as [p|] eqn:Ep; simpl.
    - intros Hr. destruct (IH p eq_refl Hr) as (a & Ha & Hcase).
      exists a. split; [by right|done].
    - by destruct keys. }
  unfold getSubstate.
  case_bool_decide; [done|]. cbv zeta.
  case_bool_decide; [done|].
  destruct (registeredSubstatePaths this !! _) as [paths|] eqn:Et;
    [|apply Hh].
  unfold matching_substates. rewrite Et. simpl.
  destruct (snd <$> filter _ paths) as [|s1 [|s2 rest]] eqn:Em;
    [apply Hh| |apply Hh].
  intros [= <-]. exists this. split; [by left|]. right.
  assert (s1 ∈ snd <$> filter
                 (fun p : string * StateId =>
                    matches (pathMatcher (sid this) e) p.1 = true) paths)
    as Hin by (rewrite Em; by left).
  apply list_elem_of_fmap in Hin as ([path s] & -> & Hin).
  apply list_elem_of_filter in Hin as [_ Hin].
  by exists (lastPart (pathMatcher (sid this) e)), paths, path.
Qed.

End Operations.

(** The state [routing_state] on six events: a method that declines, a
    string handler, a pattern handler, [unknownEvent], and the two kinds
    of reserved names. *)
Example tryToHandleEvent_examples :
  (fun e => tryToHandleEvent eight_declines routing_state e VUndef VUndef)
    <$> ["go"; "start"; "n1"; "zzz"; "obs"; "h"]
  = [(false, [SWillTryToHandleEvent 5%nat "go" "go";
              SInvoke 8%nat [VUndef; VUndef];
              SDidTryToHandleEvent 5%nat "go" "go" false]);
     (true, [SWillTryToHandleEvent 5%nat "start" "h";
             SInvoke 9%nat [VStr "start"; VUndef; VUndef];
             SDidTryToHandleEvent 5%nat "start" "h" true]);
     (true, [SWillTryToHandleEvent 5%nat "n1" "h";
             SInvoke 9%nat [VStr "n1"; VUndef; VUndef];
             SDidTryToHandleEvent 5%nat "n1" "h" true]);
     (true, [SWillTryToHandleEvent 5%nat "zzz" "unknownEvent";
             SInvoke 10%nat [VStr "zzz"; VUndef; VUndef];
             SDidTryToHandleEvent 5%nat "zzz" "unknownEvent" true]);
     (false, [SLogWarning (MsgIsStateObserveHandler "obs")]);
     (false, [SLogWarning (MsgIsEventHandler "h")])].
Proof. vm_compute. reflexivity. Qed.

(** The method [go] is found first and declines; the pattern handler [h]
    takes [n1]. *)
Lemma tryToHandleEvent_resolution_witness :
  Resolves eight_declines routing_state "go" VUndef VUndef
    (dispatch eight_declines routing_state "go" "go" 8%nat [VUndef; VUndef]) /\
  (dispatch eight_declines routing_state "go" "go" 8%nat [VUndef; VUndef]).1
  = false /\
  Resolves eight_declines routing_state "n1" VUndef VUndef
    (dispatch eight_declines routing_state "n1" "h" 9%nat
              [VStr "n1"; VUndef; VUndef]).
Proof.
  destruct (tryToHandleEvent_resolution eight_declines routing_state "go"
              VUndef VUndef) as (Hgo & _ & Hflag).
  destruct (tryToHandleEvent_resolution eight_declines routing_state "n1"
              VUndef VUndef) as (Hn1 & _ & _).
  split; [exact Hgo|]. split; [|exact Hn1].
  apply Hflag. reflexivity.
Defined.

(** C8 fails on the code.  The method [obs] of [routing_state] is a state
    observe handler: [respondsToEvent('obs')] answers [true], because it
    tests for a same-named method before it tests for a state observe
    handler, while [tryToHandleEvent('obs')] refuses the event and invokes
    nothing. *)
Theorem respondsToEvent_accepts_observe_handler_name :
  registeredStateObserveHandlers routing_state !! "obs" = Some ["foo"] /\
  methods routing_state !! "obs" = Some 7%nat /\
  respondsToEvent routing_state "obs" = true /\
  forall call arg1 arg2,
    tryToHandleEvent call routing_state "obs" arg1 arg2
    = (false, [SLogWarning (MsgIsStateObserveHandler "obs")]) /\
    dispatched (tryToHandleEvent call routing_state "obs" arg1 arg2) = false.
Proof.
  split; [by vm_compute|]. split; [by vm_compute|].
  split; [by vm_compute|]. intros call arg1 arg2.
  assert (tryToHandleEvent call routing_state "obs" arg1 arg2
          = (false, [SLogWarning (MsgIsStateObserveHandler "obs")])) as E.
  { unfold tryToHandleEvent.
    assert (registeredEventHandlers routing_state !! "obs" = None) as ->
      by (by vm_compute).
    assert (registeredStateObserveHandlers routing_state !! "obs"
            = Some ["foo"]) as -> by (by vm_compute).
    rewrite bool_decide_eq_false_2 by (by intros [? ?]).
    by rewrite bool_decide_eq_true_2. }
  by rewrite E.
Qed.

(** On [root_state], whose substates [a.foo] and [foo] both end in [foo]. *)
Lemma getSubstate_path_expression_witness :
  (exists keys,
     "a.foo" ∈ keys /\ "foo" ∈ keys /\
     getSubstate basic_matcher root_state (SPath "foo") None
     = (None, [SLogError (MsgAmbiguousSubstate keys)])) /\
  (exists keys,
     "a.foo" ∈ keys /\ "foo" ∈ keys /\
     getSubstate basic_matcher root_state (SPath "foo") (Some echo_paths)
     = echo_paths (Some keys)) /\
  getSubstate basic_matcher root_state (SPath "a.foo") None = (Some 2%nat, []) /\
  getSubstate basic_matcher root_state (SPath "bar") (Some answer_3)
  = answer_3 None /\
  getSubstate basic_matcher root_state (SPath "") (Some answer_3) = (None, []).
Proof.
  assert (path_matches basic_matcher root_state "foo" "a.foo" 2%nat) as Hafoo.
  { split; [|by vm_compute]. vm_compute. by left. }
  assert (path_matches basic_matcher root_state "foo" "foo" 3%nat) as Hfoo.
  { split; [|by vm_compute]. vm_compute. right. by left. }
  split; [|split; [|split; [|split]]].
  - destruct (getSubstate_path_expression basic_matcher root_state "foo" None)
      as (_ & _ & _ & Hmany);
      [done|by vm_compute|apply (bool_decide_unpack _); by vm_compute|].
    destruct (Hmany "a.foo" 2%nat "foo" 3%nat Hafoo Hfoo ltac:(done))
      as (keys & Hkeys & Hres).
    exists keys. split; [by apply (Hkeys "a.foo" 2%nat)|].
    split; [by apply (Hkeys "foo" 3%nat)|done].
  - destruct (getSubstate_path_expression basic_matcher root_state "foo"
                (Some echo_paths))
      as (_ & _ & _ & Hmany);
      [done|by vm_compute|apply (bool_decide_unpack _); by vm_compute|].
    destruct (Hmany "a.foo" 2%nat "foo" 3%nat Hafoo Hfoo ltac:(done))
      as (keys & Hkeys & Hres).
    exists keys. split; [by apply (Hkeys "a.foo" 2%nat)|].
    split; [by apply (Hkeys "foo" 3%nat)|done].
  - destruct (getSubstate_path_expression basic_matcher root_state "a.foo"
                None)
      as (_ & _ & Hone & _);
      [done|by vm_compute|apply (bool_decide_unpack _); by vm_compute|].
    apply (Hone "a.foo").
    + split; [|by vm_compute]. vm_compute. by left.
    + intros path' s' [Hin Hm]. vm_compute in Hin.
      apply elem_of_cons in Hin as [[= -> ->]|Hin]; [done|].
      apply list_elem_of_singleton in Hin as [= -> ->]. by vm_compute in Hm.
  - destruct (getSubstate_path_expression basic_matcher root_state "bar"
                (Some answer_3))
      as (_ & Hzero & _);
      [done|by vm_compute|apply (bool_decide_unpack _); by vm_compute|].
    apply Hzero. intros path s [Hin _]. vm_compute in Hin.
    by apply elem_of_nil in Hin.
  - apply (getSubstate_path_expression basic_matcher root_state ""
             (Some answer_3)).
    by left.
Defined.

(** C5 as stated fails at the empty expression: no registered path of
    [root_state] matches it and the callback would answer with state 3,
    yet [getSubstate] returns [null] at once, without calling it. *)
Lemma getSubstate_empty_expression_skips_the_callback :
  (forall path s, ~ path_matches basic_matcher root_state "" path s) /\
  answer_3 None = (Some 3%nat, []) /\
  getSubstate basic_matcher root_state (SPath "") (Some answer_3) = (None, []) /\
  getSubstate basic_matcher root_state (SPath "") (Some answer_3)
  <> answer_3 None.
Proof.
  split; [|by vm_compute].
  intros path s [Hin _]. vm_compute in Hin. by apply elem_of_nil in Hin.
Qed.

(** With two matching paths, the callback is handed every path filed under
    the last part of the expression: on [wide_state], [b.foo] goes with the
    two paths that [a.foo] matches. *)
Example getSubstate_callback_paths :
  matches (basic_matcher 0%nat "a.foo") "b.foo" = false /\
  getSubstate basic_matcher wide_state (SPath "a.foo") (Some echo_paths)
  = echo_paths (Some ["x.a.foo"; "y.a.foo"; "b.foo"]).
Proof. by vm_compute. Qed.

(** Going to the unknown substate [zzz] of [root_state], and to the
    history state of the unknown state [zzz] from [state_a]. *)
Lemma goto_unresolved_target_only_logs_witness :
  (getSubstate basic_matcher root_state (SPath "zzz") None).1 = None /\
  (getState basic_matcher state_a (SPath "zzz")).1 = None /\
  states (gotoSubstate basic_matcher no_transition3 root_state (SPath "zzz")
            VUndef example_chart) = states example_chart /\
  states (gotoHistoryState basic_matcher no_transition4 state_a (SPath "zzz")
            VUndef VUndef example_chart) = states example_chart.
Proof.
  assert ((getSubstate basic_matcher root_state (SPath "zzz") None).1 = None)
    as H1 by (vm_compute; reflexivity).
  assert ((getState basic_matcher state_a (SPath "zzz")).1 = None)
    as H2 by (vm_compute; reflexivity).
  destruct (goto_unresolved_target_only_logs basic_matcher no_transition3
              no_transition4 root_state (SPath "zzz") VUndef VUndef
              example_chart) as [Hsub _].
  destruct (goto_unresolved_target_only_logs basic_matcher no_transition3
              no_transition4 state_a (SPath "zzz") VUndef VUndef
              example_chart) as [_ Hhist].
  destruct (Hsub H1) as (es1 & _ & _ & E1).
  destruct (Hhist H2) as (es2 & _ & _ & E2).
  split; [exact H1|]. split; [exact H2|]. split; [exact E1|exact E2].
Defined.

(** What the two requests log on [example_chart], whose transition
    functions are never reached. *)
Example goto_unresolved_target_log :
  slog (gotoSubstate basic_matcher no_transition3 root_state (SPath "zzz")
          VUndef example_chart) = [SLogError MsgCanNotGoToState] /\
  slog (gotoSubstate basic_matcher no_transition3 root_state (SPath "foo")
          VUndef example_chart)
  = [SLogError (MsgAmbiguousSubstate ["a.foo"; "foo"]);
     SLogError MsgCanNotGoToState] /\
  slog (gotoHistoryState basic_matcher no_transition4 state_a (SPath "zzz")
          VUndef VUndef example_chart) = [SLogError MsgCanNotGoToHistoryState] /\
  slog (gotoSubstate basic_matcher no_transition3 root_state (SPath "a.foo")
          VUndef example_chart) = [SGotoState 2%nat None false VUndef].
Proof. vm_compute. repeat split; reflexivity. Qed.

(** *** Instances of the further properties *)

Ltac check_closed := apply (bool_decide_unpack _); vm_compute; exact I.

Example pathRelativeTo_examples :
  pathRelativeTo bare_a_foo 0%nat = (Some "a.foo", []) /\
  pathRelativeTo bare_a_foo 1%nat = (Some "foo", []) /\
  pathRelativeTo bare_a_foo 2%nat = (Some "root.a.foo", []) /\
  pathRelativeTo bare_a 2%nat = (None, [NotAParentState 2%nat 1%nat]) /\
  fullPath (Some 0%nat) bare_root = (Some "root", []).
Proof. vm_compute. repeat split; reflexivity. Qed.

(** [foo] registered with the root: found by its object and by the path
    [a.foo]. *)
Lemma registered_substate_is_found_witness :
  let root' := (_registerSubstate bare_root bare_a_foo).1 in
  getSubstate basic_matcher root' (SState 2%nat) None = (Some 2%nat, []) /\
  getSubstate basic_matcher root' (SPath "a.foo") None = (Some 2%nat, []).
Proof.
  intros root'. subst root'.
  destruct (registered_substate_is_found basic_matcher bare_root bare_a_foo
              None) as [H _].
  destruct H as (path & this' & Hp & Hr & Ho & _ & _ & He).
  { check_closed. }
  rewrite Hr. cbn [fst]. split; [exact Ho|].
  assert (path = "a.foo") as ->.
  { vm_compute in Hp. by injection Hp as <-. }
  apply He.
  - discriminate.
  - vm_compute. discriminate.
  - vm_compute. reflexivity.
  - vm_compute. reflexivity.
  - vm_compute. apply NoDup_nil_2.
  - intros p s Hin. vm_compute in Hin. by apply elem_of_nil in Hin.
Defined.

(** From the idle state [a] the search ends at the first current substate
    of the root, which is not current itself. *)
Lemma first_relative_current_state_witness :
  exists before a after,
    chain idle_a = before ++ a :: after /\
    Forall no_current before /\
    3%nat ∈ default [] (currentSubstates a) /\
    (if isCurrentState a then 3%nat = sid a
     else head (default [] (currentSubstates a)) = Some 3%nat).
Proof.
  apply (proj2 (proj2 (first_relative_current_state basic_matcher idle_a
                         example_chart)) 3%nat).
  vm_compute. reflexivity.
Defined.

(** [reenter()] on the entered state [a] of [example_chart]. *)
Lemma reenter_requests_no_transition_witness :
  reenter basic_matcher no_transition3 (Some [1%nat]) state_a example_chart
  = (logged [SLogError MsgCanNotGoToState] example_chart, false).
Proof.
  assert (sid state_a ∉ registeredSubstates state_a) as Hn.
  { intros H. vm_compute in H.
    apply list_elem_of_singleton in H. discriminate. }
  rewrite (proj1 (reenter_requests_no_transition basic_matcher
                    no_transition3 (Some [1%nat]) state_a example_chart Hn)).
  reflexivity.
Defined.

(** The handler [h] of [routing_state] takes the event [start]. *)
Lemma registered_handler_takes_its_events_witness :
  let s' := (_sc_registerEventHandler "h" 9%nat
               [EvString "start"; EvRegExp begins_with_n] plain_state).1 in
  tryToHandleEvent eight_declines s' "start" VUndef VUndef
  = dispatch eight_declines s' "start" "h" 9%nat
             [VStr "start"; VUndef; VUndef].
Proof.
  intros s'. subst s'.
  pose proof (registered_handler_takes_its_events eight_declines "h" 9%nat
                [EvString "start"; EvRegExp begins_with_n] plain_state
                VUndef VUndef) as H.
  cbv zeta in H. destruct H as (_ & _ & H).
  destruct (H "start") as [Hs _].
  - discriminate.
  - reflexivity.
  - reflexivity.
  - reflexivity.
  - apply Hs. check_closed.
Defined.

(** A second handler with a pattern that accepts everything does not take
    [next] from the pattern of [h]. *)
Lemma earlier_registrations_keep_their_events_witness :
  tryToHandleEvent eight_declines
    (_sc_registerEventHandler "h2" 11%nat
       [EvString "stop"; EvRegExp any_event] routing_state).1
    "next" VUndef VUndef
  = tryToHandleEvent eight_declines routing_state "next" VUndef VUndef.
Proof.
  apply (earlier_registrations_keep_their_events eight_declines "h2" 11%nat
           [EvString "stop"; EvRegExp any_event] routing_state "next"
           VUndef VUndef).
  - discriminate.
  - intros H. vm_compute in H.
    apply list_elem_of_singleton in H. discriminate.
  - do 4 right. vm_compute. reflexivity.
Defined.

(** One valid and one invalid argument: nothing is registered. *)
Lemma registerStateObserveHandler_all_or_nothing_witness :
  (_registerStateObserveHandler "obs" [Some "foo"; None] plain_state).1
  = plain_state /\
  registeredStateObserveHandlers
    (_registerStateObserveHandler "obs" [Some "foo"] plain_state).1 !! "obs"
  = Some ["foo"].
Proof.
  pose proof (registerStateObserveHandler_all_or_nothing eight_declines
                "obs" [Some "foo"; None] plain_state) as H1.
  pose proof (registerStateObserveHandler_all_or_nothing eight_declines
                "obs" [Some "foo"] plain_state) as H2.
  cbv zeta in H1, H2. destruct H1 as [_ H1]. destruct H2 as [H2 _].
  destruct (H1 eq_refl) as (Hs & _ & _).
  destruct (H2 eq_refl) as (_ & Hr & _ & _).
  split; [exact Hs|exact Hr].
Defined.

(** The method [obs] of [routing_state], a state observe handler. *)
Lemma respondsToEvent_differs_only_on_observe_handlers_witness :
  respondsToEvent routing_state "obs"
  <> dispatched (tryToHandleEvent eight_declines routing_state "obs"
                   VUndef VUndef).
Proof.
  apply (proj2 (respondsToEvent_differs_only_on_observe_handlers
                  eight_declines routing_state "obs" VUndef VUndef)).
  split; [vm_compute; reflexivity|]. split; [check_closed|].
  left. check_closed.
Defined.

(** [getState('foo')] on the state [a] of [example_chart]. *)
Lemma getState_answers_known_states_witness :
  exists a,
    a ∈ chain state_a /\
    (("foo" = name a /\ 2%nat = sid a) \/
     exists nm paths path,
       registeredSubstatePaths a !! nm = Some paths /\
       (path, 2%nat) ∈ paths).
Proof.
  apply (proj2 (getState_answers_known_states basic_matcher state_a "foo"
                  2%nat)).
  vm_compute. reflexivity.
Defined.

(** [foo] registers with [a] and with the root; the root holds it under
    the path [a.foo]. *)
Lemma registerWithParentStates_reaches_every_ancestor_witness :
  getSubstate basic_matcher (_registerSubstate bare_root bare_a_foo).1
              (SState 2%nat) None
  = (Some 2%nat, []) /\
  exists path,
    pathRelativeTo bare_a_foo 0%nat = (Some path, []) /\
    (path, 2%nat)
      ∈ default [] (registeredSubstatePaths
                      (_registerSubstate bare_root bare_a_foo).1 !! "foo").
Proof.
  destruct (proj2 (registerWithParentStates_reaches_every_ancestor
                     basic_matcher bare_a_foo None)
              1%nat bare_root (_registerSubstate bare_root bare_a_foo).1
              (_registerSubstate bare_root bare_a_foo).2)
    as (_ & _ & Hg & Hp).
  - reflexivity.
  - vm_compute. reflexivity.
  - split; [exact Hg|exact Hp].
Defined.

End Substate.
